(** * mini_generals: the simulation engine of [src/game/engine.ts]

    A shallow embedding of the class [GameEngine] (unit creation with
    scaled prices, move and attack commands, the per-tick update with
    auto-targeting, movement, combat, resource respawn and collection),
    and the properties of it that the specification states.

    JavaScript numbers are IEEE 754 binary64 values; they are embedded as
    Rocq's primitive [float], whose operations round exactly as
    JavaScript's do, so every evaluation below is the one the engine
    performs.  Objects used as dictionaries ([state.players],
    [state.units], [state.resources]) are keyed by UUID strings, which
    JavaScript enumerates in insertion order: they are association lists
    in insertion order.  They are plain objects, so a read [o[k]] of a
    key that is no own property goes on to [Object.prototype]: the
    names found there, what a command addressed to one of them does
    and the [TypeError] some of these reads end in are part of the
    embedding, and a method that can throw returns the state it leaves
    together with the way it ends.  The unit objects are shared
    between [state.units] and the rosters [player.units]; a roster is
    embedded as the list of the ids under which its objects are stored
    in [state.units].  Every position the engine stores is an object
    of its own (the callers build a new one for each call), so
    positions are values.  The results of [uuidv4()], [Math.random()]
    and [Date.now()] are explicit arguments of the operations that
    call them. *)

From Stdlib Require Import ZArith List Bool Lia Zpower String.
From Stdlib Require Import Floats Uint63.
Import ListNotations.

(** ** Binary64 arithmetic *)

Module F64.

Local Open Scope Z_scope.

Definition SFzero : spec_float := S754_zero false.

(** The integer [z] as a float (exact for [|z| < 2^53]). *)
Definition of_Z (z : Z) : float :=
  match z with
  | Z0 => PrimFloat.zero
  | Zpos _ => PrimFloat.of_uint63 (Uint63.of_Z z)
  | Zneg p => PrimFloat.opp (PrimFloat.of_uint63 (Uint63.of_Z (Zpos p)))
  end.

(** [array.length] as a number. *)
Definition of_nat (n : nat) : float := of_Z (Z.of_nat n).

(** [Math.floor]: a finite float is [(-1)^s * m * 2^e]; with [e >= 0]
    it is an integer already, otherwise the mantissa is shifted right
    and, for a negative inexact value, rounded away from zero. *)
Definition Math_floor (x : float) : float :=
  match Prim2SF x with
  | S754_finite s m e =>
      if 0 <=? e then x
      else
        let q := Z.shiftr (Zpos m) (- e) in
        if s then
          if Z.shiftl q (- e) =? Zpos m then of_Z (- q) else of_Z (- (q + 1))
        else of_Z q
  | _ => x
  end.

(** [Math.max] and [Math.min] of two numbers: NaN if either is NaN, and
    [-0] is below [+0]. *)
Definition Math_max (a b : float) : float :=
  if (PrimFloat.is_nan a || PrimFloat.is_nan b)%bool then PrimFloat.nan
  else if PrimFloat.ltb a b then b
  else if PrimFloat.ltb b a then a
  else if PrimFloat.get_sign a then b else a.

Definition Math_min (a b : float) : float :=
  if (PrimFloat.is_nan a || PrimFloat.is_nan b)%bool then PrimFloat.nan
  else if PrimFloat.ltb a b then a
  else if PrimFloat.ltb b a then b
  else if PrimFloat.get_sign a then a else b.

(** [a > b] *)
Definition gtb (a b : float) : bool := PrimFloat.ltb b a.

End F64.

(** ** Objects used as dictionaries, in insertion order *)

Module Obj.
Section WithValue.
Context {V : Type}.

Definition t := list (string * V).

(** [o[k]] *)
Fixpoint get (k : string) (o : t) : option V :=
  match o with
  | [] => None
  | (k', v) :: o' => if String.eqb k' k then Some v else get k o'
  end.

(** [o[k] = v]: an existing key keeps its place, a new one goes last. *)
Fixpoint set (k : string) (v : V) (o : t) : t :=
  match o with
  | [] => [(k, v)]
  | (k', v') :: o' =>
      if String.eqb k' k then (k', v) :: o' else (k', v') :: set k v o'
  end.

(** In-place mutation of the object stored under [k]. *)
Definition modify (k : string) (f : V -> V) (o : t) : t :=
  map (fun kv => if String.eqb (fst kv) k then (fst kv, f (snd kv)) else kv) o.

(** [Object.keys(o)] and [Object.values(o)] *)
Definition keys (o : t) : list string := map fst o.
Definition values (o : t) : list V := map snd o.
End WithValue.
Arguments t : clear implicits.
End Obj.

(** ** [types.ts] *)

Inductive UnitType := SOLDIER | TANK | HELICOPTER.
Inductive FactionType := USA | CHINA | GLA.
Inductive ResourceType := MONEY.

Definition UnitType_eqb (a b : UnitType) : bool :=
  match a, b with
  | SOLDIER, SOLDIER | TANK, TANK | HELICOPTER, HELICOPTER => true
  | _, _ => false
  end.

Record Position := { x : float; y : float }.

Module Unit.
Record t := mk {
  id : string;
  type : UnitType;
  position : Position;
  health : float;
  maxHealth : float;
  attack : float;
  defense : float;
  range : float;
  speed : float;
  playerId : string;
  targetId : option string;
  path : option (list Position);
  isDead : bool;
  isMoving : bool;
  isAttacking : bool;
  canAttackAir : bool;
  canAttackGround : bool
}.

Definition with_position (p : Position) (u : t) : t :=
  mk (id u) (type u) p (health u) (maxHealth u) (attack u) (defense u)
     (range u) (speed u) (playerId u) (targetId u) (path u) (isDead u)
     (isMoving u) (isAttacking u) (canAttackAir u) (canAttackGround u).
Definition with_health (h : float) (u : t) : t :=
  mk (id u) (type u) (position u) h (maxHealth u) (attack u) (defense u)
     (range u) (speed u) (playerId u) (targetId u) (path u) (isDead u)
     (isMoving u) (isAttacking u) (canAttackAir u) (canAttackGround u).
Definition with_targetId (tgt : option string) (u : t) : t :=
  mk (id u) (type u) (position u) (health u) (maxHealth u) (attack u)
     (defense u) (range u) (speed u) (playerId u) tgt (path u) (isDead u)
     (isMoving u) (isAttacking u) (canAttackAir u) (canAttackGround u).
Definition with_path (p : option (list Position)) (u : t) : t :=
  mk (id u) (type u) (position u) (health u) (maxHealth u) (attack u)
     (defense u) (range u) (speed u) (playerId u) (targetId u) p (isDead u)
     (isMoving u) (isAttacking u) (canAttackAir u) (canAttackGround u).
Definition with_isDead (b : bool) (u : t) : t :=
  mk (id u) (type u) (position u) (health u) (maxHealth u) (attack u)
     (defense u) (range u) (speed u) (playerId u) (targetId u) (path u) b
     (isMoving u) (isAttacking u) (canAttackAir u) (canAttackGround u).
Definition with_isMoving (b : bool) (u : t) : t :=
  mk (id u) (type u) (position u) (health u) (maxHealth u) (attack u)
     (defense u) (range u) (speed u) (playerId u) (targetId u) (path u)
     (isDead u) b (isAttacking u) (canAttackAir u) (canAttackGround u).
Definition with_isAttacking (b : bool) (u : t) : t :=
  mk (id u) (type u) (position u) (health u) (maxHealth u) (attack u)
     (defense u) (range u) (speed u) (playerId u) (targetId u) (path u)
     (isDead u) (isMoving u) b (canAttackAir u) (canAttackGround u).
End Unit.

Module Player.
(** [resources] is the object [{ MONEY: number }]: its one entry.
    [units] holds references to unit objects: their ids. *)
Record t := mk {
  id : string;
  name : string;
  faction : FactionType;
  resources : float;
  units : list string;
  basePosition : Position;
  color : string
}.

Definition with_resources (m : float) (p : t) : t :=
  mk (id p) (name p) (faction p) m (units p) (basePosition p) (color p).
Definition with_units (us : list string) (p : t) : t :=
  mk (id p) (name p) (faction p) (resources p) us (basePosition p) (color p).
End Player.

Module Resource.
Record t := mk {
  id : string;
  type : ResourceType;
  position : Position;
  amount : float;
  respawnTime : float;
  isCollected : bool
}.

Definition with_amount (a : float) (r : t) : t :=
  mk (id r) (type r) (position r) a (respawnTime r) (isCollected r).
Definition with_respawnTime (s : float) (r : t) : t :=
  mk (id r) (type r) (position r) (amount r) s (isCollected r).
Definition with_isCollected (b : bool) (r : t) : t :=
  mk (id r) (type r) (position r) (amount r) (respawnTime r) b.
End Resource.

Module GameState.
Record t := mk {
  players : Obj.t Player.t;
  units : Obj.t Unit.t;
  resources : Obj.t Resource.t;
  gameTime : float;
  mapSize : float * float   (* width, height *)
}.

Definition with_players (ps : Obj.t Player.t) (s : t) : t :=
  mk ps (units s) (resources s) (gameTime s) (mapSize s).
Definition with_units (us : Obj.t Unit.t) (s : t) : t :=
  mk (players s) us (resources s) (gameTime s) (mapSize s).
Definition with_resources (rs : Obj.t Resource.t) (s : t) : t :=
  mk (players s) (units s) rs (gameTime s) (mapSize s).
Definition with_gameTime (g : float) (s : t) : t :=
  mk (players s) (units s) (resources s) g (mapSize s).
End GameState.

(** The private fields of [class GameEngine], and the one thing
    outside the class that its property reads reach and its writes can
    change: the property [path] of [Object.prototype], which does not
    exist until a move order addressed to the name [__proto__] creates
    it (together with [isMoving], [isAttacking] and [targetId]). *)
Record GameEngine := {
  state : GameState.t;
  lastUpdateTime : float;
  resourceSpots : list Position;
  prototypePath : option (list Position)
}.

(** ** [engine.ts] *)

Local Open Scope string_scope.
Local Open Scope float_scope.

(* A decimal literal such as [0.1] denotes the nearest binary64 value,
   as it does in JavaScript. *)
Set Warnings "-inexact-float".

(** Base costs for units *)
Definition BASE_UNIT_COSTS (unitType : UnitType) : float :=
  match unitType with
  | SOLDIER => 150
  | TANK => 450
  | HELICOPTER => 700
  end.

(** Unit stats *)
Record UnitStats := {
  stat_health : float;
  stat_maxHealth : float;
  stat_attack : float;
  stat_defense : float;
  stat_range : float;
  stat_speed : float;
  stat_canAttackAir : bool;
  stat_canAttackGround : bool
}.

Definition UNIT_STATS (unitType : UnitType) : UnitStats :=
  match unitType with
  | SOLDIER =>
      {| stat_health := 100; stat_maxHealth := 100; stat_attack := 10;
         stat_defense := 5; stat_range := 3; stat_speed := 2;
         stat_canAttackAir := true; stat_canAttackGround := true |}
  | TANK =>
      {| stat_health := 300; stat_maxHealth := 300; stat_attack := 30;
         stat_defense := 20; stat_range := 5; stat_speed := 1.5;
         stat_canAttackAir := false; stat_canAttackGround := true |}
  | HELICOPTER =>
      {| stat_health := 200; stat_maxHealth := 200; stat_attack := 25;
         stat_defense := 10; stat_range := 7; stat_speed := 3;
         stat_canAttackAir := true; stat_canAttackGround := true |}
  end.

(** Resource generation config *)
Module RESOURCE_CONFIG.
Definition respawnTime : float := 30.
Definition resourceAmount (type : ResourceType) : float := 150.
Definition mapResourceCount (type : ResourceType) : nat := 15.
End RESOURCE_CONFIG.

(** *** Access to the engine's state *)

Definition with_state (s : GameState.t) (e : GameEngine) : GameEngine :=
  {| state := s; lastUpdateTime := lastUpdateTime e;
     resourceSpots := resourceSpots e; prototypePath := prototypePath e |}.

Definition with_prototypePath (path : option (list Position)) (e : GameEngine)
  : GameEngine :=
  {| state := state e; lastUpdateTime := lastUpdateTime e;
     resourceSpots := resourceSpots e; prototypePath := path |}.

Definition players (e : GameEngine) := GameState.players (state e).
Definition units (e : GameEngine) := GameState.units (state e).
Definition resources (e : GameEngine) := GameState.resources (state e).
Definition gameTime (e : GameEngine) := GameState.gameTime (state e).

Definition with_players (ps : Obj.t Player.t) (e : GameEngine) :=
  with_state (GameState.with_players ps (state e)) e.
Definition with_units (us : Obj.t Unit.t) (e : GameEngine) :=
  with_state (GameState.with_units us (state e)) e.
Definition with_resources (rs : Obj.t Resource.t) (e : GameEngine) :=
  with_state (GameState.with_resources rs (state e)) e.

(** Mutation of the player, unit or resource object stored under a key. *)
Definition modifyPlayer (k : string) (f : Player.t -> Player.t) (e : GameEngine) :=
  with_players (Obj.modify k f (players e)) e.
Definition modifyUnit (k : string) (f : Unit.t -> Unit.t) (e : GameEngine) :=
  with_units (Obj.modify k f (units e)) e.
Definition modifyResource (k : string) (f : Resource.t -> Resource.t) (e : GameEngine) :=
  with_resources (Obj.modify k f (resources e)) e.

(** *** Property reads and exceptions

    [Object.prototype] has twelve properties from the start: eleven
    functions and the accessor [__proto__], which yields
    [Object.prototype] itself.  A move order addressed to [__proto__]
    gives it four more: [path], an array; [isMoving], [true];
    [isAttacking], [false]; and [targetId], [undefined].  So a read
    [o[k]] of a dictionary yields the entity stored under [k], or else
    an object that is no entity (a built-in function, [Object.prototype],
    the array), or else the primitive [true], or else a falsy value
    ([undefined] or [false]).  On an object that is no entity, and on
    [true], every property the engine reads from a unit or a player
    ([isDead], [type], [playerId], [position], [canAttackAir],
    [canAttackGround], [units]) is [undefined]. *)
Definition prototypeNames : list string :=
  ["constructor"; "__defineGetter__"; "__defineSetter__"; "hasOwnProperty";
   "__lookupGetter__"; "__lookupSetter__"; "isPrototypeOf";
   "propertyIsEnumerable"; "toString"; "valueOf"; "__proto__";
   "toLocaleString"].

Inductive Property (V : Type) : Type :=
| Own (v : V)
| Foreign
| Primitive
| Falsy.
Arguments Own {V} v.
Arguments Foreign {V}.
Arguments Primitive {V}.
Arguments Falsy {V}.

(** [o[k]] for a key [k] that is no own property of [o]. *)
Definition inherited {V : Type} (e : GameEngine) (k : string) : Property V :=
  if existsb (String.eqb k) prototypeNames then Foreign
  else
    match prototypePath e with
    | Some _ =>
        if String.eqb k "path" then Foreign
        else if String.eqb k "isMoving" then Primitive
        else Falsy
    | None => Falsy
    end.

(** [o[k]] for one of the dictionaries of the engine. *)
Definition read {V : Type} (e : GameEngine) (o : Obj.t V) (k : string) : Property V :=
  match Obj.get k o with
  | Some v => Own v
  | None => inherited e k
  end.

(** How a call ends: it returns, or a [TypeError] leaves it. *)
Inductive Result (A : Type) : Type :=
| Returns (a : A)
| Throws.
Arguments Returns {A} a.
Arguments Throws {A}.

(** What a call without a result returns. *)
Definition void : Type := Datatypes.unit.

(** The unit objects a roster refers to. *)
Definition rosterUnits (e : GameEngine) (player : Player.t) : list Unit.t :=
  flat_map (fun k => match Obj.get k (units e) with
                     | Some unit => [unit]
                     | None => []
                     end) (Player.units player).

(** *** Construction *)

(** [generateResourceSpots]; [random i] is the result of the [i]-th call
    of [Math.random()]. *)
Definition generateResourceSpots (width height : float) (random : nat -> float)
  : list Position :=
  let totalSpots := RESOURCE_CONFIG.mapResourceCount MONEY in
  let margin := 100 in
  map (fun i =>
         {| x := random (2 * i)%nat * (width - 2 * margin) + margin;
            y := random (2 * i + 1)%nat * (height - 2 * margin) + margin |})
      (seq 0 totalSpots).

(** [spawnResources]; [uuidv4 i] is the result of the [i]-th call of
    [uuidv4()]. *)
Definition spawnResources (spots : list Position) (uuidv4 : nat -> string)
  : Obj.t Resource.t :=
  let moneyCount := RESOURCE_CONFIG.mapResourceCount MONEY in
  fold_left
    (fun rs i =>
       let resource :=
         {| Resource.id := uuidv4 i;
            Resource.type := MONEY;
            Resource.position := nth i spots {| x := 0; y := 0 |};
            Resource.amount := RESOURCE_CONFIG.resourceAmount MONEY;
            Resource.respawnTime := RESOURCE_CONFIG.respawnTime;
            Resource.isCollected := false |} in
       Obj.set (Resource.id resource) resource rs)
    (seq 0 moneyCount) [].

(** [new GameEngine(mapWidth, mapHeight)], run at time [now]. *)
Definition newGameEngine (mapWidth mapHeight : float) (now : float)
    (random : nat -> float) (uuidv4 : nat -> string) : GameEngine :=
  let spots := generateResourceSpots mapWidth mapHeight random in
  {| state :=
       {| GameState.players := [];
          GameState.units := [];
          GameState.resources := spawnResources spots uuidv4;
          GameState.gameTime := 0;
          GameState.mapSize := (mapWidth, mapHeight) |};
     lastUpdateTime := now;
     resourceSpots := spots;
     prototypePath := None |}.

(** *** Commands *)

(** [createUnit(playerId, unitType, position)]; [uuid] is what
    [uuidv4()] returns when the purchase goes through. *)
Definition createUnit (e : GameEngine) (playerId : string)
    (unitType : UnitType) (position : Position) (uuid : string)
  : GameEngine * Result (option string) :=
  match read e (players e) playerId with
  | Falsy => (e, Returns None)
  | Foreign | Primitive =>
      (* [player.units] is [undefined], and [player.units.length] throws *)
      (e, Throws)
  | Own player =>
      (* Calculate cost scaling based on number of units *)
      let scalingFactor := 1 + F64.of_nat (List.length (Player.units player)) * 0.1 in
      let unitCost := F64.Math_floor (BASE_UNIT_COSTS unitType * scalingFactor) in
      (* Check if player has enough resources *)
      if Player.resources player <? unitCost then (e, Returns None)
      else
        (* Deduct resources *)
        let e1 :=
          modifyPlayer playerId
            (fun p => Player.with_resources (Player.resources p - unitCost) p) e in
        (* Create unit *)
        let unitId := uuid in
        let unitStats := UNIT_STATS unitType in
        let unit :=
          {| Unit.id := unitId;
             Unit.type := unitType;
             Unit.position := position;
             Unit.health := stat_health unitStats;
             Unit.maxHealth := stat_maxHealth unitStats;
             Unit.attack := stat_attack unitStats;
             Unit.defense := stat_defense unitStats;
             Unit.range := stat_range unitStats;
             Unit.speed := stat_speed unitStats;
             Unit.playerId := playerId;
             Unit.targetId := None;
             Unit.path := None;
             Unit.isDead := false;
             Unit.isMoving := false;
             Unit.isAttacking := false;
             Unit.canAttackAir := stat_canAttackAir unitStats;
             Unit.canAttackGround := stat_canAttackGround unitStats |} in
        let e2 := with_units (Obj.set unitId unit (units e1)) e1 in
        let e3 :=
          modifyPlayer playerId
            (fun p => Player.with_units (Player.units p ++ [unitId]) p) e2 in
        (e3, Returns (Some unitId))
  end.

Definition playerColors : list string :=
  ["#FF5733"; "#33FF57"; "#3357FF"; "#F3FF33"; "#FF33F3"].

(** [addPlayer(name, faction)]; [playerId] is the id [uuidv4()] returns,
    [rx], [ry] the two results of [Math.random()], and [u1], [u2], [u3]
    the ids available to the three calls of [createUnit]. *)
Definition addPlayer (e : GameEngine) (name : string) (faction : FactionType)
    (playerId : string) (rx ry : float) (u1 u2 u3 : string)
  : GameEngine * string :=
  let '(width, height) := GameState.mapSize (state e) in
  let basePosition :=
    {| x := rx * (width - 200) + 100; y := ry * (height - 200) + 100 |} in
  let color :=
    nth (List.length (Obj.keys (players e)) mod List.length playerColors) playerColors "" in
  let player :=
    {| Player.id := playerId;
       Player.name := name;
       Player.faction := faction;
       Player.resources := 800;
       Player.units := [];
       Player.basePosition := basePosition;
       Player.color := color |} in
  let e := with_players (Obj.set playerId player (players e)) e in
  (* Create initial units for the player *)
  let e := fst (createUnit e playerId SOLDIER
                  {| x := x basePosition - 20; y := y basePosition - 20 |} u1) in
  let e := fst (createUnit e playerId SOLDIER
                  {| x := x basePosition + 20; y := y basePosition - 20 |} u2) in
  let e := fst (createUnit e playerId TANK
                  {| x := x basePosition; y := y basePosition + 20 |} u3) in
  (e, playerId).

(** [moveUnit(unitId, targetPosition)].  An object that is no entity
    passes the guard, [isDead] being [undefined] on it, and takes the
    four writes; they change what the engine reads only when the object
    is [Object.prototype].  On the primitive [true] the first write
    throws: the class is strict code. *)
Definition moveUnit (e : GameEngine) (unitId : string) (targetPosition : Position)
  : GameEngine * Result bool :=
  match read e (units e) unitId with
  | Falsy => (e, Returns false)
  | Own unit =>
      if Unit.isDead unit then (e, Returns false)
      else
        (modifyUnit unitId
           (fun u => Unit.with_targetId None
                       (Unit.with_isAttacking false
                          (Unit.with_isMoving true
                             (Unit.with_path (Some [targetPosition]) u)))) e,
         Returns true)
  | Foreign =>
      if String.eqb unitId "__proto__"
      then (with_prototypePath (Some [targetPosition]) e, Returns true)
      else (e, Returns true)
  | Primitive => (e, Throws)
  end.

(** [canUnitAttackTarget(attacker, target)] *)
Definition canUnitAttackTarget (attacker target : Unit.t) : bool :=
  let isTargetAir := UnitType_eqb (Unit.type target) HELICOPTER in
  if isTargetAir then Unit.canAttackAir attacker
  else Unit.canAttackGround attacker.

(** [attackUnit(attackerId, targetId)].  A target that is no entity
    has no [isDead], no [playerId] and no [type]: it passes for a living
    ground unit of nobody.  An attacker that is no entity has no
    [playerId] and no capability: the order is refused, by the owner
    test when the target is no entity either, and by the capability
    test otherwise. *)
Definition attackUnit (e : GameEngine) (attackerId targetId : string)
  : GameEngine * bool :=
  match read e (units e) attackerId, read e (units e) targetId with
  | Own attacker, Own target =>
      if Unit.isDead attacker || Unit.isDead target
         || String.eqb (Unit.playerId attacker) (Unit.playerId target)
      then (e, false)
      else if negb (canUnitAttackTarget attacker target) then (e, false)
      else
        (modifyUnit attackerId
           (fun u => Unit.with_isAttacking true
                       (Unit.with_targetId (Some targetId) u)) e,
         true)
  | Own attacker, (Foreign | Primitive) =>
      if Unit.isDead attacker then (e, false)
      else if negb (Unit.canAttackGround attacker) then (e, false)
      else
        (modifyUnit attackerId
           (fun u => Unit.with_isAttacking true
                       (Unit.with_targetId (Some targetId) u)) e,
         true)
  | _, _ => (e, false)
  end.

(** *** The per-tick update *)

(** [Math.sqrt(dx * dx + dy * dy)] *)
Definition distanceOf (dx dy : float) : float := PrimFloat.sqrt (dx * dx + dy * dy).

(** The step towards a point at offset [(dx, dy)], [distance] away. *)
Definition advance (deltaTime dx dy distance : float) (unit : Unit.t) : Unit.t :=
  let moveDistance := Unit.speed unit * deltaTime * 60 in
  let ratio := F64.Math_min (moveDistance / distance) 1 in
  Unit.with_position
    {| x := x (Unit.position unit) + dx * ratio;
       y := y (Unit.position unit) + dy * ratio |} unit.

(** [checkForAutoTarget(unit)]: the scan of [Object.values(units)] for
    the nearest enemy within detection range. *)
Definition nearestEnemy (e : GameEngine) (unit : Unit.t) : option Unit.t :=
  fst (fold_left
         (fun (acc : option Unit.t * float) (otherUnit : Unit.t) =>
            let '(nearest, nearestDistance) := acc in
            if Unit.isDead otherUnit
               || String.eqb (Unit.playerId otherUnit) (Unit.playerId unit)
            then acc
            else if negb (canUnitAttackTarget unit otherUnit) then acc
            else
              let dx := x (Unit.position otherUnit) - x (Unit.position unit) in
              let dy := y (Unit.position otherUnit) - y (Unit.position unit) in
              let distance := distanceOf dx dy in
              (* Auto-detect range is slightly larger than attack range *)
              let detectionRange := Unit.range unit * 25 in
              if (distance <=? detectionRange) && (distance <? nearestDistance)
              then (Some otherUnit, distance)
              else acc)
         (Obj.values (units e)) (None, PrimFloat.infinity)).

Definition checkForAutoTarget (e : GameEngine) (unit : Unit.t) : GameEngine :=
  (* Only look for targets if not already attacking or moving *)
  if Unit.isAttacking unit || Unit.isMoving unit then e
  else
    match nearestEnemy e unit with
    | Some enemy => fst (attackUnit e (Unit.id unit) (Unit.id enemy))
    | None => e
    end.

(** Handle movement: what the movement block does to [unit]. *)
Definition handleMovement (deltaTime : float) (unit : Unit.t) : Unit.t :=
  match Unit.path unit with
  | Some (targetPos :: rest) =>
      if Unit.isMoving unit then
        let dx := x targetPos - x (Unit.position unit) in
        let dy := y targetPos - y (Unit.position unit) in
        let distance := distanceOf dx dy in
        if distance <? 1 then
          (* Reached destination *)
          let unit := Unit.with_path (Some rest) unit in
          match rest with
          | [] => Unit.with_isMoving false unit
          | _ => unit
          end
        else
          (* Move towards destination *)
          advance deltaTime dx dy distance unit
      else unit
  | _ => unit
  end.

Definition clearAttack (unit : Unit.t) : Unit.t :=
  Unit.with_targetId None (Unit.with_isAttacking false unit).

(** [target.health -= damage] and the death of the target, the object
    stored under [targetId].  When [players[target.playerId]] is an
    object that is no player, or [true], [player.units.filter] throws,
    the target being dead already. *)
Definition dealDamage (e : GameEngine) (unit : Unit.t) (targetId : string)
    (target : Unit.t) : GameEngine * Result void :=
  let damage := F64.Math_max 1 (Unit.attack unit - Unit.defense target / 2) in
  let health := Unit.health target - damage in
  if health <=? 0 then
    let e :=
      modifyUnit targetId
        (fun t => Unit.with_isDead true (Unit.with_health 0 t)) e in
    (* Remove dead unit from player's units array *)
    match read e (players e) (Unit.playerId target) with
    | Own _ =>
        (modifyPlayer (Unit.playerId target)
           (fun p => Player.with_units
                       (filter (fun u => negb (String.eqb u (Unit.id target)))
                               (Player.units p)) p) e,
         Returns tt)
    | Falsy => (e, Returns tt)
    | Foreign | Primitive => (e, Throws)
    end
  else (modifyUnit targetId (Unit.with_health health) e, Returns tt).

(** The movement block, for the unit stored under [unitId].
    [unit.path] is the unit's own property or, for a unit that has
    none, the array [Object.prototype] holds, if it holds one: the unit
    then follows that array, and the waypoint it reaches is shifted off
    that array. *)
Definition borrowing (deltaTime : float) (path : list Position) (unit : Unit.t)
  : Unit.t :=
  handleMovement deltaTime (Unit.with_path (Some path) unit).

Definition moveAlong (deltaTime : float) (e : GameEngine) (unitId : string)
  : GameEngine :=
  match Obj.get unitId (units e) with
  | None => e
  | Some unit =>
      match Unit.path unit, prototypePath e with
      | None, Some path =>
          with_prototypePath (Unit.path (borrowing deltaTime path unit))
            (modifyUnit unitId
               (fun u => Unit.with_path None (borrowing deltaTime path u)) e)
      | _, _ => modifyUnit unitId (handleMovement deltaTime) e
      end
  end.

(** Handle combat: the combat block, for the unit stored under
    [unitId].  A target that is no entity is neither dead nor a
    helicopter, and has no [position]: [target.position.x] throws. *)
Definition handleCombat (deltaTime : float) (e : GameEngine) (unitId : string)
  : GameEngine * Result void :=
  match Obj.get unitId (units e) with
  | None => (e, Returns tt)
  | Some unit =>
      match Unit.targetId unit with
      | Some targetId =>
          if Unit.isAttacking unit && negb (String.eqb targetId "") then
            match read e (units e) targetId with
            | Falsy => (modifyUnit unitId clearAttack e, Returns tt)
            | Own target =>
                if Unit.isDead target
                then (modifyUnit unitId clearAttack e, Returns tt)
                else if negb (canUnitAttackTarget unit target)
                then (modifyUnit unitId clearAttack e, Returns tt)
                else
                  (* Calculate distance to target *)
                  let dx := x (Unit.position target) - x (Unit.position unit) in
                  let dy := y (Unit.position target) - y (Unit.position unit) in
                  let distance := distanceOf dx dy in
                  if distance <=? Unit.range unit * 20 then
                    (* Attack every second *)
                    if F64.gtb (F64.Math_floor (gameTime e))
                               (F64.Math_floor (gameTime e - deltaTime))
                    then dealDamage e unit targetId target
                    else (e, Returns tt)
                  else
                    (* Move towards target to get in range *)
                    (modifyUnit unitId (advance deltaTime dx dy distance) e,
                     Returns tt)
            | Foreign | Primitive =>
                if negb (Unit.canAttackGround unit)
                then (modifyUnit unitId clearAttack e, Returns tt)
                else (e, Throws)
            end
          else (e, Returns tt)
      | None => (e, Returns tt)
      end
  end.

(** The body of the [forEach] of [updateUnits], for the unit object
    stored under [unitId]. *)
Definition updateUnit (deltaTime : float) (e : GameEngine) (unitId : string)
  : GameEngine * Result void :=
  match Obj.get unitId (units e) with
  | None => (e, Returns tt)
  | Some unit =>
      if Unit.isDead unit then (e, Returns tt)
      else
        let e := checkForAutoTarget e unit in
        let e := moveAlong deltaTime e unitId in
        handleCombat deltaTime e unitId
  end.

(** [forEach] with a callback that can throw: the exception ends the
    loop, and the call. *)
Fixpoint forEach {A : Type} (callback : GameEngine -> A -> GameEngine * Result void)
    (l : list A) (e : GameEngine) : GameEngine * Result void :=
  match l with
  | [] => (e, Returns tt)
  | a :: l' =>
      match callback e a with
      | (e', Returns _) => forEach callback l' e'
      | (e', Throws) => (e', Throws)
      end
  end.

(** [updateUnits(deltaTime)] *)
Definition updateUnits (deltaTime : float) (e : GameEngine)
  : GameEngine * Result void :=
  forEach (updateUnit deltaTime) (Obj.keys (units e)) e.

(** [updateResources(deltaTime)] *)
Definition respawn (deltaTime : float) (resource : Resource.t) : Resource.t :=
  if Resource.isCollected resource then
    let resource :=
      Resource.with_respawnTime (Resource.respawnTime resource - deltaTime) resource in
    if Resource.respawnTime resource <=? 0 then
      Resource.with_respawnTime RESOURCE_CONFIG.respawnTime
        (Resource.with_amount (RESOURCE_CONFIG.resourceAmount (Resource.type resource))
           (Resource.with_isCollected false resource))
    else resource
  else resource.

Definition updateResources (deltaTime : float) (e : GameEngine) : GameEngine :=
  with_resources
    (map (fun kv => (fst kv, respawn deltaTime (snd kv))) (resources e)) e.

(** [collectResources()] *)
Definition collectionRange : float := 30.

(** [player.units.find(...)]: a living soldier of the roster near the
    resource. *)
Definition nearbyUnit (e : GameEngine) (player : Player.t) (resource : Resource.t)
  : option Unit.t :=
  find (fun unit =>
          if Unit.isDead unit then false
          else if negb (UnitType_eqb (Unit.type unit) SOLDIER) then false
          else
            let dx := x (Unit.position unit) - x (Resource.position resource) in
            let dy := y (Unit.position unit) - y (Resource.position resource) in
            let distance := distanceOf dx dy in
            distance <? collectionRange)
       (rosterUnits e player).

(** The body of the inner [forEach], over the players. *)
Definition collectFor (resourceId : string) (e : GameEngine) (playerId : string)
  : GameEngine :=
  match Obj.get resourceId (resources e), Obj.get playerId (players e) with
  | Some resource, Some player =>
      match nearbyUnit e player resource with
      | Some _ =>
          (* Collect the resource *)
          let e :=
            modifyPlayer playerId
              (fun p => Player.with_resources
                          (Player.resources p + Resource.amount resource) p) e in
          modifyResource resourceId (Resource.with_isCollected true) e
      | None => e
      end
  | _, _ => e
  end.

(** The body of the outer [forEach], over the resources. *)
Definition collectResource (e : GameEngine) (resourceId : string) : GameEngine :=
  match Obj.get resourceId (resources e) with
  | Some resource =>
      if Resource.isCollected resource then e
      else fold_left (collectFor resourceId) (Obj.keys (players e)) e
  | None => e
  end.

Definition collectResources (e : GameEngine) : GameEngine :=
  fold_left collectResource (Obj.keys (resources e)) e.

(** What [update()] does before the three passes: the clock. *)
Definition advanceClock (e : GameEngine) (currentTime : float) : GameEngine :=
  {| state :=
       GameState.with_gameTime
         (gameTime e + (currentTime - lastUpdateTime e) / 1000) (state e);
     lastUpdateTime := currentTime;
     resourceSpots := resourceSpots e;
     prototypePath := prototypePath e |}.

(** The three passes.  An exception thrown in the unit pass leaves the
    call before the two resource passes. *)
Definition passes (deltaTime : float) (e : GameEngine) : GameEngine * Result void :=
  match updateUnits deltaTime e with
  | (e, Returns _) =>
      let e := updateResources deltaTime e in
      (collectResources e, Returns tt)
  | (e, Throws) => (e, Throws)
  end.

(** [update()], called when [Date.now()] is [currentTime]: the state
    the call leaves and how it ends. *)
Definition updateCall (e : GameEngine) (currentTime : float)
  : GameEngine * Result void :=
  let deltaTime := (currentTime - lastUpdateTime e) / 1000 in
  let e := advanceClock e currentTime in
  passes deltaTime e.

(** The state a call of [update()] leaves, whether it returns or
    throws. *)
Definition update (e : GameEngine) (currentTime : float) : GameEngine :=
  fst (updateCall e currentTime).

(** ** Worlds the engine can be in

    A step is one call of a public method, whether it returns or
    throws.  [uuidv4()] never returns the same id twice, so the unit
    ids handed to [createUnit] and [addPlayer] are new ones. *)

Inductive step : GameEngine -> GameEngine -> Prop :=
| step_addPlayer e name faction playerId rx ry u1 u2 u3 :
    Obj.get u1 (units e) = None ->
    Obj.get u2 (units e) = None ->
    Obj.get u3 (units e) = None ->
    u1 <> u2 -> u1 <> u3 -> u2 <> u3 ->
    step e (fst (addPlayer e name faction playerId rx ry u1 u2 u3))
| step_createUnit e playerId unitType position uuid :
    Obj.get uuid (units e) = None ->
    step e (fst (createUnit e playerId unitType position uuid))
| step_moveUnit e unitId targetPosition :
    step e (fst (moveUnit e unitId targetPosition))
| step_attackUnit e attackerId targetId :
    step e (fst (attackUnit e attackerId targetId))
| step_update e currentTime :
    step e (update e currentTime).

Inductive steps : GameEngine -> GameEngine -> Prop :=
| steps_refl e : steps e e
| steps_cons e e' e'' : steps e e' -> step e' e'' -> steps e e''.

Definition reachable (e : GameEngine) : Prop :=
  exists mapWidth mapHeight now random uuidv4,
    steps (newGameEngine mapWidth mapHeight now random uuidv4) e.

(** ** What a tick does to the world

    Every change [update()] makes is one of six mutations: a change to
    a living unit that leaves it alive, the death of a living unit
    together with its removal from its owner's roster, the advance of
    the clock, a change of the path [Object.prototype] holds, the
    respawn pass, and the payment of a resource node to a player. *)

Definition bothModes (u : Unit.t) : bool := Unit.isMoving u && Unit.isAttacking u.

(** Every unit is stored under its own id. *)
Definition keyed (e : GameEngine) : Prop :=
  forall k u, Obj.get k (units e) = Some u -> Unit.id u = k.

Record livingChange (u u' : Unit.t) : Prop := {
  lc_alive : Unit.isDead u = false;
  lc_alive' : Unit.isDead u' = false;
  lc_id : Unit.id u' = Unit.id u;
  lc_type : Unit.type u' = Unit.type u;
  lc_playerId : Unit.playerId u' = Unit.playerId u;
  lc_air : Unit.canAttackAir u' = Unit.canAttackAir u;
  lc_ground : Unit.canAttackGround u' = Unit.canAttackGround u;
  lc_health : Unit.health u' = Unit.health u \/ (Unit.health u' <=? 0) = false
}.

(** What [attackUnit] does to the attacker, what [moveUnit] does to its
    unit, what death does to the target, and what it does to the roster
    of the target's owner. *)
Definition engage (targetId : string) (u : Unit.t) : Unit.t :=
  Unit.with_isAttacking true (Unit.with_targetId (Some targetId) u).

Definition ordered (targetPosition : Position) (u : Unit.t) : Unit.t :=
  Unit.with_targetId None
    (Unit.with_isAttacking false
       (Unit.with_isMoving true (Unit.with_path (Some [targetPosition]) u))).

Definition die (u : Unit.t) : Unit.t := Unit.with_isDead true (Unit.with_health 0 u).

Definition strike (ident : string) (p : Player.t) : Player.t :=
  Player.with_units
    (filter (fun u => negb (String.eqb u ident)) (Player.units p)) p.

(** What [attackUnit] asks of the target of a living attacker: a living
    unit of another player, of a category the attacker can engage; or
    an object that is no entity, which passes for a ground unit. *)
Definition engageable (e : GameEngine) (attacker : Unit.t) (targetId : string)
  : Prop :=
  match read e (units e) targetId with
  | Own target =>
      Unit.isDead target = false /\
      Unit.playerId attacker <> Unit.playerId target /\
      canUnitAttackTarget attacker target = true
  | Foreign | Primitive => Unit.canAttackGround attacker = true
  | Falsy => False
  end.

Inductive mutation : GameEngine -> GameEngine -> Prop :=
| mut_unit e k f :
    (forall u, Obj.get k (units e) = Some u ->
               livingChange u (f u) /\
               (keyed e -> bothModes u = false -> bothModes (f u) = false)) ->
    mutation e (modifyUnit k f e)
| mut_kill e k u :
    Obj.get k (units e) = Some u ->
    Unit.isDead u = false ->
    mutation e (modifyPlayer (Unit.playerId u) (strike (Unit.id u))
                  (modifyUnit k die e))
| mut_clock e g t :
    mutation e {| state := GameState.with_gameTime g (state e);
                  lastUpdateTime := t;
                  resourceSpots := resourceSpots e;
                  prototypePath := prototypePath e |}
| mut_prototype e path :
    mutation e (with_prototypePath path e)
| mut_respawn e deltaTime :
    mutation e (updateResources deltaTime e)
| mut_collect e playerId resourceId r :
    Obj.get resourceId (resources e) = Some r ->
    mutation e
      (modifyResource resourceId (Resource.with_isCollected true)
         (modifyPlayer playerId
            (fun p => Player.with_resources
                        (Player.resources p + Resource.amount r) p) e)).

Inductive mutations : GameEngine -> GameEngine -> Prop :=
| muts_refl e : mutations e e
| muts_one e e' : mutation e e' -> mutations e e'
| muts_trans e e' e'' : mutations e e' -> mutations e' e'' -> mutations e e''.

(** ** Invariants of the worlds the engine can be in *)

Record sound (e : GameEngine) : Prop := {
  sound_keyed : keyed e;
  sound_stats : forall k u,
      Obj.get k (units e) = Some u ->
      Unit.canAttackAir u = stat_canAttackAir (UNIT_STATS (Unit.type u)) /\
      Unit.canAttackGround u = stat_canAttackGround (UNIT_STATS (Unit.type u));
  sound_health : forall k u,
      Obj.get k (units e) = Some u -> (Unit.health u <? 0) = false;
  sound_living : forall k u,
      Obj.get k (units e) = Some u ->
      Unit.isDead u = false -> (Unit.health u <=? 0) = false;
  sound_balance : forall k p,
      Obj.get k (players e) = Some p -> (Player.resources p <? 0) = false;
  sound_amount : forall k r,
      Obj.get k (resources e) = Some r -> (Resource.amount r <? 0) = false
}.

(** A dead unit's record is the same in [e'] as in [e]. *)
Definition frozen (e e' : GameEngine) : Prop :=
  forall k u,
    Obj.get k (units e) = Some u -> Unit.isDead u = true ->
    Obj.get k (units e') = Some u.

(** What becomes of the units of [e] in a later world [e']: every unit
    is still stored under its id; a dead one has the same record; one
    that died in between has health 0 and is on no roster of its
    owner; and a roster never takes in a unit that existed before. *)
Record outlives (e e' : GameEngine) : Prop := {
  out_units : forall k u,
      Obj.get k (units e) = Some u ->
      exists u',
        Obj.get k (units e') = Some u' /\
        Unit.playerId u' = Unit.playerId u /\
        (Unit.isDead u = true -> u' = u) /\
        (Unit.isDead u = false -> Unit.isDead u' = true ->
         Unit.health u' = 0 /\
         forall p, Obj.get (Unit.playerId u) (players e') = Some p ->
                   ~ In k (Player.units p));
  out_rosters : forall playerId p' k,
      Obj.get playerId (players e') = Some p' ->
      In k (Player.units p') ->
      Obj.get k (units e) <> None ->
      exists p, Obj.get playerId (players e) = Some p /\ In k (Player.units p)
}.

(** ** Example worlds

    A 900 x 600 map created at [Date.now() = 1700000000000] with every
    resource node at (450, 300), then two players admitted: A with its
    base at (100, 100) and B with its base at (187.5, 100).  A's second
    soldier and B's first one stand 47.5 apart, within attack range;
    every other pair of enemies is out of detection range. *)

Definition exampleId (prefix : string) (i : nat) : string :=
  prefix ++ String (Ascii.ascii_of_nat (65 + i)) EmptyString.

Definition T0 : float := 1700000000000.

Definition world0 : GameEngine :=
  newGameEngine 900 600 T0 (fun _ => 0.5) (exampleId "resource-").

Definition worldA : GameEngine :=
  fst (addPlayer world0 "Player" USA "player-A" 0 0 "a1" "a2" "a3").

Definition worldAB : GameEngine :=
  fst (addPlayer worldA "AI 1" CHINA "player-B" 0.125 0 "b1" "b2" "b3").

(** [worldAB] with [a2] ordered to attack [b1]. *)
Definition worldDuel : GameEngine := fst (attackUnit worldAB "a2" "b1").

(** The calls of [update()] at the given numbers of milliseconds after
    [T0]. *)
Definition updatesAt (e : GameEngine) (ms : list Z) : GameEngine :=
  fold_left (fun e t => update e (T0 + F64.of_Z t)) ms e.

(** The same map with its first resource node at (121.875, 100), and
    B's base at (143.75, 100): A's second soldier, at (120, 80), and B's
    first one, at (123.75, 80), both stand about 20.1 from that node. *)
Definition worldShared : GameEngine :=
  let e :=
    newGameEngine 900 600 T0
      (fun i => match i with 0%nat => 0.03125 | 1%nat => 0 | _ => 0.5 end)
      (exampleId "resource-") in
  let e := fst (addPlayer e "Player" USA "player-A" 0 0 "a1" "a2" "a3") in
  fst (addPlayer e "AI 1" CHINA "player-B" 0.0625 0 "b1" "b2" "b3").

(** Twenty-two frames over 2300 ms: eight of 125 ms, one of 1 ms, one
    of 99 ms and twelve of 100 ms. *)
Definition unevenFrames : list Z :=
  [125; 250; 375; 500; 625; 750; 875; 1000; 1001; 1100; 1200; 1300; 1400;
   1500; 1600; 1700; 1800; 1900; 2000; 2100; 2200; 2300]%Z.

(** Twenty-four frames over 2300 ms: ten of 100 ms, one of 59 ms,
    twelve of 100 ms and one of 41 ms. *)
Definition shortFrames : list Z :=
  [100; 200; 300; 400; 500; 600; 700; 800; 900; 1000; 1059; 1159; 1259;
   1359; 1459; 1559; 1659; 1759; 1859; 1959; 2059; 2159; 2259; 2300]%Z.

(** Twenty-three frames of 100 ms. *)
Definition evenFrames : list Z :=
  map (fun i => (100 * Z.of_nat i)%Z) (seq 1 23).

Definition balanceOf (playerId : string) (e : GameEngine) : option float :=
  option_map Player.resources (Obj.get playerId (players e)).
Definition healthOf (unitId : string) (e : GameEngine) : option float :=
  option_map Unit.health (Obj.get unitId (units e)).

(** [worldAB] after fourteen frames of one second: [a2] and [b1] have
    hit each other thirteen times, and the fourteenth hit of [a2], which
    is updated first, kills [b1]. *)
Definition worldFallen : GameEngine :=
  updatesAt worldAB (map (fun i => (1000 * Z.of_nat i)%Z) (seq 1 14)).

(** [worldAB] after thirteen frames of one second, with the clock
    advanced for the fourteenth: the world in which the combat block of
    [a2] runs in that frame, [b1] having 2.5 of its health left. *)
Definition worldFinalBlow : GameEngine :=
  advanceClock
    (updatesAt worldAB (map (fun i => (1000 * Z.of_nat i)%Z) (seq 1 13)))
    (T0 + 14000).

(** A map with eight resource nodes next to A's base at (100, 100) and
    seven next to B's base at (450, 300).  The first call of [update()]
    pays them out, and then A can afford a tank and B a helicopter. *)
Definition worldPoor : GameEngine :=
  let e :=
    newGameEngine 900 600 T0 (fun i => if Nat.ltb i 16 then 0 else 0.5)
      (exampleId "resource-") in
  let e := fst (addPlayer e "Player" USA "player-A" 0 0 "a1" "a2" "a3") in
  fst (addPlayer e "AI 1" CHINA "player-B" 0.5 0.5 "b1" "b2" "b3").

Definition worldRich : GameEngine := update worldPoor (T0 + 16).

Definition worldTank : GameEngine :=
  fst (createUnit worldRich "player-A" TANK {| x := 100; y := 120 |} "a-tank").

Definition worldArmed : GameEngine :=
  fst (createUnit worldTank "player-B" HELICOPTER {| x := 450; y := 320 |} "b-heli").

(** In [worldAB], soldier [a1] is sent to (300, 300) and then ordered
    to attack [b1]. *)
Definition worldMoving : GameEngine :=
  fst (moveUnit worldAB "a1" {| x := 300; y := 300 |}).

Definition worldBoth : GameEngine := fst (attackUnit worldMoving "a1" "b1").

(** In [worldAB], soldier [a1] is ordered to attack ["constructor"],
    which names no unit but a member of [Object.prototype]. *)
Definition worldForeign : GameEngine := fst (attackUnit worldAB "a1" "constructor").

(** In [worldAB], a move order to (300, 300) is given to ["__proto__"],
    which names no unit but [Object.prototype] itself; and then soldier
    [a1] is ordered to attack ["path"], which from then on names the
    array the move order has left there. *)
Definition worldProto : GameEngine :=
  fst (moveUnit worldAB "__proto__" {| x := 300; y := 300 |}).

Definition worldProtoRaid : GameEngine := fst (attackUnit worldProto "a1" "path").

(** In [worldRich] player A, who holds 1685 and has two units, buys two
    more soldiers, for 180 and for 195. *)
Definition worldFour : GameEngine :=
  let e :=
    fst (createUnit worldRich "player-A" SOLDIER {| x := 100; y := 120 |} "a4") in
  fst (createUnit e "player-A" SOLDIER {| x := 120; y := 120 |} "a5").

(** A row of purchases by one player, each unit at the same place. *)
Definition purchases (e : GameEngine) (playerId : string) (position : Position)
    (orders : list (UnitType * string)) : GameEngine :=
  fold_left
    (fun e order => fst (createUnit e playerId (fst order) position (snd order)))
    orders e.

(** Whether each id of the row is new when its purchase is made. *)
Fixpoint newAlong (e : GameEngine) (playerId : string) (position : Position)
    (orders : list (UnitType * string)) : bool :=
  match orders with
  | [] => true
  | order :: orders' =>
      match Obj.get (snd order) (units e) with
      | None =>
          newAlong (fst (createUnit e playerId (fst order) position (snd order)))
            playerId position orders'
      | Some _ => false
      end
  end.

(** A map with all fifteen nodes at (100, 100), next to the base of its
    one player: a call of [update()] made when the nodes are there pays
    the player 2250.  Eleven such calls, thirty seconds apart, bring the
    balance to 25235.  Then the player buys thirty-four units. *)
Definition worldMine : GameEngine :=
  let e := newGameEngine 900 600 T0 (fun _ => 0) (exampleId "resource-") in
  fst (addPlayer e "Player" USA "player-A" 0 0 "a1" "a2" "a3").

Definition worldWealthy : GameEngine :=
  updatesAt worldMine (map (fun i => (16 + 30000 * Z.of_nat i)%Z) (seq 0 11)).

Definition shoppingList : list (UnitType * string) :=
  combine
    [SOLDIER; SOLDIER; HELICOPTER; TANK; HELICOPTER; SOLDIER; SOLDIER; SOLDIER;
     SOLDIER; SOLDIER; SOLDIER; HELICOPTER; SOLDIER; SOLDIER; SOLDIER; SOLDIER;
     HELICOPTER; SOLDIER; SOLDIER; SOLDIER; SOLDIER; SOLDIER; SOLDIER; SOLDIER;
     SOLDIER; SOLDIER; SOLDIER; SOLDIER; SOLDIER; TANK; SOLDIER; SOLDIER;
     SOLDIER; TANK]
    (map (exampleId "unit-") (seq 0 34)).

Definition worldSlip : GameEngine :=
  purchases worldWealthy "player-A" {| x := 100; y := 140 |} shoppingList.

(** ** The mode flags *)

(** The invariant of the data model: a living unit is not both moving
    and attacking, and a dead unit is neither. *)
Definition modesConsistent (u : Unit.t) : bool :=
  if Unit.isDead u then negb (Unit.isMoving u) && negb (Unit.isAttacking u)
  else negb (Unit.isMoving u && Unit.isAttacking u).

(** ** What a tick keeps

    The fields of a unit, a player and a resource node that no tick
    writes, and the directions in which it moves the others. *)

Record unitKept (u u' : Unit.t) : Prop := {
  uk_id : Unit.id u' = Unit.id u;
  uk_type : Unit.type u' = Unit.type u;
  uk_playerId : Unit.playerId u' = Unit.playerId u;
  uk_maxHealth : Unit.maxHealth u' = Unit.maxHealth u;
  uk_attack : Unit.attack u' = Unit.attack u;
  uk_defense : Unit.defense u' = Unit.defense u;
  uk_range : Unit.range u' = Unit.range u;
  uk_speed : Unit.speed u' = Unit.speed u;
  uk_air : Unit.canAttackAir u' = Unit.canAttackAir u;
  uk_ground : Unit.canAttackGround u' = Unit.canAttackGround u;
  (* a dead unit stays dead, a move is never started, waypoints are
     only consumed *)
  uk_dead : Unit.isDead u = true -> Unit.isDead u' = true;
  uk_moving : Unit.isMoving u' = true -> Unit.isMoving u = true;
  uk_path : exists n,
      Unit.path u' = option_map (skipn n) (Unit.path u)
}.

Record playerKept (p p' : Player.t) : Prop := {
  pk_id : Player.id p' = Player.id p;
  pk_name : Player.name p' = Player.name p;
  pk_faction : Player.faction p' = Player.faction p;
  pk_basePosition : Player.basePosition p' = Player.basePosition p;
  pk_color : Player.color p' = Player.color p;
  (* a roster only loses members *)
  pk_units : exists keep, Player.units p' = filter keep (Player.units p)
}.

Record resourceKept (r r' : Resource.t) : Prop := {
  rk_id : Resource.id r' = Resource.id r;
  rk_type : Resource.type r' = Resource.type r;
  rk_position : Resource.position r' = Resource.position r
}.

Record tickKeeps (e e' : GameEngine) : Prop := {
  tk_unit_keys : Obj.keys (units e') = Obj.keys (units e);
  tk_player_keys : Obj.keys (players e') = Obj.keys (players e);
  tk_resource_keys : Obj.keys (resources e') = Obj.keys (resources e);
  tk_mapSize : GameState.mapSize (state e') = GameState.mapSize (state e);
  tk_resourceSpots : resourceSpots e' = resourceSpots e;
  tk_units : forall k u,
      Obj.get k (units e) = Some u ->
      exists u', Obj.get k (units e') = Some u' /\ unitKept u u';
  tk_players : forall k p,
      Obj.get k (players e) = Some p ->
      exists p', Obj.get k (players e') = Some p' /\ playerKept p p';
  tk_resources : forall k r,
      Obj.get k (resources e) = Some r ->
      exists r', Obj.get k (resources e') = Some r' /\ resourceKept r r'
}.

(** The price [createUnit] computes for a unit of type [unitType] when
    the buyer's roster has [unitCount] entries, and the price in exact
    arithmetic, [floor (base * (10 + unitCount) / 10)]. *)
Definition unitCostOf (unitType : UnitType) (unitCount : nat) : float :=
  let scalingFactor := 1 + F64.of_nat unitCount * 0.1 in
  F64.Math_floor (BASE_UNIT_COSTS unitType * scalingFactor).

Definition exactCostOf (unitType : UnitType) (unitCount : nat) : Z :=
  let base := match unitType with
              | SOLDIER => 150 | TANK => 450 | HELICOPTER => 700
              end%Z in
  (base * (10 + Z.of_nat unitCount) / 10)%Z.

(** The unit [createUnit] builds. *)
Definition newUnit (unitId : string) (unitType : UnitType) (position : Position)
    (playerId : string) : Unit.t :=
  {| Unit.id := unitId;
     Unit.type := unitType;
     Unit.position := position;
     Unit.health := stat_health (UNIT_STATS unitType);
     Unit.maxHealth := stat_maxHealth (UNIT_STATS unitType);
     Unit.attack := stat_attack (UNIT_STATS unitType);
     Unit.defense := stat_defense (UNIT_STATS unitType);
     Unit.range := stat_range (UNIT_STATS unitType);
     Unit.speed := stat_speed (UNIT_STATS unitType);
     Unit.playerId := playerId;
     Unit.targetId := None;
     Unit.path := None;
     Unit.isDead := false;
     Unit.isMoving := false;
     Unit.isAttacking := false;
     Unit.canAttackAir := stat_canAttackAir (UNIT_STATS unitType);
     Unit.canAttackGround := stat_canAttackGround (UNIT_STATS unitType) |}.

(** ** The shape of the worlds the engine can be in

    A unit is stored under its id and carries the stats of its type;
    its owner is a player of the world; it is flagged as attacking
    exactly when it has a target, and the target is a unit of another
    player that it is able to attack, or else one of the names that
    can read as an object that is no unit, the unit being able to
    attack ground; it is flagged as moving exactly when its path holds
    a waypoint, and a path holds at most one. *)
Definition foreignName (k : string) : bool :=
  existsb (String.eqb k) prototypeNames
  || String.eqb k "path" || String.eqb k "isMoving".

Record unitOk (e : GameEngine) (k : string) (u : Unit.t) : Prop := {
  uo_id : Unit.id u = k;
  uo_maxHealth : Unit.maxHealth u = stat_maxHealth (UNIT_STATS (Unit.type u));
  uo_attack : Unit.attack u = stat_attack (UNIT_STATS (Unit.type u));
  uo_defense : Unit.defense u = stat_defense (UNIT_STATS (Unit.type u));
  uo_range : Unit.range u = stat_range (UNIT_STATS (Unit.type u));
  uo_speed : Unit.speed u = stat_speed (UNIT_STATS (Unit.type u));
  uo_air : Unit.canAttackAir u = stat_canAttackAir (UNIT_STATS (Unit.type u));
  uo_ground : Unit.canAttackGround u = stat_canAttackGround (UNIT_STATS (Unit.type u));
  uo_owner : Obj.get (Unit.playerId u) (players e) <> None;
  uo_attacking : Unit.isAttacking u = true <-> Unit.targetId u <> None;
  uo_target : forall targetId,
      Unit.targetId u = Some targetId ->
      (exists target,
          Obj.get targetId (units e) = Some target /\
          Unit.playerId target <> Unit.playerId u /\
          canUnitAttackTarget u target = true) \/
      (Unit.canAttackGround u = true /\ foreignName targetId = true);
  uo_moving : Unit.isMoving u = true <-> exists p, Unit.path u = Some [p];
  uo_path : Unit.path u = None \/ Unit.path u = Some [] \/
            exists p, Unit.path u = Some [p]
}.

(** A player is stored under its id; its roster names no unit twice,
    and names only living units of its own. *)
Record playerOk (e : GameEngine) (k : string) (p : Player.t) : Prop := {
  po_id : Player.id p = k;
  po_nodup : NoDup (Player.units p);
  po_roster : forall unitId,
      In unitId (Player.units p) ->
      exists unit,
        Obj.get unitId (units e) = Some unit /\
        Unit.isDead unit = false /\ Unit.playerId unit = k
}.

(** A node is stored under its id, holds 150, sits on one of the spots
    drawn at construction, and has the full respawn time ahead of it
    whenever it has not been collected. *)
Record resourceOk (e : GameEngine) (k : string) (r : Resource.t) : Prop := {
  ro_id : Resource.id r = k;
  ro_amount : Resource.amount r = 150;
  ro_position : In (Resource.position r) (resourceSpots e);
  ro_respawnTime : Resource.isCollected r = false -> Resource.respawnTime r = 30
}.

Record wellFormed (e : GameEngine) : Prop := {
  wf_units : forall k u, Obj.get k (units e) = Some u -> unitOk e k u;
  wf_players : forall k p, Obj.get k (players e) = Some p -> playerOk e k p;
  wf_resources : forall k r, Obj.get k (resources e) = Some r -> resourceOk e k r;
  wf_spots : List.length (resourceSpots e) = 15%nat;
  wf_nodes : (List.length (Obj.keys (resources e)) <= 15)%nat
}.

(** In [worldArmed], B's helicopter is ordered to attack [a1], kills it
    within seven frames of one second, is ordered to attack [a2], and
    kills it too; it then turns on A's tank by itself.  Twenty-nine
    seconds in, player A has no unit left but the tank, which stands at
    (100, 120), 20 away from the eight nodes at (100, 100); they were
    collected in the first frame and are due to respawn in the next
    one. *)
Definition worldRaid : GameEngine :=
  updatesAt (fst (attackUnit worldArmed "b-heli" "a1"))
    (map (fun i => (16 + 1000 * Z.of_nat i)%Z) (seq 1 7)).

Definition worldBereft : GameEngine :=
  updatesAt (fst (attackUnit worldRaid "b-heli" "a2"))
    (map (fun i => (16 + 1000 * Z.of_nat i)%Z) (seq 8 22)).

(** No key occurs twice in the maps of units, players and resources. *)
Record distinctKeys (e : GameEngine) : Prop := {
  dk_units : NoDup (Obj.keys (units e));
  dk_players : NoDup (Obj.keys (players e));
  dk_resources : NoDup (Obj.keys (resources e))
}.

(** [checkForAutoTarget]: the distance from [unit] to [otherUnit], and
    whether the scan considers [otherUnit]: it is alive, belongs to
    another player, is of a category [unit] can attack, and is within
    detection range. *)
Definition distanceBetween (unit otherUnit : Unit.t) : float :=
  distanceOf (x (Unit.position otherUnit) - x (Unit.position unit))
             (y (Unit.position otherUnit) - y (Unit.position unit)).

Definition detectable (unit otherUnit : Unit.t) : bool :=
  negb (Unit.isDead otherUnit
        || String.eqb (Unit.playerId otherUnit) (Unit.playerId unit))
  && canUnitAttackTarget unit otherUnit
  && (distanceBetween unit otherUnit <=? Unit.range unit * 25).

(** [collectResources]: whether [player] has a living soldier within
    collection range of [resource], and the balance of [player] once
    every node that is not collected and is within its reach has paid
    out, in the order of the resource map. *)
Definition inReach (e : GameEngine) (player : Player.t) (resource : Resource.t) : bool :=
  match nearbyUnit e player resource with
  | Some _ => true
  | None => false
  end.

Definition gain (e : GameEngine) (player : Player.t) (balance : float)
    (resource : Resource.t) : float :=
  if negb (Resource.isCollected resource) && inReach e player resource
  then balance + Resource.amount resource
  else balance.

Definition incomeOf (e : GameEngine) (player : Player.t) : float :=
  fold_left (gain e player) (Obj.values (resources e)) (Player.resources player).

(** * Properties *)

(** ** Signs of binary64 sums and differences

    From the specification of the primitive operations
    ([FloatAxioms]): a difference [x - y] is not below zero unless
    [x < y], and a sum of two numbers not below zero is not below
    zero. *)

Module F64Facts.
Import F64.
Local Open Scope Z_scope.

Lemma round_aux_not_neg mx ex lx :
  SFltb (binary_round_aux prec emax false mx ex lx) SFzero = false.
Proof.
  unfold binary_round_aux.
  destruct (shr_fexp prec emax mx ex lx) as [mrs' e'].
  destruct (shr_fexp prec emax _ e' loc_Exact) as [mrs'' e''].
  destruct (shr_m mrs''); [reflexivity | | reflexivity].
  destruct (Z.leb e'' (emax - prec)); reflexivity.
Qed.

Lemma round_not_neg m e : SFltb (binary_round prec emax false m e) SFzero = false.
Proof.
  unfold binary_round.
  destruct (shl_align m e _) as [mz ez]. apply round_aux_not_neg.
Qed.

Lemma normalize_not_neg m e :
  0 <= m -> SFltb (binary_normalize prec emax m e false) SFzero = false.
Proof.
  intros Hm. destruct m as [|p|p]; simpl.
  - reflexivity.
  - apply round_not_neg.
  - lia.
Qed.

Lemma digits2_pos_bounds m :
  2 ^ (Zpos (digits2_pos m) - 1) <= Zpos m < 2 ^ Zpos (digits2_pos m).
Proof.
  induction m as [m IH|m IH|]; simpl digits2_pos.
  - rewrite Pos2Z.inj_succ.
    replace (Z.succ (Zpos (digits2_pos m)) - 1) with (Z.succ (Zpos (digits2_pos m) - 1)) by lia.
    rewrite !Z.pow_succ_r by lia. lia.
  - rewrite Pos2Z.inj_succ.
    replace (Z.succ (Zpos (digits2_pos m)) - 1) with (Z.succ (Zpos (digits2_pos m) - 1)) by lia.
    rewrite !Z.pow_succ_r by lia. lia.
  - simpl. lia.
Qed.

Lemma shl_align_fst mx ex ez :
  ez <= ex -> Zpos (fst (shl_align mx ex ez)) = Zpos mx * 2 ^ (ex - ez).
Proof.
  intros H. unfold shl_align.
  destruct (ez - ex) as [|d|d] eqn:E.
  - replace (ex - ez) with 0 by lia. simpl. lia.
  - lia.
  - simpl fst. replace (ex - ez) with (Zpos d) by lia.
    change (Pos.iter xO mx d) with (shift_pos d mx).
    rewrite shift_pos_correct, Z.pow_pos_fold. lia.
Qed.

Lemma valid_finite_bounds s m e :
  valid_binary (S754_finite s m e) = true ->
  -1074 <= e /\ Zpos m < 2 ^ 53 /\ (e = -1074 \/ 2 ^ 52 <= Zpos m).
Proof.
  unfold SpecFloat.valid_binary, bounded, canonical_mantissa, fexp, emin, prec, emax.
  intros H. apply andb_prop in H. destruct H as [H _].
  apply Z.eqb_eq in H.
  pose proof (digits2_pos_bounds m) as [Hlo Hhi].
  assert (Hd : Zpos (digits2_pos m) <= 53) by lia.
  split; [lia|]. split.
  - eapply Z.lt_le_trans; [exact Hhi|]. apply Z.pow_le_mono_r; lia.
  - destruct (Z.eq_dec e (-1074)) as [|Hne]; [now left|right].
    assert (Zpos (digits2_pos m) = 53) as Hd53 by lia.
    rewrite Hd53 in Hlo. exact Hlo.
Qed.

(** Exact comparison of the aligned mantissas of two valid floats. *)
Lemma aligned_ge mx ex my ey :
  valid_binary (S754_finite false mx ex) = true ->
  valid_binary (S754_finite false my ey) = true ->
  (ey < ex \/ (ex = ey /\ Zpos my <= Zpos mx)) ->
  Zpos (fst (shl_align my ey (Z.min ex ey))) <= Zpos (fst (shl_align mx ex (Z.min ex ey))).
Proof.
  intros Vx Vy H.
  apply valid_finite_bounds in Vx. apply valid_finite_bounds in Vy.
  rewrite !shl_align_fst by lia.
  destruct H as [H|[-> H]].
  - rewrite Z.min_r by lia. rewrite Z.sub_diag. simpl (2 ^ 0).
    assert (2 ^ 1 <= 2 ^ (ex - ey)) by (apply Z.pow_le_mono_r; lia).
    change (2 ^ 1) with 2 in *. change (2^53) with 9007199254740992 in *.
    change (2^52) with 4503599627370496 in *. nia.
  - rewrite Z.min_id, Z.sub_diag. lia.
Qed.

Lemma SFsub_not_neg x y :
  valid_binary x = true -> valid_binary y = true ->
  SFltb x y = false -> SFltb (SF64sub x y) SFzero = false.
Proof.
  intros Vx Vy Hlt.
  destruct x as [sx|sx| |sx mx ex], y as [sy|sy| |sy my ey];
    try reflexivity;
    try (destruct sx, sy; (reflexivity || discriminate)).
  unfold SF64sub, SFsub. apply normalize_not_neg.
  unfold SFltb, SFcompare in Hlt.
  destruct sx, sy; unfold cond_Zopp.
  - assert (Zpos (fst (shl_align mx ex (Z.min ex ey))) <= Zpos (fst (shl_align my ey (Z.min ex ey)))); [|lia].
      rewrite (Z.min_comm ex ey). apply aligned_ge; try assumption.
      destruct (Z.compare_spec ex ey) as [E|E|E]; try discriminate.
      * right. split; [congruence|].
        rewrite Pos.compare_cont_spec in Hlt. simpl in Hlt.
        destruct (Pos.compare_spec mx my); try discriminate; lia.
      * left; lia.
  - discriminate.
  - lia.
  - apply Z.le_0_sub. apply aligned_ge; try assumption.
      destruct (Z.compare_spec ex ey) as [E|E|E]; try discriminate.
      * right. split; [congruence|].
        rewrite Pos.compare_cont_spec in Hlt. simpl in Hlt.
        destruct (Pos.compare_spec mx my); try discriminate; lia.
      * left; lia.
Qed.

Lemma SFadd_not_neg x y :
  SFltb x SFzero = false -> SFltb y SFzero = false ->
  SFltb (SF64add x y) SFzero = false.
Proof.
  intros Hx Hy.
  destruct x as [sx|sx| |sx mx ex], y as [sy|sy| |sy my ey];
    try reflexivity; try assumption;
    try (destruct sx, sy; (reflexivity || discriminate)).
  destruct sx; [discriminate|]. destruct sy; [discriminate|].
  unfold SF64add, SFadd. apply normalize_not_neg. unfold cond_Zopp. lia.
Qed.

Local Open Scope float_scope.

(** [x - y] is not below zero whenever [x < y] is false. *)
Lemma sub_not_neg (x y : float) : (x <? y) = false -> (x - y <? 0) = false.
Proof.
  rewrite !FloatAxioms.ltb_spec, FloatAxioms.sub_spec. apply SFsub_not_neg; apply Prim2SF_valid.
Qed.

Lemma add_not_neg (x y : float) :
  (x <? 0) = false -> (y <? 0) = false -> (x + y <? 0) = false.
Proof.
  rewrite !FloatAxioms.ltb_spec, FloatAxioms.add_spec. apply SFadd_not_neg.
Qed.

Lemma ltb_leb (x y : float) : (x <? y) = true -> (x <=? y) = true.
Proof.
  rewrite FloatAxioms.ltb_spec, FloatAxioms.leb_spec. unfold SFltb, SFleb.
  destruct (SFcompare _ _) as [[]|]; congruence.
Qed.

Lemma leb_false_ltb (x y : float) : (x <=? y) = false -> (x <? y) = false.
Proof.
  intros H. destruct (x <? y) eqn:E; [|reflexivity].
  apply ltb_leb in E. congruence.
Qed.

End F64Facts.

(** ** Dictionaries *)

Module ObjFacts.
Section WithValue.
Context {V : Type}.
Implicit Types (o : Obj.t V) (k : string) (f : V -> V).

Lemma get_modify k k' f o :
  Obj.get k (Obj.modify k' f o) =
  if String.eqb k' k then option_map f (Obj.get k o) else Obj.get k o.
Proof.
  induction o as [|[k0 v0] o IH]; simpl.
  - now destruct (String.eqb k' k).
  - fold (Obj.modify k' f o).
    destruct (String.eqb_spec k0 k') as [->|N0]; simpl.
    + destruct (String.eqb_spec k' k) as [->|N1]; simpl; [reflexivity|exact IH].
    + destruct (String.eqb_spec k0 k) as [->|N1]; simpl; [|exact IH].
      destruct (String.eqb_spec k' k) as [->|N2]; [congruence|reflexivity].
Qed.

Lemma get_modify_same k f o :
  Obj.get k (Obj.modify k f o) = option_map f (Obj.get k o).
Proof. now rewrite get_modify, String.eqb_refl. Qed.

Lemma get_modify_other k k' f o :
  k' <> k -> Obj.get k (Obj.modify k' f o) = Obj.get k o.
Proof.
  intros H. rewrite get_modify.
  apply String.eqb_neq in H. now rewrite H.
Qed.

Lemma get_set k k' v o :
  Obj.get k (Obj.set k' v o) =
  if String.eqb k' k then Some v else Obj.get k o.
Proof.
  induction o as [|[k0 v0] o IH]; simpl.
  - destruct (String.eqb k' k); reflexivity.
  - destruct (String.eqb_spec k0 k') as [->|N0]; simpl.
    + destruct (String.eqb_spec k' k) as [->|N1]; reflexivity.
    + destruct (String.eqb_spec k0 k) as [->|N1]; simpl; [|exact IH].
      destruct (String.eqb_spec k' k) as [->|N2]; [congruence|reflexivity].
Qed.

Lemma keys_modify k f o : Obj.keys (Obj.modify k f o) = Obj.keys o.
Proof.
  unfold Obj.keys, Obj.modify. rewrite map_map. apply map_ext.
  intros [k0 v0]; simpl. now destruct (String.eqb k0 k).
Qed.

Lemma get_map_values (g : V -> V) k o :
  Obj.get k (map (fun kv => (fst kv, g (snd kv))) o) = option_map g (Obj.get k o).
Proof.
  induction o as [|[k0 v0] o IH]; simpl; [reflexivity|].
  destruct (String.eqb k0 k); [reflexivity|exact IH].
Qed.
End WithValue.
End ObjFacts.

(** ** Property reads *)

Section Reads.
Context {V : Type}.
Implicit Types (o : Obj.t V) (k : string).

Lemma inherited_not_own e k (v : V) : inherited e k <> Own v.
Proof.
  unfold inherited. destruct (existsb _ _); [discriminate|].
  destruct (prototypePath e); [|discriminate].
  destruct (String.eqb k "path"); [discriminate|].
  destruct (String.eqb k "isMoving"); discriminate.
Qed.

Lemma read_own e o k v : Obj.get k o = Some v -> read e o k = Own v.
Proof. intros H. unfold read. now rewrite H. Qed.

Lemma read_absent e o k : Obj.get k o = None -> read e o k = inherited e k.
Proof. intros H. unfold read. now rewrite H. Qed.

Lemma read_Own e o k v : read e o k = Own v -> Obj.get k o = Some v.
Proof.
  unfold read. destruct (Obj.get k o) as [v'|]; [now intros [= ->]|].
  intros H. now apply inherited_not_own in H.
Qed.


Lemma read_cases e o k :
  (exists v, Obj.get k o = Some v /\ read e o k = Own v) \/
  (Obj.get k o = None /\
   (read e o k = Foreign \/ read e o k = Primitive \/ read e o k = Falsy)).
Proof.
  destruct (Obj.get k o) as [v|] eqn:E.
  - left. exists v. split; [reflexivity|now apply read_own].
  - right. split; [reflexivity|].
    destruct (read e o k) as [v| | |] eqn:R; auto.
    apply read_Own in R. congruence.
Qed.

Lemma modify_modify k (f g : V -> V) o :
  Obj.modify k f (Obj.modify k g o) = Obj.modify k (fun v => f (g v)) o.
Proof.
  unfold Obj.modify. rewrite map_map. apply map_ext.
  intros [k0 v0]. simpl. destruct (String.eqb k0 k) eqn:E; simpl.
  - now rewrite E.
  - now rewrite E.
Qed.

Lemma modify_absent k (f : V -> V) o :
  Obj.get k o = None -> Obj.modify k f o = o.
Proof.
  induction o as [|[k0 v0] o IH]; simpl; [reflexivity|].
  destruct (String.eqb k0 k); [discriminate|].
  intros H. f_equal. now apply IH.
Qed.
End Reads.

(** What a read depends on: the dictionary and whether
    [Object.prototype] has taken a move order. *)
Lemma read_ext {V} (e e' : GameEngine) (o o' : Obj.t V) (k : string) :
  Obj.get k o' = Obj.get k o ->
  (prototypePath e' = None <-> prototypePath e = None) ->
  read e' o' k = read e o k.
Proof.
  intros G P. unfold read. rewrite G. destruct (Obj.get k o); [reflexivity|].
  unfold inherited. destruct (existsb _ _); [reflexivity|].
  destruct (prototypePath e), (prototypePath e'); try reflexivity.
  - destruct P as [P _]. now discriminate P.
  - destruct P as [_ P]. now discriminate P.
Qed.

Lemma modifyPlayer_absent e k f :
  Obj.get k (players e) = None -> modifyPlayer k f e = e.
Proof.
  intros H. unfold modifyPlayer, with_players. rewrite modify_absent by exact H.
  destruct e as [[ps us rs g m] l sp pp]. reflexivity.
Qed.

(** ** Unit creation *)

Section CreateUnit.
Variables (e : GameEngine) (playerId : string) (unitType : UnitType)
          (position : Position) (uuid : string).

(** The ways [createUnit] ends without a purchase: the id names
    nothing, it names an object that is no player, or the balance is
    below the price. *)
Lemma createUnit_unknown_player :
  read e (players e) playerId = Falsy ->
  createUnit e playerId unitType position uuid = (e, Returns None).
Proof. intros H. unfold createUnit. now rewrite H. Qed.

Lemma createUnit_no_player :
  read e (players e) playerId = Foreign \/ read e (players e) playerId = Primitive ->
  createUnit e playerId unitType position uuid = (e, Throws).
Proof. intros [H | H]; unfold createUnit; now rewrite H. Qed.

Lemma createUnit_insufficient player :
  Obj.get playerId (players e) = Some player ->
  (Player.resources player <?
     F64.Math_floor (BASE_UNIT_COSTS unitType *
                     (1 + F64.of_nat (List.length (Player.units player)) * 0.1)))
    = true ->
  createUnit e playerId unitType position uuid = (e, Returns None).
Proof.
  intros H L. unfold createUnit. rewrite (read_own _ _ _ _ H). cbv zeta.
  now rewrite L.
Qed.

(** A purchase that goes through: the id returned, the buyer's record
    afterwards, and the unit map afterwards. *)
Lemma createUnit_sufficient player :
  Obj.get playerId (players e) = Some player ->
  let price :=
    F64.Math_floor (BASE_UNIT_COSTS unitType *
                    (1 + F64.of_nat (List.length (Player.units player)) * 0.1)) in
  (Player.resources player <? price) = false ->
  let e' := fst (createUnit e playerId unitType position uuid) in
  snd (createUnit e playerId unitType position uuid) = Returns (Some uuid) /\
  Obj.get playerId (players e') =
    Some (Player.with_units (Player.units player ++ [uuid])
            (Player.with_resources (Player.resources player - price) player)) /\
  (forall k, k <> playerId -> Obj.get k (players e') = Obj.get k (players e)) /\
  (forall k, k <> uuid -> Obj.get k (units e') = Obj.get k (units e)) /\
  (exists unit,
      Obj.get uuid (units e') = Some unit /\
      Unit.id unit = uuid /\ Unit.type unit = unitType /\
      Unit.playerId unit = playerId /\
      Unit.health unit = stat_health (UNIT_STATS unitType) /\
      Unit.canAttackAir unit = stat_canAttackAir (UNIT_STATS unitType) /\
      Unit.canAttackGround unit = stat_canAttackGround (UNIT_STATS unitType) /\
      Unit.isDead unit = false /\ Unit.isMoving unit = false /\
      Unit.isAttacking unit = false) /\
  resources e' = resources e /\ gameTime e' = gameTime e.
Proof.
  intros H price L e'. subst e'. unfold createUnit.
  rewrite (read_own _ _ _ _ H). cbv zeta.
  fold price. rewrite L.
  unfold modifyPlayer, with_units, with_players, players, units; simpl.
  split; [reflexivity|].
  rewrite !ObjFacts.get_modify_same. fold (players e). rewrite H.
  split; [reflexivity|].
  split; [intros k Hk; now rewrite !ObjFacts.get_modify_other by congruence|].
  split.
  { intros k Hk. rewrite ObjFacts.get_set.
    destruct (String.eqb_spec uuid k); [congruence|reflexivity]. }
  split; [|split; reflexivity].
  eexists. rewrite ObjFacts.get_set, String.eqb_refl.
  split; [reflexivity|]. simpl. repeat split.
Qed.

(** Either the engine is left as it was, or the buyer is a player who
    can pay. *)
Lemma createUnit_cases :
  (fst (createUnit e playerId unitType position uuid) = e /\
   snd (createUnit e playerId unitType position uuid) <> Returns (Some uuid)) \/
  exists player,
    Obj.get playerId (players e) = Some player /\
    (Player.resources player <?
       F64.Math_floor (BASE_UNIT_COSTS unitType *
                       (1 + F64.of_nat (List.length (Player.units player)) * 0.1)))
      = false.
Proof.
  destruct (read_cases e (players e) playerId)
    as [(player & H & _) | (_ & [R | [R | R]])].
  - destruct (Player.resources player <?
                F64.Math_floor (BASE_UNIT_COSTS unitType *
                  (1 + F64.of_nat (List.length (Player.units player)) * 0.1))) eqn:L.
    + left. rewrite (createUnit_insufficient player H L). split; [reflexivity|].
      discriminate.
    + right. exists player. now split.
  - left. rewrite createUnit_no_player by auto. split; [reflexivity|discriminate].
  - left. rewrite createUnit_no_player by auto. split; [reflexivity|discriminate].
  - left. rewrite createUnit_unknown_player by auto.
    split; [reflexivity|discriminate].
Qed.
End CreateUnit.

(** ** Player admission *)

(** C3: the roster [addPlayer] leaves the new player with.  The two
    soldiers cost 150 and [Math.floor(150 * 1.1) = 165]; the tank would
    cost [Math.floor(450 * 1.2) = 540], more than the 485 left of the
    800, and [createUnit] refuses it: the roster has two units, not
    three. *)
Theorem addPlayer_roster_has_two_soldiers
    (e : GameEngine) (name : string) (faction : FactionType)
    (playerId : string) (rx ry : float) (u1 u2 u3 : string) :
  let e' := fst (addPlayer e name faction playerId rx ry u1 u2 u3) in
  exists player,
    Obj.get playerId (players e') = Some player /\
    Player.units player = [u1; u2] /\
    List.length (Player.units player) = 2%nat /\
    Player.resources player = 485 /\
    (Player.resources player <? F64.Math_floor (BASE_UNIT_COSTS TANK * (1 + 2 * 0.1)))
      = true.
Proof.
  unfold addPlayer. destruct (GameState.mapSize (state e)) as [width height].
  cbv zeta.
  set (base := {| x := rx * (width - 200) + 100; y := ry * (height - 200) + 100 |}).
  set (player0 := Player.mk playerId name faction 800 [] base _).
  set (e0 := with_players (Obj.set playerId player0 (players e)) e).
  assert (H0 : Obj.get playerId (players e0) = Some player0).
  { unfold e0, with_players, players. simpl.
    now rewrite ObjFacts.get_set, String.eqb_refl. }
  destruct (createUnit_sufficient e0 playerId SOLDIER
              {| x := x base - 20; y := y base - 20 |} u1 player0 H0 eq_refl)
    as (_ & H1 & _).
  set (e1 := fst (createUnit e0 playerId SOLDIER _ u1)) in *.
  destruct (createUnit_sufficient e1 playerId SOLDIER
              {| x := x base + 20; y := y base - 20 |} u2 _ H1 eq_refl)
    as (_ & H2 & _).
  set (e2 := fst (createUnit e1 playerId SOLDIER _ u2)) in *.
  rewrite (createUnit_insufficient e2 playerId TANK
             {| x := x base; y := y base + 20 |} u3 _ H2 eq_refl).
  simpl fst. eexists. split; [exact H2|].
  repeat split.
Qed.

(** ** Resource collection *)

(** C1: one call of [update()] on [worldShared].  The node
    [resource-A] is not collected and holds 150; players A and B hold
    485 each and each has a living soldier within the collection range
    of the node.  After the call both balances are 635: the inner loop
    over the players does not stop at the first match, and the one node
    is paid out twice. *)
Theorem collectResources_credits_both_players :
  option_map Resource.isCollected (Obj.get "resource-A" (resources worldShared))
    = Some false /\
  option_map Resource.amount (Obj.get "resource-A" (resources worldShared))
    = Some 150 /\
  balanceOf "player-A" worldShared = Some 485 /\
  balanceOf "player-B" worldShared = Some 485 /\
  let e' := update worldShared (T0 + 16) in
  option_map Resource.isCollected (Obj.get "resource-A" (resources e'))
    = Some true /\
  balanceOf "player-A" e' = Some (485 + 150) /\
  balanceOf "player-B" e' = Some (485 + 150).
Proof. vm_compute. repeat split. Qed.

(** ** Attack rate *)

(** C6: in [worldDuel], at game time 0, soldier [a2] is attacking
    soldier [b1], 47.5 away, and stays in range of it; a hit takes 7.5
    off the 100 health of [b1].  Over the even frames [b1] is hit
    twice.  Over the uneven ones, which also span 2300 ms, it is hit
    three times: the eighth frame ends at game time 1 exactly and hits;
    the ninth, 1 ms long, ends at 1.001, and [1.001 - 0.001] rounds to
    0.9999999999999999, whose floor is 0, so the test
    [Math.floor(gameTime) > Math.floor(gameTime - deltaTime)] holds
    again; the third hit is at game time 2.  Over the short ones it is
    hit once: ten frames of 100 ms add up to 0.9999999999999999, the
    frame of 59 ms ends at 1.059, and [1.059 - 0.059] rounds to 1, so
    the test fails on the frame that crosses game time 1. *)
Theorem damage_count_depends_on_frame_split :
  gameTime worldDuel = 0 /\
  option_map Unit.isAttacking (Obj.get "a2" (units worldDuel)) = Some true /\
  option_map Unit.targetId (Obj.get "a2" (units worldDuel)) = Some (Some "b1") /\
  healthOf "b1" worldDuel = Some 100 /\
  healthOf "b1" (updatesAt worldDuel evenFrames) = Some (100 - 7.5 - 7.5) /\
  gameTime (updatesAt worldDuel (firstn 8 unevenFrames)) = 1 /\
  healthOf "b1" (updatesAt worldDuel (firstn 8 unevenFrames)) = Some (100 - 7.5) /\
  gameTime (updatesAt worldDuel (firstn 9 unevenFrames)) = 1.001 /\
  F64.Math_floor (1.001 - 0.001) = 0 /\
  healthOf "b1" (updatesAt worldDuel (firstn 9 unevenFrames))
    = Some (100 - 7.5 - 7.5) /\
  healthOf "b1" (updatesAt worldDuel unevenFrames)
    = Some (100 - 7.5 - 7.5 - 7.5) /\
  option_map Unit.targetId (Obj.get "a2" (units (updatesAt worldDuel unevenFrames)))
    = Some (Some "b1") /\
  gameTime (updatesAt worldDuel (firstn 10 shortFrames)) = 0.9999999999999999 /\
  healthOf "b1" (updatesAt worldDuel (firstn 10 shortFrames)) = Some 100 /\
  gameTime (updatesAt worldDuel (firstn 11 shortFrames)) = 1.059 /\
  F64.Math_floor (1.059 - 0.059) = 1 /\
  healthOf "b1" (updatesAt worldDuel (firstn 11 shortFrames)) = Some 100 /\
  healthOf "b1" (updatesAt worldDuel shortFrames) = Some (100 - 7.5).
Proof. vm_compute. repeat split. Qed.

(** ** The tick as a sequence of mutations *)

Section Accessors.
Variables (e : GameEngine) (k : string).

Lemma units_modifyUnit f : units (modifyUnit k f e) = Obj.modify k f (units e).
Proof. reflexivity. Qed.
Lemma players_modifyUnit f : players (modifyUnit k f e) = players e.
Proof. reflexivity. Qed.
Lemma resources_modifyUnit f : resources (modifyUnit k f e) = resources e.
Proof. reflexivity. Qed.
Lemma units_modifyPlayer f : units (modifyPlayer k f e) = units e.
Proof. reflexivity. Qed.
Lemma players_modifyPlayer f : players (modifyPlayer k f e) = Obj.modify k f (players e).
Proof. reflexivity. Qed.
Lemma resources_modifyPlayer f : resources (modifyPlayer k f e) = resources e.
Proof. reflexivity. Qed.
Lemma units_modifyResource f : units (modifyResource k f e) = units e.
Proof. reflexivity. Qed.
Lemma players_modifyResource f : players (modifyResource k f e) = players e.
Proof. reflexivity. Qed.
Lemma resources_modifyResource f :
  resources (modifyResource k f e) = Obj.modify k f (resources e).
Proof. reflexivity. Qed.
End Accessors.


Lemma livingChange_same_health u u' :
  Unit.isDead u = false -> Unit.isDead u' = false ->
  Unit.id u' = Unit.id u -> Unit.type u' = Unit.type u ->
  Unit.playerId u' = Unit.playerId u ->
  Unit.canAttackAir u' = Unit.canAttackAir u ->
  Unit.canAttackGround u' = Unit.canAttackGround u ->
  Unit.health u' = Unit.health u ->
  livingChange u u'.
Proof. intros. constructor; auto. Qed.

Lemma attackUnit_cases e attackerId targetId :
  attackUnit e attackerId targetId = (e, false) \/
  exists attacker,
    Obj.get attackerId (units e) = Some attacker /\
    Unit.isDead attacker = false /\
    engageable e attacker targetId /\
    attackUnit e attackerId targetId = (modifyUnit attackerId (engage targetId) e, true).
Proof.
  unfold attackUnit, engageable.
  destruct (read e (units e) attackerId) as [attacker| | |] eqn:Ra;
    try (now left).
  apply read_Own in Ra.
  destruct (read e (units e) targetId) as [target| | |] eqn:Rt;
    try (now left).
  - destruct (Unit.isDead attacker) eqn:Da; [now left|].
    destruct (Unit.isDead target) eqn:Dt; [now left|].
    destruct (String.eqb_spec (Unit.playerId attacker) (Unit.playerId target)) as [|Np];
      [now left|].
    destruct (canUnitAttackTarget attacker target) eqn:C; [|now left].
    right. exists attacker. simpl. repeat split; auto.
  - destruct (Unit.isDead attacker) eqn:Da; [now left|].
    destruct (Unit.canAttackGround attacker) eqn:G; [|now left].
    right. exists attacker. simpl. repeat split; auto.
  - destruct (Unit.isDead attacker) eqn:Da; [now left|].
    destruct (Unit.canAttackGround attacker) eqn:G; [|now left].
    right. exists attacker. simpl. repeat split; auto.
Qed.

Lemma livingChange_engage targetId u :
  Unit.isDead u = false -> livingChange u (engage targetId u).
Proof. intros. apply livingChange_same_health; auto. Qed.

Lemma checkForAutoTarget_mutations e unitId unit :
  Obj.get unitId (units e) = Some unit ->
  mutations e (checkForAutoTarget e unit).
Proof.
  intros Hu. unfold checkForAutoTarget.
  destruct (Unit.isAttacking unit) eqn:A; [apply muts_refl|].
  destruct (Unit.isMoving unit) eqn:M; [apply muts_refl|]. simpl.
  destruct (nearestEnemy e unit) as [enemy|]; [|apply muts_refl].
  destruct (attackUnit_cases e (Unit.id unit) (Unit.id enemy))
    as [-> | (attacker & Ha & Da & _ & ->)];
    [apply muts_refl|].
  simpl. apply muts_one, mut_unit. intros u Hu'.
  assert (u = attacker) by congruence. subst u. split.
  - now apply livingChange_engage.
  - intros K _. pose proof (K _ _ Hu) as Hid. rewrite Hid in Ha.
    assert (attacker = unit) by congruence. subst attacker.
    unfold bothModes. simpl. now rewrite M.
Qed.

Lemma checkForAutoTarget_isDead e unit k :
  option_map Unit.isDead (Obj.get k (units (checkForAutoTarget e unit))) =
  option_map Unit.isDead (Obj.get k (units e)).
Proof.
  unfold checkForAutoTarget.
  destruct (Unit.isAttacking unit || Unit.isMoving unit); [reflexivity|].
  destruct (nearestEnemy e unit) as [enemy|]; [|reflexivity].
  destruct (attackUnit_cases e (Unit.id unit) (Unit.id enemy))
    as [-> | (attacker & Ha & Da & _ & ->)];
    [reflexivity|].
  simpl. rewrite units_modifyUnit, ObjFacts.get_modify.
  destruct (String.eqb (Unit.id unit) k); [|reflexivity].
  now destruct (Obj.get k (units e)).
Qed.

Lemma livingChange_advance deltaTime dx dy distance u :
  Unit.isDead u = false -> livingChange u (advance deltaTime dx dy distance u).
Proof. intros. apply livingChange_same_health; auto. Qed.

Lemma livingChange_handleMovement deltaTime u :
  Unit.isDead u = false -> livingChange u (handleMovement deltaTime u).
Proof.
  intros D. unfold handleMovement.
  destruct (Unit.path u) as [[|targetPos rest]|];
    try (apply livingChange_same_health; now auto).
  destruct (Unit.isMoving u); [|apply livingChange_same_health; now auto].
  destruct (_ <? 1).
  - destruct rest; apply livingChange_same_health; auto.
  - now apply livingChange_advance.
Qed.

Lemma bothModes_handleMovement deltaTime u :
  bothModes u = false -> bothModes (handleMovement deltaTime u) = false.
Proof.
  unfold handleMovement.
  destruct (Unit.path u) as [[|targetPos rest]|]; auto.
  destruct (Unit.isMoving u) eqn:M; auto.
  destruct (_ <? 1); auto.
  destruct rest; auto.
Qed.

Lemma livingChange_clearAttack u :
  Unit.isDead u = false -> livingChange u (clearAttack u).
Proof. intros. apply livingChange_same_health; auto. Qed.

Lemma bothModes_clearAttack u : bothModes (clearAttack u) = false.
Proof. unfold bothModes. simpl. apply andb_false_r. Qed.

(** The state a hit leaves, whether or not the removal from the roster
    throws: a roster is written only when the owner is a player. *)
Lemma dealDamage_state e unit targetId target :
  fst (dealDamage e unit targetId target) =
  let health :=
    Unit.health target
    - F64.Math_max 1 (Unit.attack unit - Unit.defense target / 2) in
  if health <=? 0
  then modifyPlayer (Unit.playerId target) (strike (Unit.id target))
         (modifyUnit targetId die e)
  else modifyUnit targetId (Unit.with_health health) e.
Proof.
  unfold dealDamage. cbv zeta. destruct (_ <=? 0); [|reflexivity].
  change (modifyUnit targetId
            (fun t => Unit.with_isDead true (Unit.with_health 0 t)) e)
    with (modifyUnit targetId die e).
  set (e1 := modifyUnit targetId die e).
  destruct (read_cases e1 (players e1) (Unit.playerId target))
    as [(p & H & R) | (H & [R | [R | R]])]; rewrite R; simpl.
  - reflexivity.
  - symmetry. now apply modifyPlayer_absent.
  - symmetry. now apply modifyPlayer_absent.
  - symmetry. now apply modifyPlayer_absent.
Qed.

Lemma dealDamage_mutations e unit targetId target :
  Obj.get targetId (units e) = Some target ->
  Unit.isDead target = false ->
  mutations e (fst (dealDamage e unit targetId target)).
Proof.
  intros Ht D. rewrite dealDamage_state. cbv zeta.
  destruct (_ <=? 0) eqn:L.
  - apply muts_one. now apply (mut_kill e targetId target).
  - apply muts_one, mut_unit. intros u Hu.
    assert (u = target) by congruence. subst u. split; [|auto].
    constructor; auto.
Qed.

(** The ways the combat block ends: nothing is written; the attack
    lapses; the unit closes in on its target; or the target is hit. *)
Lemma handleCombat_cases deltaTime e unitId :
  fst (handleCombat deltaTime e unitId) = e \/
  exists unit targetId,
    Obj.get unitId (units e) = Some unit /\
    Unit.isAttacking unit = true /\ Unit.targetId unit = Some targetId /\
    (handleCombat deltaTime e unitId = (modifyUnit unitId clearAttack e, Returns tt) \/
     exists target,
       Obj.get targetId (units e) = Some target /\
       Unit.isDead target = false /\
       canUnitAttackTarget unit target = true /\
       let dx := x (Unit.position target) - x (Unit.position unit) in
       let dy := y (Unit.position target) - y (Unit.position unit) in
       ((distanceOf dx dy <=? Unit.range unit * 20) = false /\
        handleCombat deltaTime e unitId =
          (modifyUnit unitId (advance deltaTime dx dy (distanceOf dx dy)) e,
           Returns tt)) \/
       ((distanceOf dx dy <=? Unit.range unit * 20) = true /\
        F64.gtb (F64.Math_floor (gameTime e))
                (F64.Math_floor (gameTime e - deltaTime)) = true /\
        handleCombat deltaTime e unitId = dealDamage e unit targetId target)).
Proof.
  unfold handleCombat.
  destruct (Obj.get unitId (units e)) as [unit|] eqn:Hu; [|now left].
  destruct (Unit.targetId unit) as [targetId|] eqn:T; [|now left].
  destruct (Unit.isAttacking unit) eqn:A; [|now left].
  destruct (negb (String.eqb targetId "")); [|now left]. simpl.
  destruct (read e (units e) targetId) as [target| | |] eqn:Rt.
  - apply read_Own in Rt.
    destruct (Unit.isDead target) eqn:Dt.
    { right. exists unit, targetId. repeat split; auto. }
    destruct (canUnitAttackTarget unit target) eqn:C; simpl.
    2:{ right. exists unit, targetId. repeat split; auto. }
    destruct (_ <=? _) eqn:R.
    + destruct (F64.gtb _ _) eqn:G; [|now left].
      right. exists unit, targetId. do 3 (split; [auto|]).
      right. exists target. do 3 (split; [auto|]). cbv zeta. right.
      now rewrite R.
    + right. exists unit, targetId. do 3 (split; [auto|]).
      right. exists target. do 3 (split; [auto|]). cbv zeta. left.
      now rewrite R.
  - destruct (Unit.canAttackGround unit); simpl; [now left|].
    right. exists unit, targetId. repeat split; auto.
  - destruct (Unit.canAttackGround unit); simpl; [now left|].
    right. exists unit, targetId. repeat split; auto.
  - right. exists unit, targetId. repeat split; auto.
Qed.

Lemma handleCombat_mutations deltaTime e unitId :
  (forall u, Obj.get unitId (units e) = Some u -> Unit.isDead u = false) ->
  mutations e (fst (handleCombat deltaTime e unitId)).
Proof.
  intros Alive.
  destruct (handleCombat_cases deltaTime e unitId)
    as [-> | (unit & targetId & Hu & A & T & [-> | (target & Ht & Dt & C & H)])];
    [apply muts_refl| |].
  - simpl. apply muts_one, mut_unit. intros u Hu'.
    assert (u = unit) by congruence. subst u. split.
    + apply livingChange_clearAttack. now apply Alive.
    + intros _ _. apply bothModes_clearAttack.
  - cbv zeta in H. destruct H as [[_ ->] | (_ & _ & ->)].
    + simpl. apply muts_one, mut_unit. intros u Hu'.
      assert (u = unit) by congruence. subst u. split.
      * apply livingChange_advance. now apply Alive.
      * auto.
    + now apply dealDamage_mutations.
Qed.

Lemma handleMovement_vital deltaTime u :
  Unit.health (handleMovement deltaTime u) = Unit.health u /\
  Unit.isDead (handleMovement deltaTime u) = Unit.isDead u.
Proof.
  unfold handleMovement.
  destruct (Unit.path u) as [[|targetPos rest]|]; try (split; reflexivity).
  destruct (Unit.isMoving u); [|split; reflexivity].
  destruct (_ <? 1); [|split; reflexivity].
  destruct rest; split; reflexivity.
Qed.

Lemma borrowing_vital deltaTime path u :
  Unit.health (Unit.with_path None (borrowing deltaTime path u)) = Unit.health u /\
  Unit.isDead (Unit.with_path None (borrowing deltaTime path u)) = Unit.isDead u.
Proof.
  unfold borrowing.
  destruct (handleMovement_vital deltaTime (Unit.with_path (Some path) u))
    as [H1 H2].
  split; [exact H1|exact H2].
Qed.

(** The ways the movement block ends. *)
Lemma moveAlong_cases deltaTime e unitId :
  moveAlong deltaTime e unitId = e \/
  exists unit,
    Obj.get unitId (units e) = Some unit /\
    (moveAlong deltaTime e unitId = modifyUnit unitId (handleMovement deltaTime) e \/
     exists path,
       Unit.path unit = None /\ prototypePath e = Some path /\
       moveAlong deltaTime e unitId =
         with_prototypePath (Unit.path (borrowing deltaTime path unit))
           (modifyUnit unitId
              (fun u => Unit.with_path None (borrowing deltaTime path u)) e)).
Proof.
  unfold moveAlong.
  destruct (Obj.get unitId (units e)) as [unit|] eqn:Hu; [|now left].
  right. exists unit. split; [reflexivity|].
  destruct (Unit.path unit) eqn:Pa; [now left|].
  destruct (prototypePath e) as [path|] eqn:Pp; [|now left].
  right. now exists path.
Qed.

Lemma livingChange_borrowing deltaTime path u :
  Unit.isDead u = false ->
  livingChange u (Unit.with_path None (borrowing deltaTime path u)).
Proof.
  intros D. unfold borrowing.
  pose proof (livingChange_handleMovement deltaTime
                (Unit.with_path (Some path) u) D) as [].
  constructor; auto.
Qed.

Lemma bothModes_borrowing deltaTime path u :
  bothModes u = false ->
  bothModes (Unit.with_path None (borrowing deltaTime path u)) = false.
Proof.
  intros B. unfold borrowing.
  exact (bothModes_handleMovement deltaTime (Unit.with_path (Some path) u) B).
Qed.

Lemma moveAlong_mutations deltaTime e unitId :
  (forall u, Obj.get unitId (units e) = Some u -> Unit.isDead u = false) ->
  mutations e (moveAlong deltaTime e unitId).
Proof.
  intros Alive.
  destruct (moveAlong_cases deltaTime e unitId)
    as [-> | (unit & Hu & [-> | (path & Pa & Pp & ->)])]; [apply muts_refl| |].
  - apply muts_one, mut_unit. intros u Hu'. split.
    + apply livingChange_handleMovement. now apply Alive.
    + intros _. apply bothModes_handleMovement.
  - eapply muts_trans; [|apply muts_one, mut_prototype].
    apply muts_one, mut_unit. intros u Hu'. split.
    + apply livingChange_borrowing. now apply Alive.
    + intros _. apply bothModes_borrowing.
Qed.

Lemma moveAlong_isDead deltaTime e unitId k :
  option_map Unit.isDead (Obj.get k (units (moveAlong deltaTime e unitId))) =
  option_map Unit.isDead (Obj.get k (units e)).
Proof.
  destruct (moveAlong_cases deltaTime e unitId)
    as [-> | (unit & Hu & [-> | (path & Pa & Pp & ->)])]; [reflexivity| |].
  - rewrite units_modifyUnit, ObjFacts.get_modify.
    destruct (String.eqb unitId k); [|reflexivity].
    destruct (Obj.get k (units e)) as [u|]; [|reflexivity]. simpl.
    now destruct (handleMovement_vital deltaTime u) as [_ ->].
  - change (units (with_prototypePath ?p ?e0)) with (units e0).
    rewrite units_modifyUnit, ObjFacts.get_modify.
    destruct (String.eqb unitId k); [|reflexivity].
    destruct (Obj.get k (units e)) as [u|]; [|reflexivity]. simpl.
    unfold borrowing.
    now destruct (handleMovement_vital deltaTime (Unit.with_path (Some path) u))
      as [_ ->].
Qed.

Lemma updateUnit_mutations deltaTime e unitId :
  mutations e (fst (updateUnit deltaTime e unitId)).
Proof.
  unfold updateUnit.
  destruct (Obj.get unitId (units e)) as [unit|] eqn:Hu; [|apply muts_refl].
  destruct (Unit.isDead unit) eqn:D; [apply muts_refl|].
  pose proof (checkForAutoTarget_isDead e unit unitId) as Hd.
  rewrite Hu in Hd. simpl in Hd. rewrite D in Hd.
  set (e1 := checkForAutoTarget e unit) in *.
  eapply muts_trans; [exact (checkForAutoTarget_mutations e unitId unit Hu)|].
  fold e1.
  assert (A1 : forall u, Obj.get unitId (units e1) = Some u -> Unit.isDead u = false).
  { intros u Hu1. rewrite Hu1 in Hd. simpl in Hd. congruence. }
  eapply muts_trans; [apply moveAlong_mutations; exact A1|].
  apply handleCombat_mutations. intros u Hu2.
  pose proof (moveAlong_isDead deltaTime e1 unitId unitId) as Hm.
  rewrite Hu2, Hd in Hm. simpl in Hm. congruence.
Qed.

Lemma forEach_mutations {A}
    (f : GameEngine -> A -> GameEngine * Result void) (l : list A) :
  (forall e a, mutations e (fst (f e a))) ->
  forall e, mutations e (fst (forEach f l e)).
Proof.
  intros Hf. induction l as [|a l IH]; intros e; simpl.
  - apply muts_refl.
  - pose proof (Hf e a) as M. destruct (f e a) as [e1 [r|]]; simpl in *.
    + eapply muts_trans; [exact M|apply IH].
    + exact M.
Qed.

Lemma fold_left_mutations {A} (f : GameEngine -> A -> GameEngine) (l : list A) :
  (forall e a, mutations e (f e a)) ->
  forall e, mutations e (fold_left f l e).
Proof.
  intros Hf. induction l as [|a l IH]; intros e; simpl.
  - apply muts_refl.
  - eapply muts_trans; [apply Hf|apply IH].
Qed.

Lemma collectFor_mutations resourceId e playerId :
  mutations e (collectFor resourceId e playerId).
Proof.
  unfold collectFor.
  destruct (Obj.get resourceId (resources e)) as [resource|] eqn:Hr; [|apply muts_refl].
  destruct (Obj.get playerId (players e)) as [player|]; [|apply muts_refl].
  destruct (nearbyUnit e player resource); [|apply muts_refl].
  apply muts_one. now apply mut_collect.
Qed.

Lemma collectResources_mutations e : mutations e (collectResources e).
Proof.
  unfold collectResources. apply fold_left_mutations. clear e.
  intros e resourceId. unfold collectResource.
  destruct (Obj.get resourceId (resources e)) as [resource|]; [|apply muts_refl].
  destruct (Resource.isCollected resource); [apply muts_refl|].
  apply fold_left_mutations. intros. apply collectFor_mutations.
Qed.

Lemma passes_mutations deltaTime e : mutations e (fst (passes deltaTime e)).
Proof.
  unfold passes.
  pose proof (forEach_mutations (updateUnit deltaTime) (Obj.keys (units e))
                (updateUnit_mutations deltaTime) e) as M.
  fold (updateUnits deltaTime e) in M.
  destruct (updateUnits deltaTime e) as [e1 [r|]]; simpl in *; [|exact M].
  apply muts_trans with e1; [exact M|].
  apply muts_trans with (updateResources deltaTime e1).
  { apply muts_one, mut_respawn. }
  apply collectResources_mutations.
Qed.

Lemma update_mutations e currentTime : mutations e (update e currentTime).
Proof.
  unfold update, updateCall. cbv zeta.
  apply muts_trans with (advanceClock e currentTime);
    [apply muts_one, mut_clock|].
  apply passes_mutations.
Qed.

(** ** Invariants *)

Lemma get_modify_inv {V} (k k' : string) (f : V -> V) (o : Obj.t V) (v' : V) :
  Obj.get k' (Obj.modify k f o) = Some v' ->
  (k = k' /\ exists v, Obj.get k' o = Some v /\ v' = f v) \/
  (k <> k' /\ Obj.get k' o = Some v').
Proof.
  rewrite ObjFacts.get_modify.
  destruct (String.eqb_spec k k') as [->|N]; intros H.
  - left. split; [reflexivity|].
    destruct (Obj.get k' o) as [v|]; [|discriminate].
    exists v. split; [reflexivity|]. simpl in H. congruence.
  - now right.
Qed.

Lemma sound_modifyUnit e k f :
  (forall u, Obj.get k (units e) = Some u -> livingChange u (f u)) ->
  sound e -> sound (modifyUnit k f e).
Proof.
  intros Hf S.
  assert (Inv : forall k' u', Obj.get k' (units (modifyUnit k f e)) = Some u' ->
             Obj.get k' (units e) = Some u' \/
             exists u, Obj.get k' (units e) = Some u /\ livingChange u u').
  { intros k' u' H. rewrite units_modifyUnit in H.
    apply get_modify_inv in H. destruct H as [[-> (u & Hu & ->)] | [_ H]].
    - right. exists u. split; [exact Hu|]. now apply Hf.
    - now left. }
  constructor.
  - intros k' u' H. destruct (Inv _ _ H) as [H0 | (u & H0 & C)].
    + now apply (sound_keyed e S).
    + rewrite (lc_id _ _ C). now apply (sound_keyed e S).
  - intros k' u' H. destruct (Inv _ _ H) as [H0 | (u & H0 & C)].
    + now apply (sound_stats e S k').
    + rewrite (lc_air _ _ C), (lc_ground _ _ C), (lc_type _ _ C).
      now apply (sound_stats e S k').
  - intros k' u' H. destruct (Inv _ _ H) as [H0 | (u & H0 & C)].
    + now apply (sound_health e S k').
    + destruct (lc_health _ _ C) as [-> | L].
      * now apply (sound_health e S k').
      * now apply F64Facts.leb_false_ltb.
  - intros k' u' H D. destruct (Inv _ _ H) as [H0 | (u & H0 & C)].
    + now apply (sound_living e S k').
    + destruct (lc_health _ _ C) as [-> | L]; [|exact L].
      apply (sound_living e S k'); [exact H0|apply (lc_alive _ _ C)].
  - exact (sound_balance e S).
  - exact (sound_amount e S).
Qed.

Lemma respawn_amount deltaTime r :
  (Resource.amount r <? 0) = false ->
  (Resource.amount (respawn deltaTime r) <? 0) = false.
Proof.
  intros H. unfold respawn.
  destruct (Resource.isCollected r); [|exact H].
  destruct (_ <=? 0); [reflexivity|exact H].
Qed.

Lemma mutation_sound e e' : mutation e e' -> sound e -> sound e'.
Proof.
  intros M S. destruct M as [e k f Hf | e k u Hu D | e g t | e path | e deltaTime | e pid rid r Hr].
  - apply sound_modifyUnit; [|exact S]. intros u Hu. now apply Hf.
  - constructor.
    + intros k' u' H. rewrite units_modifyPlayer, units_modifyUnit in H.
      apply get_modify_inv in H. destruct H as [[-> (v & Hv & ->)] | [_ H]].
      * simpl. now apply (sound_keyed e S).
      * now apply (sound_keyed e S).
    + intros k' u' H. rewrite units_modifyPlayer, units_modifyUnit in H.
      apply get_modify_inv in H. destruct H as [[-> (v & Hv & ->)] | [_ H]].
      * simpl. now apply (sound_stats e S k').
      * now apply (sound_stats e S k').
    + intros k' u' H. rewrite units_modifyPlayer, units_modifyUnit in H.
      apply get_modify_inv in H. destruct H as [[-> (v & Hv & ->)] | [_ H]].
      * reflexivity.
      * now apply (sound_health e S k').
    + intros k' u' H D'. rewrite units_modifyPlayer, units_modifyUnit in H.
      apply get_modify_inv in H. destruct H as [[-> (v & Hv & ->)] | [_ H]].
      * discriminate.
      * now apply (sound_living e S k').
    + intros k' p' H. rewrite players_modifyPlayer in H.
      apply get_modify_inv in H. destruct H as [[_ (v & Hv & ->)] | [_ H]].
      * simpl. now apply (sound_balance e S k').
      * now apply (sound_balance e S k').
    + exact (sound_amount e S).
  - destruct S. constructor; assumption.
  - destruct S. constructor; assumption.
  - destruct S as [S1 S2 S3 S4 S5 S6]. constructor; try assumption.
    intros k r H. unfold updateResources, with_resources, resources in H.
    simpl in H. rewrite ObjFacts.get_map_values in H.
    fold (resources e) in H.
    destruct (Obj.get k (resources e)) as [r0|] eqn:E; [|discriminate].
    simpl in H. injection H as <-. apply respawn_amount. now apply (S6 k).
  - destruct S as [S1 S2 S3 S4 S5 S6]. constructor; try assumption.
    + intros k' p' H. rewrite players_modifyResource, players_modifyPlayer in H.
      apply get_modify_inv in H. destruct H as [[-> (v & Hv & ->)] | [_ H]].
      * simpl. apply F64Facts.add_not_neg; [now apply (S5 k')|now apply (S6 rid)].
      * now apply (S5 k').
    + intros k' r' H. rewrite resources_modifyResource in H.
      apply get_modify_inv in H. destruct H as [[-> (v & Hv & ->)] | [_ H]].
      * simpl. now apply (S6 k').
      * now apply (S6 k').
Qed.

Lemma mutations_sound e e' : mutations e e' -> sound e -> sound e'.
Proof.
  induction 1; auto. now apply mutation_sound.
Qed.

Lemma stat_health_not_neg unitType :
  (stat_health (UNIT_STATS unitType) <? 0) = false /\
  (stat_health (UNIT_STATS unitType) <=? 0) = false.
Proof. destruct unitType; split; reflexivity. Qed.

Lemma sound_createUnit e playerId unitType position uuid :
  sound e -> sound (fst (createUnit e playerId unitType position uuid)).
Proof.
  intros S.
  destruct (createUnit_cases e playerId unitType position uuid)
    as [[-> _] | (player & Hp & L)]; [exact S|].
  destruct (createUnit_sufficient e playerId unitType position uuid player Hp L)
    as (_ & Hp' & Hpo & Huo & (unit & Hu & Uid & Uty & _ & Uh & Ua & Ug & _) & Hr & _).
  set (e' := fst (createUnit e playerId unitType position uuid)) in *.
  assert (Inv : forall k u, Obj.get k (units e') = Some u ->
                            Obj.get k (units e) = Some u \/ (k = uuid /\ u = unit)).
  { intros k u H. destruct (String.eqb_spec k uuid) as [->|N].
    - right. split; congruence.
    - left. now rewrite <- Huo. }
  constructor.
  - intros k u H. destruct (Inv _ _ H) as [H0 | [-> ->]];
      [now apply (sound_keyed e S)|exact Uid].
  - intros k u H. destruct (Inv _ _ H) as [H0 | [-> ->]];
      [now apply (sound_stats e S k)|]. rewrite Ua, Ug, Uty. now split.
  - intros k u H. destruct (Inv _ _ H) as [H0 | [-> ->]];
      [now apply (sound_health e S k)|]. rewrite Uh. apply stat_health_not_neg.
  - intros k u H D. destruct (Inv _ _ H) as [H0 | [-> ->]];
      [now apply (sound_living e S k)|]. rewrite Uh. apply stat_health_not_neg.
  - intros k p H. destruct (String.eqb_spec k playerId) as [->|N].
    + rewrite Hp' in H. injection H as <-. simpl.
      now apply F64Facts.sub_not_neg.
    + rewrite Hpo in H by exact N. now apply (sound_balance e S k).
  - rewrite Hr. exact (sound_amount e S).
Qed.

Lemma sound_addPlayer e name faction playerId rx ry u1 u2 u3 :
  sound e -> sound (fst (addPlayer e name faction playerId rx ry u1 u2 u3)).
Proof.
  intros S. unfold addPlayer.
  destruct (GameState.mapSize (state e)) as [width height]. cbv zeta. simpl fst.
  do 3 apply sound_createUnit.
  destruct S as [S1 S2 S3 S4 S5 S6]. constructor; try assumption.
  intros k p H. unfold with_players, players in H. simpl in H.
  rewrite ObjFacts.get_set in H.
  destruct (String.eqb playerId k).
  - injection H as <-. reflexivity.
  - now apply (S5 k).
Qed.

(** The ways a move order ends: the engine is left as it was; a living
    unit takes the order; or [Object.prototype] takes it. *)
Lemma moveUnit_cases e unitId targetPosition :
  fst (moveUnit e unitId targetPosition) = e \/
  (exists unit,
      Obj.get unitId (units e) = Some unit /\ Unit.isDead unit = false /\
      moveUnit e unitId targetPosition =
        (modifyUnit unitId (ordered targetPosition) e, Returns true)) \/
  (Obj.get unitId (units e) = None /\ unitId = "__proto__" /\
   moveUnit e unitId targetPosition =
     (with_prototypePath (Some [targetPosition]) e, Returns true)).
Proof.
  unfold moveUnit.
  destruct (read_cases e (units e) unitId)
    as [(unit & H & R) | (H & [R | [R | R]])]; rewrite R.
  - destruct (Unit.isDead unit) eqn:D; [now left|].
    right. left. now exists unit.
  - destruct (String.eqb_spec unitId "__proto__") as [E|N]; [|now left].
    right. right. auto.
  - now left.
  - now left.
Qed.

Lemma moveUnit_mutation e unitId targetPosition :
  mutations e (fst (moveUnit e unitId targetPosition)).
Proof.
  destruct (moveUnit_cases e unitId targetPosition)
    as [-> | [(unit & Hu & D & ->) | (_ & _ & ->)]]; [apply muts_refl| |].
  - apply muts_one, mut_unit. intros u Hu'.
    assert (u = unit) by congruence. subst u. split.
    + apply livingChange_same_health; auto.
    + intros _ _. unfold bothModes. simpl. reflexivity.
  - apply muts_one, mut_prototype.
Qed.

Lemma sound_attackUnit e attackerId targetId :
  sound e -> sound (fst (attackUnit e attackerId targetId)).
Proof.
  intros S.
  destruct (attackUnit_cases e attackerId targetId)
    as [-> | (attacker & Ha & Da & _ & ->)]; [exact S|].
  apply sound_modifyUnit; [|exact S].
  intros u Hu. assert (u = attacker) by congruence. subst u.
  now apply livingChange_engage.
Qed.

Lemma spawnResources_amount spots uuidv4 k r :
  Obj.get k (spawnResources spots uuidv4) = Some r ->
  Resource.amount r = RESOURCE_CONFIG.resourceAmount MONEY.
Proof.
  unfold spawnResources. cbv zeta.
  generalize (seq 0 (RESOURCE_CONFIG.mapResourceCount MONEY)).
  assert (H0 : forall k r, Obj.get k (@nil (string * Resource.t)) = Some r ->
                           Resource.amount r = RESOURCE_CONFIG.resourceAmount MONEY)
    by discriminate.
  revert H0. generalize (@nil (string * Resource.t)) as acc.
  intros acc H0 l. revert acc H0 k r.
  induction l as [|i l IH]; intros acc H0 k r; simpl.
  - apply H0.
  - apply IH. intros k' r' H. rewrite ObjFacts.get_set in H.
    destruct (String.eqb _ k').
    + injection H as <-. reflexivity.
    + now apply (H0 k').
Qed.

Lemma sound_newGameEngine mapWidth mapHeight now random uuidv4 :
  sound (newGameEngine mapWidth mapHeight now random uuidv4).
Proof.
  constructor; try (intros k u H; discriminate H).
  intros k r H. unfold newGameEngine, resources in H. simpl in H.
  apply spawnResources_amount in H. rewrite H. reflexivity.
Qed.

Lemma step_sound e e' : step e e' -> sound e -> sound e'.
Proof.
  intros St S. destruct St.
  - now apply sound_addPlayer.
  - now apply sound_createUnit.
  - eapply mutations_sound; [apply moveUnit_mutation|exact S].
  - now apply sound_attackUnit.
  - eapply mutations_sound; [apply update_mutations|exact S].
Qed.

Lemma steps_sound e e' : steps e e' -> sound e -> sound e'.
Proof.
  induction 1; auto. intros S. eapply step_sound; eauto.
Qed.

Lemma reachable_sound e : reachable e -> sound e.
Proof.
  intros (w & h & now & random & uuidv4 & St).
  eapply steps_sound; [exact St|apply sound_newGameEngine].
Qed.

(** ** The example worlds are reachable *)

Lemma steps_trans a b c : steps a b -> steps b c -> steps a c.
Proof.
  intros St St'. revert St.
  induction St' as [b|b c d _ IH St']; intros St; [exact St|].
  eapply steps_cons; [apply IH; exact St|exact St'].
Qed.

Lemma steps_reachable e e' : reachable e -> steps e e' -> reachable e'.
Proof.
  intros (w & h & now & random & uuidv4 & St) St'.
  exists w, h, now, random, uuidv4. now apply steps_trans with e.
Qed.

Lemma step_reachable e e' : reachable e -> step e e' -> reachable e'.
Proof.
  intros R St. apply steps_reachable with e; [exact R|].
  eapply steps_cons; [apply steps_refl|exact St].
Qed.

Lemma reachable_new mapWidth mapHeight now random uuidv4 :
  reachable (newGameEngine mapWidth mapHeight now random uuidv4).
Proof. exists mapWidth, mapHeight, now, random, uuidv4. apply steps_refl. Qed.

Ltac newIds := solve [vm_compute; reflexivity | discriminate].

Lemma reachable_worldAB : reachable worldAB.
Proof.
  apply step_reachable with worldA.
  - apply step_reachable with world0; [apply reachable_new|].
    apply (step_addPlayer world0 "Player" USA "player-A" 0 0 "a1" "a2" "a3");
      newIds.
  - apply (step_addPlayer worldA "AI 1" CHINA "player-B" 0.125 0 "b1" "b2" "b3");
      newIds.
Qed.

Lemma steps_updatesAt e ms : steps e (updatesAt e ms).
Proof.
  unfold updatesAt. revert e.
  induction ms as [|t ms IH]; intros e; simpl; [apply steps_refl|].
  eapply steps_trans; [|apply IH].
  eapply steps_cons; [apply steps_refl|apply step_update].
Qed.

Lemma reachable_worldArmed : reachable worldArmed.
Proof.
  apply step_reachable with worldTank.
  2:{ apply (step_createUnit worldTank "player-B" HELICOPTER
               {| x := 450; y := 320 |} "b-heli"). newIds. }
  apply step_reachable with worldRich.
  2:{ apply (step_createUnit worldRich "player-A" TANK
               {| x := 100; y := 120 |} "a-tank"). newIds. }
  apply step_reachable with worldPoor; [|apply step_update].
  unfold worldPoor. cbv zeta.
  eapply step_reachable; [|apply step_addPlayer; newIds].
  eapply step_reachable; [|apply step_addPlayer; newIds].
  apply reachable_new.
Qed.

(** ** Prices and refusals *)

Lemma steps_purchases playerId position orders : forall e,
  newAlong e playerId position orders = true ->
  steps e (purchases e playerId position orders).
Proof.
  unfold purchases.
  induction orders as [|order orders IH]; intros e N; simpl; [apply steps_refl|].
  simpl in N. destruct (Obj.get (snd order) (units e)) eqn:F; [discriminate|].
  eapply steps_trans; [|apply IH; exact N].
  eapply steps_cons; [apply steps_refl|]. now apply step_createUnit.
Qed.

Lemma reachable_worldRich : reachable worldRich.
Proof.
  apply step_reachable with worldPoor; [|apply step_update].
  unfold worldPoor. cbv zeta.
  eapply step_reachable; [|apply step_addPlayer; newIds].
  eapply step_reachable; [|apply step_addPlayer; newIds].
  apply reachable_new.
Qed.

Lemma reachable_worldFour : reachable worldFour.
Proof.
  unfold worldFour. cbv zeta.
  eapply step_reachable; [|apply step_createUnit; newIds].
  eapply step_reachable; [|apply step_createUnit; newIds].
  apply reachable_worldRich.
Qed.

Lemma reachable_worldSlip : reachable worldSlip.
Proof.
  apply steps_reachable with worldWealthy.
  - apply steps_reachable with worldMine; [|apply steps_updatesAt].
    unfold worldMine. cbv zeta.
    eapply step_reachable; [|apply step_addPlayer; newIds].
    apply reachable_new.
  - apply steps_purchases. vm_compute. reflexivity.
Qed.

(** C4: the price charged is not always
    [floor (base * (1 + N * 0.1))].  In [worldFour] player A has four
    units and holds 1310.  For a buyer with four units a helicopter is
    priced floor (700 * 1.4) = 980; [createUnit] charges 979 and leaves
    331, because it evaluates [700 * (1 + 4 * 0.1)] in binary64, where
    the product is 979.9999999999999, and takes the floor of that.  For
    rosters of fewer than forty units the price charged is one below
    the price stated for a helicopter bought with 4, 13, 18, 31 or 36
    units and for a tank bought with 31 units, and is the price stated
    in every other case.  The roster length used is the one at the
    call: the same helicopter costs the buyer of [worldRich], who has
    two units, 840. *)
Theorem createUnit_charges_one_less_after_rounding :
  reachable worldFour /\
  option_map Player.units (Obj.get "player-A" (players worldFour))
    = Some ["a1"; "a2"; "a4"; "a5"] /\
  balanceOf "player-A" worldFour = Some 1310 /\
  exactCostOf HELICOPTER 4 = 980%Z /\
  snd (createUnit worldFour "player-A" HELICOPTER {| x := 100; y := 140 |} "a6")
    = Returns (Some "a6") /\
  balanceOf "player-A"
    (fst (createUnit worldFour "player-A" HELICOPTER {| x := 100; y := 140 |} "a6"))
    = Some 331 /\
  1310 - 980 = 330 /\
  BASE_UNIT_COSTS HELICOPTER * (1 + F64.of_nat 4 * 0.1) = 979.9999999999999 /\
  filter (fun order =>
            negb (unitCostOf (fst order) (snd order)
                  =? F64.of_Z (exactCostOf (fst order) (snd order))))
         (list_prod [SOLDIER; TANK; HELICOPTER] (seq 0 40))
    = [(TANK, 31%nat); (HELICOPTER, 4%nat); (HELICOPTER, 13%nat);
       (HELICOPTER, 18%nat); (HELICOPTER, 31%nat); (HELICOPTER, 36%nat)] /\
  forallb (fun order =>
             unitCostOf (fst order) (snd order)
             =? F64.of_Z (exactCostOf (fst order) (snd order) - 1))
          [(TANK, 31%nat); (HELICOPTER, 4%nat); (HELICOPTER, 13%nat);
           (HELICOPTER, 18%nat); (HELICOPTER, 31%nat); (HELICOPTER, 36%nat)]
    = true /\
  balanceOf "player-A" worldRich = Some 1685 /\
  balanceOf "player-A"
    (fst (createUnit worldRich "player-A" HELICOPTER {| x := 100; y := 140 |} "a6"))
    = Some (1685 - 840).
Proof.
  split; [exact reachable_worldFour|].
  vm_compute. repeat split.
Qed.

(** C5: what [createUnit] does when it sells nothing, and the two
    kinds of call that do not end so.  A call that returns no new
    id leaves the engine as it was; it returns [null] when the id of
    the player names nothing, and when the balance is below the price
    the code computes.  But an id that is a property name of
    [Object.prototype] names something: [createUnit("constructor", ...)]
    passes the test [!player] and throws a [TypeError] at
    [player.units.length].  And the price the code computes can be one
    below the scaled price: in [worldSlip] player A has thirty-six
    units and holds 3219, a helicopter is priced
    floor (700 * 4.6) = 3220, and the purchase goes through, leaving 0. *)
Theorem createUnit_refusals :
  (forall e playerId unitType position uuid,
      (read e (players e) playerId = Falsy ->
       createUnit e playerId unitType position uuid = (e, Returns None)) /\
      (forall player,
          Obj.get playerId (players e) = Some player ->
          (Player.resources player <?
             unitCostOf unitType (List.length (Player.units player))) = true ->
          createUnit e playerId unitType position uuid = (e, Returns None)) /\
      (snd (createUnit e playerId unitType position uuid) <> Returns (Some uuid) ->
       fst (createUnit e playerId unitType position uuid) = e)) /\
  reachable worldAB /\
  Obj.get "constructor" (players worldAB) = None /\
  createUnit worldAB "constructor" SOLDIER {| x := 100; y := 120 |} "a4"
    = (worldAB, Throws) /\
  reachable worldSlip /\
  option_map (fun player => List.length (Player.units player))
    (Obj.get "player-A" (players worldSlip)) = Some 36%nat /\
  balanceOf "player-A" worldSlip = Some 3219 /\
  exactCostOf HELICOPTER 36 = 3220%Z /\
  snd (createUnit worldSlip "player-A" HELICOPTER {| x := 100; y := 140 |} "a6")
    = Returns (Some "a6") /\
  balanceOf "player-A"
    (fst (createUnit worldSlip "player-A" HELICOPTER {| x := 100; y := 140 |} "a6"))
    = Some 0.
Proof.
  split.
  { intros e playerId unitType position uuid. split; [|split].
    - apply createUnit_unknown_player.
    - intros player H L. now apply createUnit_insufficient with player.
    - intros N.
      destruct (createUnit_cases e playerId unitType position uuid)
        as [[E _] | (player & H & L)]; [exact E|].
      destruct (createUnit_sufficient e playerId unitType position uuid player H L)
        as (R & _). contradiction. }
  split; [exact reachable_worldAB|].
  split; [reflexivity|].
  split; [vm_compute; reflexivity|].
  split; [exact reachable_worldSlip|].
  vm_compute. repeat split.
Qed.

(** ** Balances *)

(** C10: in every world the engine can be in, no player's balance is
    below zero: [balance < 0] is false.  Admission grants 800, a
    purchase subtracts a price only when [balance < price] is false,
    and collection adds the amount of a node, which is never below
    zero. *)
Theorem balance_never_negative (e : GameEngine) (playerId : string) (player : Player.t) :
  reachable e ->
  Obj.get playerId (players e) = Some player ->
  (Player.resources player <? 0) = false.
Proof.
  intros R H. exact (sound_balance e (reachable_sound e R) playerId player H).
Qed.

(** Player A of [worldArmed], who has collected eight nodes and bought a
    tank, holds 1145. *)
Lemma balance_never_negative_witness :
  exists player,
    Obj.get "player-A" (players worldArmed) = Some player /\
    Player.resources player = 1145 /\
    (Player.resources player <? 0) = false.
Proof.
  eexists. split; [vm_compute; reflexivity|]. split; [reflexivity|].
  eapply (balance_never_negative worldArmed "player-A").
  - exact reachable_worldArmed.
  - vm_compute. reflexivity.
Defined.

(** ** The attack command *)

(** C8: an attack order whose attacker cannot engage the category of
    its target returns [false] and leaves the engine as it was; in
    every world the engine can be in, a tank ordered to attack a
    helicopter is such an order. *)
Theorem attackUnit_rejects_incapable_attacker
    (e : GameEngine) (attackerId targetId : string) (attacker target : Unit.t) :
  Obj.get attackerId (units e) = Some attacker ->
  Obj.get targetId (units e) = Some target ->
  canUnitAttackTarget attacker target = false \/
  (reachable e /\ Unit.type attacker = TANK /\ Unit.type target = HELICOPTER) ->
  attackUnit e attackerId targetId = (e, false).
Proof.
  intros Ha Ht H.
  assert (C : canUnitAttackTarget attacker target = false).
  { destruct H as [C | (R & Ta & Tt)]; [exact C|].
    unfold canUnitAttackTarget. rewrite Tt. simpl.
    destruct (sound_stats e (reachable_sound e R) attackerId attacker Ha) as [-> _].
    now rewrite Ta. }
  unfold attackUnit.
  rewrite (read_own _ _ _ _ Ha), (read_own _ _ _ _ Ht), C.
  now destruct (_ || _).
Qed.

Lemma attackUnit_rejects_incapable_attacker_witness :
  attackUnit worldArmed "a-tank" "b-heli" = (worldArmed, false).
Proof.
  eapply attackUnit_rejects_incapable_attacker.
  - vm_compute. reflexivity.
  - vm_compute. reflexivity.
  - right. split; [exact reachable_worldArmed|]. split; reflexivity.
Defined.

(** ** Dead units *)

Lemma frozen_refl e : frozen e e.
Proof. intros k u H _. exact H. Qed.

Lemma frozen_trans e e' e'' : frozen e e' -> frozen e' e'' -> frozen e e''.
Proof. intros F1 F2 k u H D. apply F2; [|exact D]. now apply F1. Qed.

Lemma frozen_modifyUnit e k f :
  (forall u, Obj.get k (units e) = Some u -> Unit.isDead u = false) ->
  frozen e (modifyUnit k f e).
Proof.
  intros Hf k' u H D. rewrite units_modifyUnit, ObjFacts.get_modify.
  destruct (String.eqb_spec k k') as [->|N]; [|exact H].
  rewrite (Hf _ H) in D. discriminate.
Qed.

Lemma mutation_frozen e e' : mutation e e' -> frozen e e'.
Proof.
  intros M. destruct M as [e k f Hf | e k u Hu D | e g t | e path | e deltaTime | e pid rid r Hr];
    try (intros k' u' H' _; exact H').
  - apply frozen_modifyUnit. intros u Hu. apply (lc_alive u (f u)). now apply Hf.
  - apply (frozen_modifyUnit e k die). intros u' Hu'. congruence.
Qed.

Lemma mutations_frozen e e' : mutations e e' -> frozen e e'.
Proof.
  induction 1; [apply frozen_refl|now apply mutation_frozen|].
  eapply frozen_trans; eauto.
Qed.

(** C9: the record of a dead unit is frozen.  With the unit as its
    subject a move order is refused, and so is an attack order with the
    unit as attacker or as target; and whatever move order, attack
    order or call of [update()] follows, the record stored under the
    unit's id afterwards is the very same record, field by field. *)
Theorem dead_unit_record_is_frozen
    (e : GameEngine) (unitId : string) (unit : Unit.t) :
  Obj.get unitId (units e) = Some unit ->
  Unit.isDead unit = true ->
  (forall targetPosition, moveUnit e unitId targetPosition = (e, Returns false)) /\
  (forall other, attackUnit e unitId other = (e, false)) /\
  (forall other, attackUnit e other unitId = (e, false)) /\
  (forall subject targetPosition,
      Obj.get unitId (units (fst (moveUnit e subject targetPosition))) = Some unit) /\
  (forall attackerId targetId,
      Obj.get unitId (units (fst (attackUnit e attackerId targetId))) = Some unit) /\
  (forall currentTime,
      Obj.get unitId (units (update e currentTime)) = Some unit).
Proof.
  intros H D. repeat split.
  - intros targetPosition. unfold moveUnit.
    now rewrite (read_own _ _ _ _ H), D.
  - intros other. unfold attackUnit. rewrite (read_own _ _ _ _ H), D.
    now destruct (read e (units e) other).
  - intros other. unfold attackUnit. rewrite (read_own _ _ _ _ H), D.
    destruct (read e (units e) other) as [attacker| | |]; try reflexivity.
    now rewrite orb_true_r.
  - intros subject targetPosition.
    now apply (mutations_frozen _ _ (moveUnit_mutation e subject targetPosition)).
  - intros attackerId targetId.
    destruct (attackUnit_cases e attackerId targetId)
      as [-> | (attacker & Ha & Da & _ & ->)]; [exact H|].
    apply (frozen_modifyUnit e attackerId (engage targetId)); [|exact H|exact D].
    intros u Hu. congruence.
  - intros currentTime.
    now apply (mutations_frozen _ _ (update_mutations e currentTime)).
Qed.

Lemma dead_unit_record_is_frozen_witness :
  Obj.get "b1" (units (update worldFallen (T0 + 15000)))
    = Obj.get "b1" (units worldFallen) /\
  moveUnit worldFallen "b1" {| x := 0; y := 0 |} = (worldFallen, Returns false).
Proof.
  assert (H : exists unit, Obj.get "b1" (units worldFallen) = Some unit /\
                           Unit.isDead unit = true).
  { eexists. split; [vm_compute; reflexivity|reflexivity]. }
  destruct H as (unit & H & D).
  destruct (dead_unit_record_is_frozen worldFallen "b1" unit H D)
    as (Hm & _ & _ & _ & _ & Hu).
  split; [rewrite H; apply Hu|apply Hm].
Defined.

(** ** Health and death *)

Lemma outlives_refl e : outlives e e.
Proof.
  constructor.
  - intros k u H. exists u. repeat split; auto. congruence. congruence.
  - intros pid p' k H I _. now exists p'.
Qed.

Lemma outlives_trans a b c : outlives a b -> outlives b c -> outlives a c.
Proof.
  intros [U1 R1] [U2 R2]. constructor.
  - intros k u H.
    destruct (U1 k u H) as (u1 & H1 & P1 & F1 & K1).
    destruct (U2 k u1 H1) as (u2 & H2 & P2 & F2 & K2).
    exists u2. split; [exact H2|]. split; [congruence|]. split.
    + intros D. rewrite <- (F1 D). apply F2. now rewrite (F1 D).
    + intros D D2. destruct (Unit.isDead u1) eqn:D1.
      * rewrite (F2 eq_refl). destruct (K1 D eq_refl) as [Hh Hr].
        split; [exact Hh|]. intros p Hp I.
        destruct (R2 _ _ k Hp I) as (p1 & Hp1 & I1); [congruence|].
        exact (Hr p1 Hp1 I1).
      * rewrite <- P1. now apply K2.
  - intros pid p' k Hp I N.
    destruct (R2 pid p' k Hp I) as (p1 & Hp1 & I1).
    { destruct (Obj.get k (units a)) as [u|] eqn:E; [|congruence].
      destruct (U1 k u E) as (u1 & H1 & _). congruence. }
    now apply (R1 pid p1 k).
Qed.

Lemma outlives_modifyUnit e k f :
  (forall u, Obj.get k (units e) = Some u -> livingChange u (f u)) ->
  outlives e (modifyUnit k f e).
Proof.
  intros Hf. constructor.
  - intros k' u H. rewrite units_modifyUnit, ObjFacts.get_modify.
    destruct (String.eqb_spec k k') as [->|N].
    + rewrite H. simpl. exists (f u). pose proof (Hf u H) as C.
      split; [reflexivity|]. split; [apply (lc_playerId _ _ C)|]. split.
      * intros D. rewrite (lc_alive _ _ C) in D. discriminate.
      * intros _ D. rewrite (lc_alive' _ _ C) in D. discriminate.
    + exists u. split; [exact H|]. repeat split; auto; congruence.
  - intros pid p' k' H I _. now exists p'.
Qed.

Lemma outlives_kill e k u :
  keyed e ->
  Obj.get k (units e) = Some u ->
  Unit.isDead u = false ->
  outlives e (modifyPlayer (Unit.playerId u) (strike (Unit.id u)) (modifyUnit k die e)).
Proof.
  intros K Hu Alive. constructor.
  - intros k' u0 H. rewrite units_modifyPlayer, units_modifyUnit, ObjFacts.get_modify.
    destruct (String.eqb_spec k k') as [->|N].
    + rewrite H. simpl. assert (u0 = u) by congruence. subst u0.
      exists (die u). split; [reflexivity|]. split; [reflexivity|]. split.
      * intros D. congruence.
      * intros _ _. split; [reflexivity|].
        intros p Hp I. rewrite players_modifyPlayer, ObjFacts.get_modify_same in Hp.
        rewrite players_modifyUnit in Hp.
        destruct (Obj.get (Unit.playerId u) (players e)) as [p0|]; [|discriminate].
        simpl in Hp. injection Hp as <-. simpl in I.
        apply filter_In in I. destruct I as [_ I].
        rewrite (K _ _ H), String.eqb_refl in I. discriminate.
    + exists u0. split; [exact H|]. repeat split; auto; congruence.
  - intros pid p' k' H I _.
    rewrite players_modifyPlayer, players_modifyUnit in H.
    apply get_modify_inv in H. destruct H as [[_ (p & Hp & ->)] | [_ H]].
    + exists p. split; [exact Hp|]. simpl in I. apply filter_In in I. tauto.
    + now exists p'.
Qed.

Lemma outlives_rosters_kept e e' :
  units e' = units e ->
  (forall k, option_map Player.units (Obj.get k (players e')) =
             option_map Player.units (Obj.get k (players e))) ->
  outlives e e'.
Proof.
  intros HU HP. constructor.
  - intros k u H. rewrite HU. exists u. split; [exact H|].
    repeat split; auto; congruence.
  - intros pid p' k H I _. specialize (HP pid). rewrite H in HP.
    destruct (Obj.get pid (players e)) as [p|]; [|discriminate].
    exists p. split; [reflexivity|]. simpl in HP. congruence.
Qed.

Lemma mutation_outlives e e' : keyed e -> mutation e e' -> outlives e e'.
Proof.
  intros K M.
  destruct M as [e k f Hf | e k u Hu D | e g t | e path | e deltaTime | e pid rid r Hr].
  - apply outlives_modifyUnit. intros u Hu. now apply Hf.
  - now apply outlives_kill.
  - now apply outlives_rosters_kept.
  - now apply outlives_rosters_kept.
  - now apply outlives_rosters_kept.
  - apply outlives_rosters_kept; [reflexivity|].
    intros k. rewrite players_modifyResource, players_modifyPlayer, ObjFacts.get_modify.
    destruct (String.eqb pid k); [|reflexivity].
    now destruct (Obj.get k (players e)).
Qed.

Lemma mutations_outlives e e' : mutations e e' -> sound e -> outlives e e'.
Proof.
  induction 1 as [e|e e' M|e e' e'' M1 IH1 M2 IH2]; intros S.
  - apply outlives_refl.
  - apply mutation_outlives; [apply (sound_keyed e S)|exact M].
  - apply outlives_trans with e'; [now apply IH1|].
    apply IH2. now apply (mutations_sound e e').
Qed.

Lemma createUnit_outlives e playerId unitType position uuid :
  Obj.get uuid (units e) = None ->
  outlives e (fst (createUnit e playerId unitType position uuid)).
Proof.
  intros Fresh.
  destruct (createUnit_cases e playerId unitType position uuid)
    as [[-> _] | (player & Hp & L)]; [apply outlives_refl|].
  destruct (createUnit_sufficient e playerId unitType position uuid player Hp L)
    as (_ & Hp' & Hpo & Huo & _).
  set (e' := fst (createUnit e playerId unitType position uuid)) in *.
  constructor.
  - intros k u H. exists u.
    assert (k <> uuid) by congruence.
    rewrite Huo by assumption. split; [exact H|].
    repeat split; auto; congruence.
  - intros pid p' k H I N.
    destruct (String.eqb_spec pid playerId) as [->|Np].
    + exists player. split; [exact Hp|].
      rewrite Hp' in H. injection H as <-. simpl in I.
      apply in_app_or in I. destruct I as [I | [<- | []]]; [exact I|].
      congruence.
    + rewrite Hpo in H by exact Np. now exists p'.
Qed.

Lemma createUnit_keeps_fresh e playerId unitType position uuid k :
  Obj.get k (units e) = None -> k <> uuid ->
  Obj.get k (units (fst (createUnit e playerId unitType position uuid))) = None.
Proof.
  intros Fresh N.
  destruct (createUnit_cases e playerId unitType position uuid)
    as [[-> _] | (player & Hp & L)]; [exact Fresh|].
  destruct (createUnit_sufficient e playerId unitType position uuid player Hp L)
    as (_ & _ & _ & Huo & _).
  now rewrite Huo.
Qed.

Lemma addPlayer_outlives e name faction playerId rx ry u1 u2 u3 :
  Obj.get u1 (units e) = None ->
  Obj.get u2 (units e) = None ->
  Obj.get u3 (units e) = None ->
  u1 <> u2 -> u1 <> u3 -> u2 <> u3 ->
  outlives e (fst (addPlayer e name faction playerId rx ry u1 u2 u3)).
Proof.
  intros F1 F2 F3 N12 N13 N23. unfold addPlayer.
  destruct (GameState.mapSize (state e)) as [width height]. cbv zeta. simpl fst.
  set (base := Build_Position _ _).
  set (e0 := with_players _ e).
  set (e1 := fst (createUnit e0 playerId SOLDIER _ u1)).
  set (e2 := fst (createUnit e1 playerId SOLDIER _ u2)).
  assert (F21 : Obj.get u2 (units e1) = None)
    by (apply createUnit_keeps_fresh; [exact F2|congruence]).
  assert (F31 : Obj.get u3 (units e1) = None)
    by (apply createUnit_keeps_fresh; [exact F3|congruence]).
  assert (F32 : Obj.get u3 (units e2) = None)
    by (apply createUnit_keeps_fresh; [exact F31|congruence]).
  apply outlives_trans with e0.
  { constructor.
    - intros k u H. exists u. split; [exact H|]. repeat split; auto; congruence.
    - intros pid p' k H I _. unfold e0, with_players, players in H. simpl in H.
      rewrite ObjFacts.get_set in H. destruct (String.eqb playerId pid).
      + injection H as <-. destruct I.
      + now exists p'. }
  apply outlives_trans with e1; [now apply createUnit_outlives|].
  apply outlives_trans with e2; now apply createUnit_outlives.
Qed.

Lemma attackUnit_outlives e attackerId targetId :
  outlives e (fst (attackUnit e attackerId targetId)).
Proof.
  destruct (attackUnit_cases e attackerId targetId)
    as [-> | (attacker & Ha & Da & _ & ->)];
    [apply outlives_refl|].
  apply outlives_modifyUnit.
  intros u Hu. assert (u = attacker) by congruence. subst u.
  now apply livingChange_engage.
Qed.

Lemma step_outlives e e' : step e e' -> sound e -> outlives e e'.
Proof.
  intros St S. destruct St.
  - now apply addPlayer_outlives.
  - now apply createUnit_outlives.
  - apply mutations_outlives; [apply moveUnit_mutation|exact S].
  - apply attackUnit_outlives.
  - apply mutations_outlives; [apply update_mutations|exact S].
Qed.

Lemma steps_outlives e e' : steps e e' -> sound e -> outlives e e'.
Proof.
  induction 1 as [e|e e' e'' St IH St']; intros S.
  - apply outlives_refl.
  - apply outlives_trans with e'; [now apply IH|].
    apply step_outlives; [exact St'|]. now apply (steps_sound e e').
Qed.

(** ** The mode flags *)

Lemma reachable_worldBoth : reachable worldBoth.
Proof.
  apply step_reachable with worldMoving; [|apply step_attackUnit].
  apply step_reachable with worldAB; [|apply step_moveUnit].
  apply reachable_worldAB.
Qed.

Lemma reachable_worldFallen : reachable worldFallen.
Proof.
  apply steps_reachable with worldAB; [apply reachable_worldAB|].
  apply steps_updatesAt.
Qed.

(** C2, as stated, does not hold.  An attack order does not clear
    [isMoving]: in [worldBoth] the living soldier [a1] is both moving
    and attacking.  And death clears no flag: in [worldFallen] the dead
    soldier [b1] is still attacking. *)
Lemma mode_flags_not_invariant :
  ~ (forall e k u,
        reachable e -> Obj.get k (units e) = Some u -> modesConsistent u = true)
  /\ (exists u, Obj.get "a1" (units worldBoth) = Some u /\
                Unit.isDead u = false /\ Unit.isMoving u = true /\
                Unit.isAttacking u = true)
  /\ (exists u, Obj.get "b1" (units worldFallen) = Some u /\
                Unit.isDead u = true /\ Unit.isAttacking u = true).
Proof.
  assert (A : exists u, Obj.get "a1" (units worldBoth) = Some u /\
                Unit.isDead u = false /\ Unit.isMoving u = true /\
                Unit.isAttacking u = true).
  { eexists. split; [vm_compute; reflexivity|]. repeat split. }
  split; [|split; [exact A|]].
  - intros H. destruct A as (u & Hu & D & M & At).
    specialize (H worldBoth "a1" u reachable_worldBoth Hu).
    unfold modesConsistent in H. rewrite D, M, At in H. discriminate.
  - eexists. split; [vm_compute; reflexivity|]. split; reflexivity.
Qed.

(** What a mutation does to one unit. *)
Lemma mutation_modes e e' :
  mutation e e' -> keyed e ->
  forall k u,
    Obj.get k (units e) = Some u ->
    exists u',
      Obj.get k (units e') = Some u' /\
      (bothModes u = false -> bothModes u' = false) /\
      (Unit.isDead u = true -> u' = u).
Proof.
  intros M K.
  destruct M as [e k f Hf | e k u Hu D | e g t | e path | e deltaTime | e pid rid r Hr];
    intros k' u' H; try (exists u'; repeat split; auto; exact H).
  - rewrite units_modifyUnit, ObjFacts.get_modify, H.
    destruct (String.eqb_spec k k') as [->|N]; simpl; [|eauto].
    exists (f u'). destruct (Hf u' H) as [L B].
    split; [reflexivity|]. split; [auto|].
    intros D. rewrite (lc_alive _ _ L) in D. discriminate.
  - rewrite units_modifyPlayer, units_modifyUnit, ObjFacts.get_modify, H.
    destruct (String.eqb_spec k k') as [->|N]; simpl; [|eauto].
    exists (die u'). split; [reflexivity|]. split; [auto|].
    intros D'. congruence.
Qed.

Lemma mutations_modes e e' :
  mutations e e' -> sound e ->
  forall k u,
    Obj.get k (units e) = Some u ->
    exists u',
      Obj.get k (units e') = Some u' /\
      (bothModes u = false -> bothModes u' = false) /\
      (Unit.isDead u = true -> u' = u).
Proof.
  induction 1 as [e|e e' M|e e' e'' M1 IH1 M2 IH2]; intros S k u H.
  - exists u. auto.
  - now apply (mutation_modes e e' M (sound_keyed e S)).
  - destruct (IH1 S k u H) as (u1 & H1 & B1 & D1).
    destruct (IH2 (mutations_sound _ _ M1 S) k u1 H1) as (u2 & H2 & B2 & D2).
    exists u2. split; [exact H2|]. split; [auto|].
    intros D. rewrite <- (D1 D). apply D2. now rewrite (D1 D).
Qed.

Lemma modesConsistent_alive u :
  Unit.isDead u = false -> modesConsistent u = negb (bothModes u).
Proof. intros D. unfold modesConsistent, bothModes. now rewrite D. Qed.

(** C2, amended, unit by unit and whatever the flags of the other
    units are.  [createUnit] writes no unit there was, and its new unit
    has the three flags clear.  [moveUnit] writes no unit but its own,
    which it leaves alive, moving and not attacking.  [attackUnit]
    writes no unit but the attacker, which it leaves alive and
    attacking with [isMoving] as it was: the attacker ends with both
    flags exactly when it was moving.  [update()], auto-engagement
    included, never gives both flags to a unit that had not both.  No
    call writes the record of a dead unit, so a dead unit with neither
    flag stays so; only a unit that dies during the call, whose flags
    death leaves as they are, can end dead and flagged. *)
Theorem exclusive_modes_preserved (e : GameEngine) :
  reachable e ->
  (forall playerId unitType position uuid,
      Obj.get uuid (units e) = None ->
      let e' := fst (createUnit e playerId unitType position uuid) in
      (forall k u, Obj.get k (units e) = Some u -> Obj.get k (units e') = Some u) /\
      (snd (createUnit e playerId unitType position uuid) = Returns (Some uuid) ->
       exists unit,
         Obj.get uuid (units e') = Some unit /\
         Unit.isDead unit = false /\ Unit.isMoving unit = false /\
         Unit.isAttacking unit = false /\ modesConsistent unit = true)) /\
  (forall unitId targetPosition k u,
      Obj.get k (units e) = Some u ->
      exists u',
        Obj.get k (units (fst (moveUnit e unitId targetPosition))) = Some u' /\
        (u' = u \/
         k = unitId /\ Unit.isDead u = false /\ Unit.isDead u' = false /\
         Unit.isMoving u' = true /\ Unit.isAttacking u' = false) /\
        (bothModes u = false -> bothModes u' = false) /\
        (modesConsistent u = true -> modesConsistent u' = true)) /\
  (forall attackerId targetId k u,
      Obj.get k (units e) = Some u ->
      exists u',
        Obj.get k (units (fst (attackUnit e attackerId targetId))) = Some u' /\
        (u' = u \/
         k = attackerId /\ Unit.isDead u = false /\ Unit.isDead u' = false /\
         Unit.isAttacking u' = true /\ Unit.isMoving u' = Unit.isMoving u) /\
        (k <> attackerId \/ Unit.isMoving u = false ->
         (bothModes u = false -> bothModes u' = false) /\
         (modesConsistent u = true -> modesConsistent u' = true))) /\
  (forall currentTime k u,
      Obj.get k (units e) = Some u ->
      exists u',
        Obj.get k (units (update e currentTime)) = Some u' /\
        (bothModes u = false -> bothModes u' = false) /\
        (Unit.isDead u = true -> u' = u) /\
        (modesConsistent u = true -> Unit.isDead u' = Unit.isDead u ->
         modesConsistent u' = true)).
Proof.
  intros R. pose proof (reachable_sound e R) as S.
  split; [|split; [|split]].
  - intros playerId unitType position uuid Fresh e'. subst e'.
    destruct (createUnit_cases e playerId unitType position uuid)
      as [[E N] | (player & Hp & L)].
    + rewrite E. split; [auto|]. intros Rt. contradiction.
    + destruct (createUnit_sufficient e playerId unitType position uuid player Hp L)
        as (_ & _ & _ & Huo & (unit & Hu & _ & _ & _ & _ & _ & _ & D & M & A) & _).
      split.
      * intros k u H. rewrite Huo; [exact H|]. congruence.
      * intros _. exists unit. repeat split; auto.
        unfold modesConsistent. now rewrite D, M.
  - intros unitId targetPosition k u H.
    destruct (moveUnit_cases e unitId targetPosition)
      as [-> | [(unit & Hu & D & ->) | (_ & _ & ->)]];
      try (exists u; repeat split; auto; fail).
    simpl fst. rewrite units_modifyUnit, ObjFacts.get_modify, H.
    destruct (String.eqb_spec unitId k) as [<-|N]; simpl.
    2:{ exists u. repeat split; auto. }
    assert (u = unit) by congruence. subst u.
    exists (ordered targetPosition unit). split; [reflexivity|].
    split; [right; repeat split; auto|]. split; [reflexivity|].
    intros _. unfold modesConsistent. simpl. now rewrite D.
  - intros attackerId targetId k u H.
    destruct (attackUnit_cases e attackerId targetId)
      as [-> | (attacker & Ha & Da & _ & ->)];
      [exists u; repeat split; auto|].
    simpl fst. rewrite units_modifyUnit, ObjFacts.get_modify, H.
    destruct (String.eqb_spec attackerId k) as [<-|N]; simpl.
    2:{ exists u. repeat split; auto. }
    assert (u = attacker) by congruence. subst u.
    exists (engage targetId attacker). split; [reflexivity|].
    split; [right; repeat split; auto|].
    intros [N | M]; [congruence|].
    assert (B : bothModes (engage targetId attacker) = false)
      by (unfold bothModes; simpl; now rewrite M).
    split; [auto|]. intros _.
    rewrite modesConsistent_alive by exact Da. now rewrite B.
  - intros currentTime k u H.
    destruct (mutations_modes e _ (update_mutations e currentTime) S k u H)
      as (u' & H' & B & D).
    exists u'. split; [exact H'|]. split; [exact B|]. split; [exact D|].
    intros C E. destruct (Unit.isDead u) eqn:Du.
    + now rewrite (D eq_refl).
    + rewrite modesConsistent_alive in C by exact Du.
      rewrite modesConsistent_alive by exact E.
      rewrite B; [reflexivity|]. now destruct (bothModes u).
Qed.

(** In [worldBoth] soldier [a1] is both moving and attacking.  The
    other units are not, and a call of [update()] leaves them so:
    [a2] and [b1] start to attack each other and neither moves. *)
Lemma exclusive_modes_preserved_witness :
  exists u u',
    Obj.get "a2" (units worldBoth) = Some u /\
    bothModes u = false /\
    Obj.get "a2" (units (update worldBoth (T0 + 16))) = Some u' /\
    bothModes u' = false.
Proof.
  assert (H : exists u, Obj.get "a2" (units worldBoth) = Some u /\
                        bothModes u = false).
  { eexists. split; [vm_compute; reflexivity|]. reflexivity. }
  destruct H as (u & H & B).
  destruct (exclusive_modes_preserved worldBoth reachable_worldBoth)
    as (_ & _ & _ & U).
  destruct (U (T0 + 16) "a2" u H) as (u' & H' & B' & _).
  exists u, u'. auto.
Defined.

(** * Further properties of the engine *)

(** ** The move and attack commands *)

(** X1: what a move order does, by what the id reads as in the unit
    map.  For a living unit, [moveUnit] returns [true], replaces the
    unit's path by the one waypoint, sets [isMoving], clears
    [isAttacking] and [targetId], and changes nothing else: no other
    field of the unit, no other unit, no player, no resource, no clock.
    For an id that names no unit but reads as an object (a member of
    [Object.prototype], or the array a move order has left there) it
    returns [true] as well and leaves the whole state of the engine as
    it was; the writes land on that object, and when the id is
    [__proto__] the object is [Object.prototype], which then holds the
    path of the one waypoint.  For an id that reads as [true] it
    throws.  In every other case, a dead unit included, it returns
    [false].  Whenever it does not return [true] the engine is
    untouched. *)
Theorem moveUnit_effect (e : GameEngine) (unitId : string) (targetPosition : Position) :
  (snd (moveUnit e unitId targetPosition) = Returns true <->
   (exists unit, Obj.get unitId (units e) = Some unit /\ Unit.isDead unit = false) \/
   read e (units e) unitId = Foreign) /\
  (snd (moveUnit e unitId targetPosition) = Throws <->
   read e (units e) unitId = Primitive) /\
  (snd (moveUnit e unitId targetPosition) <> Returns true ->
   fst (moveUnit e unitId targetPosition) = e) /\
  (forall unit,
      Obj.get unitId (units e) = Some unit -> Unit.isDead unit = false ->
      let e' := fst (moveUnit e unitId targetPosition) in
      Obj.get unitId (units e') =
        Some {| Unit.id := Unit.id unit; Unit.type := Unit.type unit;
                Unit.position := Unit.position unit; Unit.health := Unit.health unit;
                Unit.maxHealth := Unit.maxHealth unit; Unit.attack := Unit.attack unit;
                Unit.defense := Unit.defense unit; Unit.range := Unit.range unit;
                Unit.speed := Unit.speed unit; Unit.playerId := Unit.playerId unit;
                Unit.targetId := None; Unit.path := Some [targetPosition];
                Unit.isDead := false; Unit.isMoving := true;
                Unit.isAttacking := false;
                Unit.canAttackAir := Unit.canAttackAir unit;
                Unit.canAttackGround := Unit.canAttackGround unit |} /\
      (forall k, k <> unitId -> Obj.get k (units e') = Obj.get k (units e)) /\
      Obj.keys (units e') = Obj.keys (units e) /\
      players e' = players e /\ resources e' = resources e /\
      gameTime e' = gameTime e /\ lastUpdateTime e' = lastUpdateTime e /\
      prototypePath e' = prototypePath e) /\
  (read e (units e) unitId = Foreign ->
   let e' := fst (moveUnit e unitId targetPosition) in
   state e' = state e /\ lastUpdateTime e' = lastUpdateTime e /\
   resourceSpots e' = resourceSpots e /\
   prototypePath e' =
     if String.eqb unitId "__proto__" then Some [targetPosition]
     else prototypePath e) /\
  (read e (units e) "constructor" = Foreign \/
   exists unit, Obj.get "constructor" (units e) = Some unit).
Proof.
  split; [|split; [|split; [|split; [|split]]]].
  - unfold moveUnit.
    destruct (read_cases e (units e) unitId)
      as [(unit & H & R) | (H & [R | [R | R]])]; rewrite R.
    + destruct (Unit.isDead unit) eqn:D; simpl.
      * split; [discriminate|]. intros [(u & Hu & Du) | F]; congruence.
      * split; [|reflexivity]. intros _. left. now exists unit.
    + split; [auto|]. intros _. now destruct (String.eqb unitId "__proto__").
    + simpl. split; [discriminate|].
      intros [(u & Hu & _) | F]; congruence.
    + simpl. split; [discriminate|].
      intros [(u & Hu & _) | F]; congruence.
  - unfold moveUnit.
    destruct (read e (units e) unitId) as [unit| | |] eqn:R.
    + destruct (Unit.isDead unit); simpl; split; discriminate.
    + destruct (String.eqb unitId "__proto__"); simpl; split; discriminate.
    + simpl. split; reflexivity.
    + simpl. split; discriminate.
  - destruct (moveUnit_cases e unitId targetPosition)
      as [-> | [(unit & _ & _ & ->) | (_ & _ & ->)]]; [reflexivity| |];
      simpl; intros N; now contradiction N.
  - intros unit H D e'. subst e'. unfold moveUnit.
    rewrite (read_own _ _ _ _ H), D. simpl fst.
    rewrite units_modifyUnit. split.
    + rewrite ObjFacts.get_modify_same, H. rewrite <- D. reflexivity.
    + split; [intros k N; now apply ObjFacts.get_modify_other|].
      split; [apply ObjFacts.keys_modify|]. repeat split.
  - intros R e'. subst e'. unfold moveUnit. rewrite R.
    destruct (String.eqb unitId "__proto__"); repeat split.
  - destruct (Obj.get "constructor" (units e)) as [unit|] eqn:H.
    + right. now exists unit.
    + left. now rewrite (read_absent _ _ _ H).
Qed.

(** X2: a move order replaces the one before it: two orders in a row
    leave the engine exactly as the second one alone does, so
    repeating an order changes nothing. *)
Theorem moveUnit_last_order_wins
    (e : GameEngine) (unitId : string) (first second : Position) :
  moveUnit (fst (moveUnit e unitId first)) unitId second = moveUnit e unitId second.
Proof.
  destruct (moveUnit_cases e unitId first)
    as [-> | [(unit & H & D & ->) | (H & -> & ->)]]; [reflexivity| |].
  - simpl fst.
    assert (R : moveUnit e unitId second =
                (modifyUnit unitId (ordered second) e, Returns true)).
    { unfold moveUnit. now rewrite (read_own _ _ _ _ H), D. }
    rewrite R. unfold moveUnit, read. rewrite units_modifyUnit.
    rewrite ObjFacts.get_modify_same, H. simpl. rewrite D.
    unfold modifyUnit, with_units, with_state, units. simpl.
    rewrite modify_modify. reflexivity.
  - simpl fst. unfold moveUnit, read.
    change (units (with_prototypePath (Some [first]) e)) with (units e).
    rewrite H. reflexivity.
Qed.

(** X3: [attackUnit] returns [true] exactly when the attacker is a
    living unit and the target is either a living unit of another
    player, of a category the attacker can engage, or no unit at all
    but an id that reads as an object or as [true] in the unit map,
    which passes for a ground unit of nobody, the attacker being able
    to attack ground; in range or not plays no part.  It then records
    the target and sets [isAttacking] on the attacker, leaving its path
    and [isMoving] as they were, and changes nothing else.  When it
    returns [false] the engine is untouched. *)
Theorem attackUnit_effect (e : GameEngine) (attackerId targetId : string) :
  (snd (attackUnit e attackerId targetId) = true <->
   exists attacker,
     Obj.get attackerId (units e) = Some attacker /\
     Unit.isDead attacker = false /\
     ((exists target,
          Obj.get targetId (units e) = Some target /\
          Unit.isDead target = false /\
          Unit.playerId attacker <> Unit.playerId target /\
          canUnitAttackTarget attacker target = true) \/
      (Obj.get targetId (units e) = None /\
       (read e (units e) targetId = Foreign \/
        read e (units e) targetId = Primitive) /\
       Unit.canAttackGround attacker = true))) /\
  (snd (attackUnit e attackerId targetId) = false ->
   fst (attackUnit e attackerId targetId) = e) /\
  (snd (attackUnit e attackerId targetId) = true ->
   forall attacker,
     Obj.get attackerId (units e) = Some attacker ->
     let e' := fst (attackUnit e attackerId targetId) in
     Obj.get attackerId (units e') =
       Some {| Unit.id := Unit.id attacker; Unit.type := Unit.type attacker;
               Unit.position := Unit.position attacker;
               Unit.health := Unit.health attacker;
               Unit.maxHealth := Unit.maxHealth attacker;
               Unit.attack := Unit.attack attacker;
               Unit.defense := Unit.defense attacker;
               Unit.range := Unit.range attacker;
               Unit.speed := Unit.speed attacker;
               Unit.playerId := Unit.playerId attacker;
               Unit.targetId := Some targetId; Unit.path := Unit.path attacker;
               Unit.isDead := false; Unit.isMoving := Unit.isMoving attacker;
               Unit.isAttacking := true;
               Unit.canAttackAir := Unit.canAttackAir attacker;
               Unit.canAttackGround := Unit.canAttackGround attacker |} /\
     (forall k, k <> attackerId -> Obj.get k (units e') = Obj.get k (units e)) /\
     Obj.keys (units e') = Obj.keys (units e) /\
     players e' = players e /\ resources e' = resources e /\
     gameTime e' = gameTime e /\ lastUpdateTime e' = lastUpdateTime e /\
     prototypePath e' = prototypePath e).
Proof.
  assert (Eng : forall attacker,
             engageable e attacker targetId <->
             (exists target,
                 Obj.get targetId (units e) = Some target /\
                 Unit.isDead target = false /\
                 Unit.playerId attacker <> Unit.playerId target /\
                 canUnitAttackTarget attacker target = true) \/
             (Obj.get targetId (units e) = None /\
              (read e (units e) targetId = Foreign \/
               read e (units e) targetId = Primitive) /\
              Unit.canAttackGround attacker = true)).
  { intros attacker. unfold engageable.
    destruct (read_cases e (units e) targetId)
      as [(target & H & R) | (H & [R | [R | R]])]; rewrite R.
    - split.
      + intros (D & N & C). left. now exists target.
      + intros [(t & Ht & D & N & C) | (F & _)]; [|congruence].
        assert (t = target) by congruence. subst t. auto.
    - split; [auto|]. intros [(t & Ht & _) | (_ & _ & G)]; [congruence|exact G].
    - split; [auto|]. intros [(t & Ht & _) | (_ & _ & G)]; [congruence|exact G].
    - split; [intros []|].
      intros [(t & Ht & _) | (_ & [F | F] & _)]; congruence. }
  destruct (attackUnit_cases e attackerId targetId)
    as [E | (attacker & Ha & Da & En & E)].
  - split; [|split; [now rewrite E|rewrite E; discriminate]].
    rewrite E. simpl. split; [discriminate|].
    intros (attacker & Ha & Da & En). apply Eng in En.
    destruct (attackUnit_cases e attackerId targetId)
      as [_ | (attacker' & Ha' & _ & _ & E')].
    + exfalso. revert E. unfold attackUnit, engageable in *.
      rewrite (read_own _ _ _ _ Ha), Da.
      destruct (read e (units e) targetId) as [target| | |].
      * destruct En as (Dt & Np & C). rewrite Dt, C. simpl.
        apply String.eqb_neq in Np. rewrite Np. discriminate.
      * rewrite En. discriminate.
      * rewrite En. discriminate.
      * destruct En.
    + rewrite E' in E. discriminate.
  - rewrite E. simpl. split; [|split; [discriminate|]].
    + split; [|reflexivity]. intros _. exists attacker.
      split; [exact Ha|]. split; [exact Da|]. now apply Eng.
    + intros _ attacker' Ha'. assert (attacker' = attacker) by congruence. subst.
      rewrite units_modifyUnit. split.
      * rewrite ObjFacts.get_modify_same, Ha. rewrite <- Da. reflexivity.
      * split; [intros k N; now apply ObjFacts.get_modify_other|].
        split; [apply ObjFacts.keys_modify|]. repeat split.
Qed.

(** ** Invariants of a tick

    [update()] changes the world through eight kinds of writes: the
    engagement of a target found by the auto-target scan, the movement
    block, the same block run on the path [Object.prototype] holds, the
    lapse of an attack whose target is gone, dead or out of the
    attacker's category, the chase of a target out of range, a hit, the
    respawn pass, and the payment of a node.  A property kept by each
    of them is kept by the unit pass, the respawn pass and the
    collection pass run in a row, and by what is run of them when the
    unit pass throws. *)

Section TickInvariant.
Variables (deltaTime : float) (P : GameEngine -> Prop).

Hypothesis P_engage : forall e attackerId targetId attacker,
  P e ->
  Obj.get attackerId (units e) = Some attacker ->
  Unit.isDead attacker = false ->
  engageable e attacker targetId ->
  P (modifyUnit attackerId (engage targetId) e).

Hypothesis P_movement : forall e unitId unit,
  P e ->
  Obj.get unitId (units e) = Some unit -> Unit.isDead unit = false ->
  P (modifyUnit unitId (handleMovement deltaTime) e).

Hypothesis P_borrowed : forall e unitId unit path,
  P e ->
  Obj.get unitId (units e) = Some unit -> Unit.isDead unit = false ->
  Unit.path unit = None -> prototypePath e = Some path ->
  P (with_prototypePath (Unit.path (borrowing deltaTime path unit))
       (modifyUnit unitId
          (fun u => Unit.with_path None (borrowing deltaTime path u)) e)).

Hypothesis P_lapse : forall e unitId unit targetId,
  P e ->
  Obj.get unitId (units e) = Some unit -> Unit.isDead unit = false ->
  Unit.isAttacking unit = true -> Unit.targetId unit = Some targetId ->
  P (modifyUnit unitId clearAttack e).

Hypothesis P_chase : forall e unitId unit targetId target,
  P e ->
  Obj.get unitId (units e) = Some unit -> Unit.isDead unit = false ->
  Unit.isAttacking unit = true -> Unit.targetId unit = Some targetId ->
  Obj.get targetId (units e) = Some target -> Unit.isDead target = false ->
  let dx := x (Unit.position target) - x (Unit.position unit) in
  let dy := y (Unit.position target) - y (Unit.position unit) in
  (distanceOf dx dy <=? Unit.range unit * 20) = false ->
  P (modifyUnit unitId (advance deltaTime dx dy (distanceOf dx dy)) e).

Hypothesis P_damage : forall e unitId unit targetId target,
  P e ->
  Obj.get unitId (units e) = Some unit -> Unit.isDead unit = false ->
  Unit.isAttacking unit = true -> Unit.targetId unit = Some targetId ->
  Obj.get targetId (units e) = Some target -> Unit.isDead target = false ->
  canUnitAttackTarget unit target = true ->
  F64.gtb (F64.Math_floor (gameTime e))
          (F64.Math_floor (gameTime e - deltaTime)) = true ->
  P (fst (dealDamage e unit targetId target)).

Hypothesis P_respawn : forall e, P e -> P (updateResources deltaTime e).

Hypothesis P_collect : forall e resourceId playerId resource player unit,
  P e ->
  Obj.get resourceId (resources e) = Some resource ->
  Obj.get playerId (players e) = Some player ->
  nearbyUnit e player resource = Some unit ->
  P (modifyResource resourceId (Resource.with_isCollected true)
       (modifyPlayer playerId
          (fun p => Player.with_resources
                      (Player.resources p + Resource.amount resource) p) e)).

Lemma tick_checkForAutoTarget e unit :
  P e -> P (checkForAutoTarget e unit).
Proof.
  intros H. unfold checkForAutoTarget.
  destruct (Unit.isAttacking unit || Unit.isMoving unit); [exact H|].
  destruct (nearestEnemy e unit) as [enemy|]; [|exact H].
  destruct (attackUnit_cases e (Unit.id unit) (Unit.id enemy))
    as [-> | (attacker & Ha & Da & En & ->)]; [exact H|].
  simpl. now apply P_engage with attacker.
Qed.

Lemma tick_moveAlong e unitId :
  P e ->
  (forall u, Obj.get unitId (units e) = Some u -> Unit.isDead u = false) ->
  P (moveAlong deltaTime e unitId).
Proof.
  intros H Alive.
  destruct (moveAlong_cases deltaTime e unitId)
    as [-> | (unit & Hu & [-> | (path & Pa & Pp & ->)])]; [exact H| |].
  - apply P_movement with unit; auto.
  - apply P_borrowed; auto.
Qed.

Lemma tick_handleCombat e unitId :
  P e ->
  (forall u, Obj.get unitId (units e) = Some u -> Unit.isDead u = false) ->
  P (fst (handleCombat deltaTime e unitId)).
Proof.
  intros H Alive.
  destruct (handleCombat_cases deltaTime e unitId)
    as [-> | (unit & targetId & Hu & A & T & [-> | (target & Ht & Dt & C & K)])];
    [exact H| |].
  - simpl. apply P_lapse with unit targetId; auto.
  - cbv zeta in K. destruct K as [[R ->] | (R & G & ->)].
    + simpl. eapply P_chase; eauto.
    + apply P_damage with unitId; auto.
Qed.

Lemma tick_updateUnit e unitId : P e -> P (fst (updateUnit deltaTime e unitId)).
Proof.
  intros H. unfold updateUnit.
  destruct (Obj.get unitId (units e)) as [unit|] eqn:Hu; [|exact H].
  destruct (Unit.isDead unit) eqn:D; [exact H|].
  pose proof (checkForAutoTarget_isDead e unit unitId) as Hd.
  rewrite Hu in Hd. simpl in Hd. rewrite D in Hd.
  pose proof (tick_checkForAutoTarget e unit H) as H1.
  set (e1 := checkForAutoTarget e unit) in *.
  assert (A1 : forall u, Obj.get unitId (units e1) = Some u -> Unit.isDead u = false).
  { intros u Hu1. rewrite Hu1 in Hd. simpl in Hd. congruence. }
  apply tick_handleCombat.
  - now apply tick_moveAlong.
  - intros u Hu2.
    pose proof (moveAlong_isDead deltaTime e1 unitId unitId) as Hm.
    rewrite Hu2, Hd in Hm. simpl in Hm. congruence.
Qed.

Lemma tick_forEach {A}
    (f : GameEngine -> A -> GameEngine * Result void) (l : list A) :
  (forall e a, P e -> P (fst (f e a))) ->
  forall e, P e -> P (fst (forEach f l e)).
Proof.
  intros Hf. induction l as [|a l IH]; intros e H; simpl; [exact H|].
  pose proof (Hf e a H) as H1.
  destruct (f e a) as [e1 [r|]]; simpl in *; [now apply IH|exact H1].
Qed.

Lemma tick_fold {A} (f : GameEngine -> A -> GameEngine) (l : list A) :
  (forall e a, P e -> P (f e a)) -> forall e, P e -> P (fold_left f l e).
Proof.
  intros Hf. induction l as [|a l IH]; intros e H; simpl; [exact H|].
  apply IH. now apply Hf.
Qed.

Lemma tick_collectResources e : P e -> P (collectResources e).
Proof.
  unfold collectResources. apply tick_fold. clear e.
  intros e resourceId H. unfold collectResource.
  destruct (Obj.get resourceId (resources e)) as [resource|]; [|exact H].
  destruct (Resource.isCollected resource); [exact H|].
  revert H. apply tick_fold. clear e resource.
  intros e playerId H. unfold collectFor.
  destruct (Obj.get resourceId (resources e)) as [resource|] eqn:Hr; [|exact H].
  destruct (Obj.get playerId (players e)) as [player|] eqn:Hp; [|exact H].
  destruct (nearbyUnit e player resource) as [unit|] eqn:N; [|exact H].
  now apply P_collect with player unit.
Qed.

Lemma tick_updateUnits e : P e -> P (fst (updateUnits deltaTime e)).
Proof.
  intros H. unfold updateUnits. apply tick_forEach; [|exact H].
  intros e0 k. apply tick_updateUnit.
Qed.

Lemma tick_passes e : P e -> P (fst (passes deltaTime e)).
Proof.
  intros H. unfold passes.
  pose proof (tick_updateUnits e H) as H1.
  destruct (updateUnits deltaTime e) as [e1 [r|]]; simpl in *; [|exact H1].
  now apply tick_collectResources, P_respawn.
Qed.
End TickInvariant.

(** The clock is advanced first; the three passes follow. *)
Lemma update_passes e currentTime :
  update e currentTime =
  let deltaTime := (currentTime - lastUpdateTime e) / 1000 in
  fst (passes deltaTime (advanceClock e currentTime)).
Proof. reflexivity. Qed.

(** ** What a tick keeps *)

Lemma unitKept_refl u : unitKept u u.
Proof. constructor; auto. exists 0%nat. now destruct (Unit.path u). Qed.

Lemma unitKept_trans u1 u2 u3 : unitKept u1 u2 -> unitKept u2 u3 -> unitKept u1 u3.
Proof.
  intros [] []. constructor; try congruence; auto.
  destruct uk_path0 as [n Hn]. destruct uk_path1 as [m Hm].
  exists (n + m)%nat. rewrite Hm, Hn.
  destruct (Unit.path u1) as [l|]; simpl; [|reflexivity].
  now rewrite skipn_skipn, Nat.add_comm.
Qed.

Lemma unitKept_same_path u u' :
  Unit.id u' = Unit.id u -> Unit.type u' = Unit.type u ->
  Unit.playerId u' = Unit.playerId u ->
  Unit.maxHealth u' = Unit.maxHealth u -> Unit.attack u' = Unit.attack u ->
  Unit.defense u' = Unit.defense u -> Unit.range u' = Unit.range u ->
  Unit.speed u' = Unit.speed u ->
  Unit.canAttackAir u' = Unit.canAttackAir u ->
  Unit.canAttackGround u' = Unit.canAttackGround u ->
  (Unit.isDead u = true -> Unit.isDead u' = true) ->
  Unit.isMoving u' = Unit.isMoving u ->
  Unit.path u' = Unit.path u ->
  unitKept u u'.
Proof.
  intros. constructor; auto; [congruence|].
  exists 0%nat. rewrite H11. now destruct (Unit.path u).
Qed.

Lemma unitKept_engage targetId u : unitKept u (engage targetId u).
Proof. apply unitKept_same_path; auto. Qed.

Lemma unitKept_clearAttack u : unitKept u (clearAttack u).
Proof. apply unitKept_same_path; auto. Qed.

Lemma unitKept_advance deltaTime dx dy distance u :
  unitKept u (advance deltaTime dx dy distance u).
Proof. apply unitKept_same_path; auto. Qed.

Lemma unitKept_with_health h u : unitKept u (Unit.with_health h u).
Proof. apply unitKept_same_path; auto. Qed.

Lemma unitKept_die u : unitKept u (die u).
Proof. apply unitKept_same_path; auto. Qed.

Lemma unitKept_handleMovement deltaTime u : unitKept u (handleMovement deltaTime u).
Proof.
  unfold handleMovement.
  destruct (Unit.path u) as [[|targetPos rest]|] eqn:Hp;
    try apply unitKept_refl.
  destruct (Unit.isMoving u) eqn:M; [|apply unitKept_refl].
  destruct (_ <? 1).
  - assert (K : unitKept u (Unit.with_path (Some rest) u)).
    { constructor; auto. exists 1%nat. simpl. now rewrite Hp. }
    destruct rest; [|exact K].
    eapply unitKept_trans; [exact K|].
    constructor; auto; try discriminate.
    exists 0%nat. reflexivity.
  - apply unitKept_advance.
Qed.

Lemma filter_all {A} (l : list A) : l = filter (fun _ => true) l.
Proof. induction l as [|a l IH]; simpl; congruence. Qed.

Lemma filter_twice {A} (f g : A -> bool) (l : list A) :
  filter g (filter f l) = filter (fun k => f k && g k) l.
Proof.
  induction l as [|a l IH]; simpl; [reflexivity|].
  destruct (f a); simpl; [|exact IH].
  destruct (g a); simpl; congruence.
Qed.

Lemma playerKept_refl p : playerKept p p.
Proof. constructor; auto. exists (fun _ => true). apply filter_all. Qed.

Lemma playerKept_trans p1 p2 p3 : playerKept p1 p2 -> playerKept p2 p3 -> playerKept p1 p3.
Proof.
  intros [] []. constructor; try congruence.
  destruct pk_units0 as [f Hf]. destruct pk_units1 as [g Hg].
  exists (fun k => f k && g k). rewrite Hg, Hf. apply filter_twice.
Qed.

Lemma resourceKept_refl r : resourceKept r r.
Proof. constructor; auto. Qed.

Lemma resourceKept_trans r1 r2 r3 :
  resourceKept r1 r2 -> resourceKept r2 r3 -> resourceKept r1 r3.
Proof. intros [] []. constructor; congruence. Qed.

Lemma tickKeeps_refl e : tickKeeps e e.
Proof.
  constructor; auto.
  - intros k u H. exists u. split; [exact H|apply unitKept_refl].
  - intros k p H. exists p. split; [exact H|apply playerKept_refl].
  - intros k r H. exists r. split; [exact H|apply resourceKept_refl].
Qed.

Lemma tickKeeps_trans e1 e2 e3 : tickKeeps e1 e2 -> tickKeeps e2 e3 -> tickKeeps e1 e3.
Proof.
  intros [] []. constructor; try congruence.
  - intros k u H. destruct (tk_units0 k u H) as (u2 & H2 & K2).
    destruct (tk_units1 k u2 H2) as (u3 & H3 & K3).
    exists u3. split; [exact H3|]. now apply unitKept_trans with u2.
  - intros k p H. destruct (tk_players0 k p H) as (p2 & H2 & K2).
    destruct (tk_players1 k p2 H2) as (p3 & H3 & K3).
    exists p3. split; [exact H3|]. now apply playerKept_trans with p2.
  - intros k r H. destruct (tk_resources0 k r H) as (r2 & H2 & K2).
    destruct (tk_resources1 k r2 H2) as (r3 & H3 & K3).
    exists r3. split; [exact H3|]. now apply resourceKept_trans with r2.
Qed.

Lemma get_modify_kept {V} (R : V -> V -> Prop) (k : string) (f : V -> V) (o : Obj.t V) :
  (forall v, R v v) -> (forall v, R v (f v)) ->
  forall k' v, Obj.get k' o = Some v ->
               exists v', Obj.get k' (Obj.modify k f o) = Some v' /\ R v v'.
Proof.
  intros Rr Rf k' v H. rewrite ObjFacts.get_modify, H.
  destruct (String.eqb k k'); simpl; eauto.
Qed.

Lemma tickKeeps_modifyUnit e k f :
  (forall u, unitKept u (f u)) -> tickKeeps e (modifyUnit k f e).
Proof.
  intros Hf. constructor; auto.
  - rewrite units_modifyUnit. apply ObjFacts.keys_modify.
  - rewrite units_modifyUnit.
    apply get_modify_kept; [apply unitKept_refl|exact Hf].
  - intros k' p H. exists p. split; [exact H|apply playerKept_refl].
  - intros k' r H. exists r. split; [exact H|apply resourceKept_refl].
Qed.

Lemma playerKept_strike ident p : playerKept p (strike ident p).
Proof. constructor; auto. now eexists. Qed.

Lemma tickKeeps_modifyPlayer e k f :
  (forall p, playerKept p (f p)) -> tickKeeps e (modifyPlayer k f e).
Proof.
  intros Hf. constructor; auto.
  - rewrite players_modifyPlayer. apply ObjFacts.keys_modify.
  - intros k' u H. exists u. split; [exact H|apply unitKept_refl].
  - rewrite players_modifyPlayer.
    apply get_modify_kept; [apply playerKept_refl|exact Hf].
  - intros k' r H. exists r. split; [exact H|apply resourceKept_refl].
Qed.

Lemma tickKeeps_modifyResource e k f :
  (forall r, resourceKept r (f r)) -> tickKeeps e (modifyResource k f e).
Proof.
  intros Hf. constructor; auto.
  - rewrite resources_modifyResource. apply ObjFacts.keys_modify.
  - intros k' u H. exists u. split; [exact H|apply unitKept_refl].
  - intros k' p H. exists p. split; [exact H|apply playerKept_refl].
  - rewrite resources_modifyResource.
    apply get_modify_kept; [apply resourceKept_refl|exact Hf].
Qed.

Lemma tickKeeps_dealDamage e unit targetId target :
  tickKeeps e (fst (dealDamage e unit targetId target)).
Proof.
  rewrite dealDamage_state. cbv zeta. destruct (_ <=? 0).
  - eapply tickKeeps_trans.
    + apply (tickKeeps_modifyUnit e targetId die). apply unitKept_die.
    + apply tickKeeps_modifyPlayer. apply playerKept_strike.
  - apply tickKeeps_modifyUnit. intros u. apply unitKept_with_health.
Qed.

Lemma unitKept_borrowing deltaTime path u :
  Unit.path u = None ->
  unitKept u (Unit.with_path None (borrowing deltaTime path u)).
Proof.
  intros Pa. unfold borrowing.
  destruct (unitKept_handleMovement deltaTime (Unit.with_path (Some path) u)).
  constructor; auto. exists 0%nat. now rewrite Pa.
Qed.

Lemma tickKeeps_borrowed deltaTime e unitId unit path :
  Obj.get unitId (units e) = Some unit ->
  Unit.path unit = None ->
  tickKeeps e
    (with_prototypePath (Unit.path (borrowing deltaTime path unit))
       (modifyUnit unitId
          (fun u => Unit.with_path None (borrowing deltaTime path u)) e)).
Proof.
  intros Hu Pa. constructor; auto.
  - change (units (with_prototypePath ?p ?m)) with (units m).
    rewrite units_modifyUnit. apply ObjFacts.keys_modify.
  - intros k u H. change (units (with_prototypePath ?p ?m)) with (units m).
    rewrite units_modifyUnit, ObjFacts.get_modify, H.
    destruct (String.eqb_spec unitId k) as [<-|N]; simpl.
    + eexists. split; [reflexivity|].
      assert (u = unit) by congruence. subst u.
      now apply unitKept_borrowing.
    + exists u. split; [reflexivity|apply unitKept_refl].
  - intros k p H. exists p. split; [exact H|apply playerKept_refl].
  - intros k r H. exists r. split; [exact H|apply resourceKept_refl].
Qed.

Lemma resourceKept_respawn deltaTime r : resourceKept r (respawn deltaTime r).
Proof.
  unfold respawn. destruct (Resource.isCollected r); [|apply resourceKept_refl].
  destruct (_ <=? 0); constructor; reflexivity.
Qed.

Lemma tickKeeps_updateResources deltaTime e : tickKeeps e (updateResources deltaTime e).
Proof.
  constructor; auto.
  - unfold updateResources, with_resources, resources, Obj.keys. simpl.
    rewrite map_map. reflexivity.
  - intros k u H. exists u. split; [exact H|apply unitKept_refl].
  - intros k p H. exists p. split; [exact H|apply playerKept_refl].
  - intros k r H. exists (respawn deltaTime r). split.
    + unfold updateResources, with_resources, resources. simpl.
      rewrite ObjFacts.get_map_values. fold (resources e). now rewrite H.
    + apply resourceKept_respawn.
Qed.

Lemma tickKeeps_passes deltaTime e :
  tickKeeps e (fst (passes deltaTime e)).
Proof.
  apply (tick_passes deltaTime (tickKeeps e)); try apply tickKeeps_refl;
    intros; (eapply tickKeeps_trans; [eassumption|]).
  - apply tickKeeps_modifyUnit, unitKept_engage.
  - apply tickKeeps_modifyUnit, unitKept_handleMovement.
  - now apply tickKeeps_borrowed.
  - apply tickKeeps_modifyUnit, unitKept_clearAttack.
  - apply tickKeeps_modifyUnit. intros u. apply unitKept_advance.
  - apply tickKeeps_dealDamage.
  - apply tickKeeps_updateResources.
  - match goal with
    | |- tickKeeps _ (modifyResource _ _ ?m) => apply tickKeeps_trans with m
    end.
    + apply tickKeeps_modifyPlayer. intros p. constructor; try reflexivity.
      exists (fun _ => true). apply filter_all.
    + apply tickKeeps_modifyResource. intros r. constructor; reflexivity.
Qed.

Lemma tickKeeps_update e currentTime : tickKeeps e (update e currentTime).
Proof.
  rewrite update_passes. cbv zeta.
  eapply tickKeeps_trans; [|apply tickKeeps_passes].
  constructor; auto.
  - intros k u H. exists u. split; [exact H|apply unitKept_refl].
  - intros k p H. exists p. split; [exact H|apply playerKept_refl].
  - intros k r H. exists r. split; [exact H|apply resourceKept_refl].
Qed.

Lemma clock_passes deltaTime e :
  let e' := fst (passes deltaTime e) in
  gameTime e' = gameTime e /\ lastUpdateTime e' = lastUpdateTime e.
Proof.
  apply (tick_passes deltaTime
           (fun e' => gameTime e' = gameTime e /\ lastUpdateTime e' = lastUpdateTime e));
    try (intros; assumption); [|now split].
  intros e0 unitId unit targetId target H _ _ _ _ _ _ _ _.
  rewrite dealDamage_state. cbv zeta. now destruct (_ <=? 0).
Qed.

(** X4: [update()] adds and removes nothing: the unit map, the player
    map and the resource map keep their keys, in order; the map size
    and the resource spots stay.  Game time grows by the time elapsed
    since the last call, in seconds, and the time of the call is
    remembered. *)
Theorem update_keeps_entities (e : GameEngine) (currentTime : float) :
  let e' := update e currentTime in
  Obj.keys (units e') = Obj.keys (units e) /\
  Obj.keys (players e') = Obj.keys (players e) /\
  Obj.keys (resources e') = Obj.keys (resources e) /\
  GameState.mapSize (state e') = GameState.mapSize (state e) /\
  resourceSpots e' = resourceSpots e /\
  gameTime e' = gameTime e + (currentTime - lastUpdateTime e) / 1000 /\
  lastUpdateTime e' = currentTime.
Proof.
  destruct (tickKeeps_update e currentTime) as [K1 K2 K3 K4 K5 _ _ _].
  repeat (split; [assumption|]).
  rewrite update_passes. cbv zeta.
  destruct (clock_passes ((currentTime - lastUpdateTime e) / 1000)
              (advanceClock e currentTime)) as [G L].
  rewrite G, L. split; reflexivity.
Qed.

(** X5: what [update()] can do to a unit.  It never changes its id,
    type, owner, maximal health, attack, defense, range, speed or
    capabilities; it never revives it; it never sets [isMoving]; and
    its path afterwards is what is left of the path before once some
    waypoints are taken off the front. *)
Theorem update_keeps_unit
    (e : GameEngine) (currentTime : float) (unitId : string) (unit : Unit.t) :
  Obj.get unitId (units e) = Some unit ->
  exists unit',
    Obj.get unitId (units (update e currentTime)) = Some unit' /\
    Unit.id unit' = Unit.id unit /\ Unit.type unit' = Unit.type unit /\
    Unit.playerId unit' = Unit.playerId unit /\
    Unit.maxHealth unit' = Unit.maxHealth unit /\
    Unit.attack unit' = Unit.attack unit /\
    Unit.defense unit' = Unit.defense unit /\
    Unit.range unit' = Unit.range unit /\ Unit.speed unit' = Unit.speed unit /\
    Unit.canAttackAir unit' = Unit.canAttackAir unit /\
    Unit.canAttackGround unit' = Unit.canAttackGround unit /\
    (Unit.isDead unit = true -> Unit.isDead unit' = true) /\
    (Unit.isMoving unit' = true -> Unit.isMoving unit = true) /\
    exists n, Unit.path unit' = option_map (skipn n) (Unit.path unit).
Proof.
  intros H.
  destruct (tk_units _ _ (tickKeeps_update e currentTime) unitId unit H)
    as (unit' & H' & []).
  exists unit'. repeat (split; [assumption|]). assumption.
Qed.

(** Soldier [a1] of [worldMoving], on its way to (300, 300), over one
    frame of 16 ms. *)
Lemma update_keeps_unit_witness :
  exists unit unit',
    Obj.get "a1" (units worldMoving) = Some unit /\
    Obj.get "a1" (units (update worldMoving (T0 + 16))) = Some unit' /\
    Unit.id unit' = Unit.id unit /\ Unit.type unit' = Unit.type unit /\
    Unit.playerId unit' = Unit.playerId unit /\
    Unit.maxHealth unit' = Unit.maxHealth unit /\
    Unit.attack unit' = Unit.attack unit /\
    Unit.defense unit' = Unit.defense unit /\
    Unit.range unit' = Unit.range unit /\ Unit.speed unit' = Unit.speed unit /\
    Unit.canAttackAir unit' = Unit.canAttackAir unit /\
    Unit.canAttackGround unit' = Unit.canAttackGround unit /\
    (Unit.isDead unit = true -> Unit.isDead unit' = true) /\
    (Unit.isMoving unit' = true -> Unit.isMoving unit = true) /\
    exists n, Unit.path unit' = option_map (skipn n) (Unit.path unit).
Proof.
  assert (H : exists unit, Obj.get "a1" (units worldMoving) = Some unit)
    by (eexists; vm_compute; reflexivity).
  destruct H as (unit & H).
  destruct (update_keeps_unit worldMoving (T0 + 16) "a1" unit H) as (unit' & H' & K).
  exists unit, unit'. split; [exact H|]. split; [exact H'|exact K].
Defined.

(** X6: what [update()] can do to a player and to a resource node.  A
    player keeps its id, name, faction, base position and colour, and
    its roster afterwards is the roster before with some members
    filtered out, the others in the same order.  A node keeps its id,
    type and position. *)
Theorem update_keeps_player_and_resource (e : GameEngine) (currentTime : float) :
  (forall playerId player,
      Obj.get playerId (players e) = Some player ->
      exists player',
        Obj.get playerId (players (update e currentTime)) = Some player' /\
        Player.id player' = Player.id player /\
        Player.name player' = Player.name player /\
        Player.faction player' = Player.faction player /\
        Player.basePosition player' = Player.basePosition player /\
        Player.color player' = Player.color player /\
        exists keep, Player.units player' = filter keep (Player.units player)) /\
  (forall resourceId resource,
      Obj.get resourceId (resources e) = Some resource ->
      exists resource',
        Obj.get resourceId (resources (update e currentTime)) = Some resource' /\
        Resource.id resource' = Resource.id resource /\
        Resource.type resource' = Resource.type resource /\
        Resource.position resource' = Resource.position resource).
Proof.
  pose proof (tickKeeps_update e currentTime) as K. split.
  - intros playerId player H.
    destruct (tk_players _ _ K playerId player H) as (player' & H' & []).
    exists player'. repeat (split; [assumption|]). assumption.
  - intros resourceId resource H.
    destruct (tk_resources _ _ K resourceId resource H) as (resource' & H' & []).
    exists resource'. repeat (split; [assumption|]). assumption.
Qed.

(** ** Purchases and admission *)

Lemma get_None_keys {V} (k : string) (o : Obj.t V) :
  Obj.get k o = None <-> ~ In k (Obj.keys o).
Proof.
  induction o as [|[k0 v0] o IH]; simpl; [tauto|].
  destruct (String.eqb_spec k0 k) as [->|N].
  - split; [discriminate|]. intros H. exfalso. apply H. now left.
  - rewrite IH. split; [intros H [E|I]; [congruence|tauto]|tauto].
Qed.

Lemma keys_set {V} (k : string) (v : V) (o : Obj.t V) :
  Obj.keys (Obj.set k v o) =
  match Obj.get k o with
  | Some _ => Obj.keys o
  | None => (Obj.keys o ++ [k])%list
  end.
Proof.
  induction o as [|[k0 v0] o IH]; simpl; [reflexivity|].
  destruct (String.eqb k0 k); simpl; [reflexivity|].
  rewrite IH. now destruct (Obj.get k o).
Qed.

Lemma createUnit_success_state e playerId unitType position uuid player :
  Obj.get playerId (players e) = Some player ->
  (Player.resources player <? unitCostOf unitType (List.length (Player.units player)))
    = false ->
  createUnit e playerId unitType position uuid =
  (modifyPlayer playerId
     (fun p => Player.with_units (Player.units p ++ [uuid]) p)
     (with_units (Obj.set uuid (newUnit uuid unitType position playerId)
                    (units e))
        (modifyPlayer playerId
           (fun p => Player.with_resources
                       (Player.resources p -
                        unitCostOf unitType (List.length (Player.units player))) p)
           e)),
   Returns (Some uuid)).
Proof.
  intros H L. unfold createUnit. rewrite (read_own _ _ _ _ H). cbv zeta.
  unfold unitCostOf in L. cbv zeta in L. rewrite L. reflexivity.
Qed.

(** X7: a purchase that goes through adds exactly one unit: it is
    stored under the new id, at the end of the unit map when the id is
    new, with the base stats of its type, full health, the position
    given, no path, no target and the three flags clear, and its id is
    appended to the buyer's roster.  Nothing else changes but the
    buyer's balance: no other unit, no other player, no resource, no
    clock. *)
Theorem createUnit_adds_one_unit
    (e : GameEngine) (playerId : string) (unitType : UnitType)
    (position : Position) (uuid : string) (player : Player.t) :
  Obj.get playerId (players e) = Some player ->
  (Player.resources player <? unitCostOf unitType (List.length (Player.units player)))
    = false ->
  let e' := fst (createUnit e playerId unitType position uuid) in
  snd (createUnit e playerId unitType position uuid) = Returns (Some uuid) /\
  Obj.get uuid (units e') =
    Some {| Unit.id := uuid;
            Unit.type := unitType;
            Unit.position := position;
            Unit.health := stat_health (UNIT_STATS unitType);
            Unit.maxHealth := stat_maxHealth (UNIT_STATS unitType);
            Unit.attack := stat_attack (UNIT_STATS unitType);
            Unit.defense := stat_defense (UNIT_STATS unitType);
            Unit.range := stat_range (UNIT_STATS unitType);
            Unit.speed := stat_speed (UNIT_STATS unitType);
            Unit.playerId := playerId;
            Unit.targetId := None;
            Unit.path := None;
            Unit.isDead := false;
            Unit.isMoving := false;
            Unit.isAttacking := false;
            Unit.canAttackAir := stat_canAttackAir (UNIT_STATS unitType);
            Unit.canAttackGround := stat_canAttackGround (UNIT_STATS unitType) |} /\
  (forall k, k <> uuid -> Obj.get k (units e') = Obj.get k (units e)) /\
  (Obj.get uuid (units e) = None ->
   Obj.keys (units e') = (Obj.keys (units e) ++ [uuid])%list) /\
  Obj.get playerId (players e') =
    Some {| Player.id := Player.id player;
            Player.name := Player.name player;
            Player.faction := Player.faction player;
            Player.resources :=
              Player.resources player -
              unitCostOf unitType (List.length (Player.units player));
            Player.units := (Player.units player ++ [uuid])%list;
            Player.basePosition := Player.basePosition player;
            Player.color := Player.color player |} /\
  (forall k, k <> playerId -> Obj.get k (players e') = Obj.get k (players e)) /\
  Obj.keys (players e') = Obj.keys (players e) /\
  resources e' = resources e /\
  gameTime e' = gameTime e /\ lastUpdateTime e' = lastUpdateTime e.
Proof.
  intros H L e'. subst e'.
  rewrite (createUnit_success_state e playerId unitType position uuid player H L).
  simpl fst. simpl snd.
  match goal with
  | |- context [units ?x] =>
      assert (U : units x = Obj.set uuid (newUnit uuid unitType position playerId)
                              (units e)) by reflexivity;
      assert (Pl : players x =
                   Obj.modify playerId
                     (fun p => Player.with_units (Player.units p ++ [uuid]) p)
                     (Obj.modify playerId
                        (fun p => Player.with_resources
                                    (Player.resources p -
                                     unitCostOf unitType
                                       (List.length (Player.units player))) p)
                        (players e))) by reflexivity;
      rewrite U, Pl
  end.
  split; [reflexivity|].
  split; [now rewrite ObjFacts.get_set, String.eqb_refl|].
  split.
  { intros k N. rewrite ObjFacts.get_set.
    destruct (String.eqb_spec uuid k); [congruence|reflexivity]. }
  split.
  { intros F. now rewrite keys_set, F. }
  split.
  { rewrite !ObjFacts.get_modify_same, H. reflexivity. }
  split.
  { intros k N. now rewrite !ObjFacts.get_modify_other by congruence. }
  split; [now rewrite !ObjFacts.keys_modify|].
  repeat split.
Qed.

(** Player A of [worldAB], who holds 485 and has two units, buys a
    third soldier for 180. *)
Lemma createUnit_adds_one_unit_witness :
  let e' := fst (createUnit worldAB "player-A" SOLDIER {| x := 100; y := 120 |} "a4") in
  snd (createUnit worldAB "player-A" SOLDIER {| x := 100; y := 120 |} "a4")
    = Returns (Some "a4") /\
  Obj.keys (units e') = ["a1"; "a2"; "b1"; "b2"; "a4"] /\
  option_map Player.units (Obj.get "player-A" (players e')) = Some ["a1"; "a2"; "a4"] /\
  option_map Player.resources (Obj.get "player-A" (players e')) = Some (485 - 180).
Proof.
  assert (H : exists player,
             Obj.get "player-A" (players worldAB) = Some player /\
             Player.units player = ["a1"; "a2"] /\ Player.resources player = 485).
  { eexists. split; [vm_compute; reflexivity|]. split; reflexivity. }
  destruct H as (player & H & Ro & Ba).
  assert (L : (Player.resources player <?
               unitCostOf SOLDIER (List.length (Player.units player))) = false)
    by (rewrite Ro, Ba; reflexivity).
  destruct (createUnit_adds_one_unit worldAB "player-A" SOLDIER
              {| x := 100; y := 120 |} "a4" player H L)
    as (R & _ & _ & K & P & _).
  cbv zeta. split; [exact R|]. split.
  - rewrite K by (vm_compute; reflexivity). vm_compute. reflexivity.
  - rewrite P, Ro, Ba. simpl. split; reflexivity.
Defined.

(** X8: admission.  [addPlayer] returns the id it was given by
    [uuidv4()] and stores under it a player with the name and faction
    asked for, a base at [(rx * (width - 200) + 100, ry * (height - 200)
    + 100)] for the two random numbers drawn, and the colour of the
    palette whose index is the number of players before, modulo five.
    Two soldiers are created, 20 to the left and to the right of the
    base and 20 above it.  No other player, no other unit, no resource
    and no clock is touched. *)
Theorem addPlayer_admits
    (e : GameEngine) (name : string) (faction : FactionType)
    (playerId : string) (rx ry : float) (u1 u2 u3 : string) :
  let e' := fst (addPlayer e name faction playerId rx ry u1 u2 u3) in
  let base :=
    {| x := rx * (fst (GameState.mapSize (state e)) - 200) + 100;
       y := ry * (snd (GameState.mapSize (state e)) - 200) + 100 |} in
  snd (addPlayer e name faction playerId rx ry u1 u2 u3) = playerId /\
  (exists player,
      Obj.get playerId (players e') = Some player /\
      Player.id player = playerId /\ Player.name player = name /\
      Player.faction player = faction /\ Player.basePosition player = base /\
      Player.color player =
        nth (List.length (Obj.keys (players e)) mod 5) playerColors "") /\
  (forall k, k <> playerId -> Obj.get k (players e') = Obj.get k (players e)) /\
  (Obj.get playerId (players e) = None ->
   Obj.keys (players e') = (Obj.keys (players e) ++ [playerId])%list) /\
  Obj.get u2 (units e') =
    Some (newUnit u2 SOLDIER {| x := x base + 20; y := y base - 20 |} playerId) /\
  (u1 <> u2 ->
   Obj.get u1 (units e') =
     Some (newUnit u1 SOLDIER {| x := x base - 20; y := y base - 20 |} playerId)) /\
  (forall k, k <> u1 -> k <> u2 -> Obj.get k (units e') = Obj.get k (units e)) /\
  resources e' = resources e /\
  gameTime e' = gameTime e /\ lastUpdateTime e' = lastUpdateTime e.
Proof.
  unfold addPlayer. destruct (GameState.mapSize (state e)) as [width height].
  cbv zeta.
  change (fst (width, height)) with width. change (snd (width, height)) with height.
  set (base := {| x := rx * (width - 200) + 100; y := ry * (height - 200) + 100 |}).
  set (player0 := Player.mk playerId name faction 800 [] base _).
  set (e0 := with_players (Obj.set playerId player0 (players e)) e).
  assert (H0 : Obj.get playerId (players e0) = Some player0).
  { unfold e0, with_players, players. simpl.
    now rewrite ObjFacts.get_set, String.eqb_refl. }
  destruct (createUnit_adds_one_unit e0 playerId SOLDIER
              {| x := x base - 20; y := y base - 20 |} u1 player0 H0 eq_refl)
    as (_ & U1 & O1 & _ & P1 & Q1 & K1 & R1 & G1 & L1).
  set (e1 := fst (createUnit e0 playerId SOLDIER _ u1)) in *.
  destruct (createUnit_adds_one_unit e1 playerId SOLDIER
              {| x := x base + 20; y := y base - 20 |} u2 _ P1 eq_refl)
    as (_ & U2 & O2 & _ & P2 & Q2 & K2 & R2 & G2 & L2).
  set (e2 := fst (createUnit e1 playerId SOLDIER _ u2)) in *.
  rewrite (createUnit_insufficient e2 playerId TANK
             {| x := x base; y := y base + 20 |} u3 _ P2 eq_refl).
  simpl fst. simpl snd.
  split; [reflexivity|]. split.
  { eexists. split; [exact P2|]. repeat split. }
  split.
  { intros k N. rewrite Q2, Q1 by exact N.
    unfold e0, with_players, players. simpl. rewrite ObjFacts.get_set.
    destruct (String.eqb_spec playerId k); [congruence|reflexivity]. }
  split.
  { intros F. rewrite K2, K1. unfold e0, with_players, players. simpl.
    fold (players e). now rewrite keys_set, F. }
  split; [exact U2|]. split.
  { intros N. rewrite O2 by exact N. exact U1. }
  split.
  { intros k N1 N2. rewrite O2, O1 by assumption. reflexivity. }
  split; [now rewrite R2, R1|].
  split; [now rewrite G2, G1|now rewrite L2, L1].
Qed.

(** ** The initial world *)

Section FoldSet.
Context {V : Type} (f : nat -> string) (g : nat -> V).

Let store (l : list nat) (acc : Obj.t V) : Obj.t V :=
  fold_left (fun rs i => Obj.set (f i) (g i) rs) l acc.

Lemma fold_set_get l : forall acc k v,
  Obj.get k (store l acc) = Some v ->
  Obj.get k acc = Some v \/ exists i, In i l /\ k = f i /\ v = g i.
Proof.
  induction l as [|i l IH]; intros acc k v H; simpl in H; [now left|].
  apply IH in H. destruct H as [H | (j & I & E)].
  - rewrite ObjFacts.get_set in H. destruct (String.eqb_spec (f i) k) as [<-|N].
    + right. exists i. split; [now left|]. split; congruence.
    + now left.
  - right. exists j. split; [now right|exact E].
Qed.

Lemma fold_set_stored l : forall acc k,
  Obj.get k acc <> None \/ In k (map f l) -> Obj.get k (store l acc) <> None.
Proof.
  induction l as [|i l IH]; intros acc k H; simpl.
  - destruct H as [H | []]. exact H.
  - apply IH. rewrite ObjFacts.get_set.
    destruct (String.eqb_spec (f i) k) as [E|N]; [left; discriminate|].
    destruct H as [H | [E | I]]; [now left|congruence|now right].
Qed.

Lemma fold_set_fresh l : forall acc,
  NoDup (Obj.keys acc ++ map f l) ->
  Obj.keys (store l acc) = (Obj.keys acc ++ map f l)%list /\
  (forall k v, Obj.get k acc = Some v -> Obj.get k (store l acc) = Some v) /\
  (forall i, In i l -> Obj.get (f i) (store l acc) = Some (g i)).
Proof.
  induction l as [|i l IH]; intros acc N; simpl.
  - rewrite app_nil_r. split; [reflexivity|]. split; [auto|intros i []].
  - simpl in N.
    assert (F : Obj.get (f i) acc = None).
    { apply get_None_keys. intros I.
      apply NoDup_remove_2 in N. apply N. apply in_or_app. now left. }
    assert (K : Obj.keys (Obj.set (f i) (g i) acc) = (Obj.keys acc ++ [f i])%list)
      by now rewrite keys_set, F.
    destruct (IH (Obj.set (f i) (g i) acc)) as (IK & IA & II).
    { rewrite K, <- app_assoc. exact N. }
    split; [rewrite IK, K, <- app_assoc; reflexivity|]. split.
    + intros k v H. apply IA. rewrite ObjFacts.get_set.
      destruct (String.eqb_spec (f i) k) as [<-|]; [congruence|exact H].
    + intros j [<- | I]; [|now apply II].
      apply IA. now rewrite ObjFacts.get_set, String.eqb_refl.
Qed.
End FoldSet.

(** X9: the world [new GameEngine(width, height)] builds.  There are
    no players and no units, game time is 0 and the time of
    construction is remembered.  Fifteen spots are drawn, the [i]-th at
    [(random(2i) * (width - 200) + 100, random(2i+1) * (height - 200) +
    100)].  Every node stored is stored under its own id, is a money
    node holding 150 with a respawn time of 30, is not collected, and
    sits on the spot of one of the fifteen draws; each of the fifteen
    ids is stored; and when the ids are distinct there are fifteen
    nodes, in the order drawn, the [i]-th on the [i]-th spot. *)
Theorem newGameEngine_world
    (mapWidth mapHeight now : float) (random : nat -> float) (uuidv4 : nat -> string) :
  let e := newGameEngine mapWidth mapHeight now random uuidv4 in
  let spot i :=
    {| x := random (2 * i)%nat * (mapWidth - 2 * 100) + 100;
       y := random (2 * i + 1)%nat * (mapHeight - 2 * 100) + 100 |} in
  players e = [] /\ units e = [] /\ gameTime e = 0 /\ lastUpdateTime e = now /\
  GameState.mapSize (state e) = (mapWidth, mapHeight) /\
  resourceSpots e = map spot (seq 0 15) /\
  (forall k r,
      Obj.get k (resources e) = Some r ->
      Resource.id r = k /\ Resource.type r = MONEY /\ Resource.amount r = 150 /\
      Resource.respawnTime r = 30 /\ Resource.isCollected r = false /\
      exists i, (i < 15)%nat /\ k = uuidv4 i /\ Resource.position r = spot i) /\
  (forall i, (i < 15)%nat -> Obj.get (uuidv4 i) (resources e) <> None) /\
  (NoDup (map uuidv4 (seq 0 15)) ->
   Obj.keys (resources e) = map uuidv4 (seq 0 15) /\
   forall i, (i < 15)%nat ->
             option_map Resource.position (Obj.get (uuidv4 i) (resources e))
             = Some (spot i)).
Proof.
  intros e spot.
  assert (Spots : resourceSpots e = map spot (seq 0 15)) by reflexivity.
  assert (Nth : forall i, (i < 15)%nat ->
                          nth i (resourceSpots e) {| x := 0; y := 0 |} = spot i).
  { intros i Hi. rewrite Spots.
    rewrite nth_indep with (d' := spot 0%nat) by (rewrite length_map, length_seq; lia).
    rewrite map_nth, seq_nth by lia. reflexivity. }
  set (node i :=
         {| Resource.id := uuidv4 i; Resource.type := MONEY;
            Resource.position := nth i (resourceSpots e) {| x := 0; y := 0 |};
            Resource.amount := RESOURCE_CONFIG.resourceAmount MONEY;
            Resource.respawnTime := RESOURCE_CONFIG.respawnTime;
            Resource.isCollected := false |}).
  assert (R : resources e =
              fold_left (fun rs i => Obj.set (uuidv4 i) (node i) rs) (seq 0 15) [])
    by reflexivity.
  repeat (split; [reflexivity|]). split; [|split].
  - intros k r H. rewrite R in H. apply fold_set_get in H.
    destruct H as [H | (i & I & -> & ->)]; [discriminate|].
    apply in_seq in I. simpl. repeat (split; [reflexivity|]).
    exists i. split; [lia|]. split; [reflexivity|]. apply Nth. lia.
  - intros i Hi. rewrite R. apply fold_set_stored. right.
    apply in_map, in_seq. lia.
  - intros N. rewrite R.
    destruct (fold_set_fresh uuidv4 node (seq 0 15) []) as (K & _ & G);
      [exact N|].
    split; [exact K|]. intros i Hi. rewrite G by (apply in_seq; lia).
    simpl. f_equal. apply Nth. exact Hi.
Qed.

(** ** The shape of the worlds the engine can be in *)

Section UnitWrites.
Variables (e e' : GameEngine).
Hypothesis units_kept : forall k u,
  Obj.get k (units e) = Some u ->
  exists u', Obj.get k (units e') = Some u' /\
             Unit.type u' = Unit.type u /\ Unit.playerId u' = Unit.playerId u.
Hypothesis players_kept : forall k,
  Obj.get k (players e) <> None -> Obj.get k (players e') <> None.

Lemma unitOk_moved k u : unitOk e k u -> unitOk e' k u.
Proof.
  intros [? ? ? ? ? ? ? ? O ? T ? ?]. constructor; auto.
  intros targetId E. destruct (T _ E) as [(target & Ht & Np & C) | F];
    [left|now right].
  destruct (units_kept _ _ Ht) as (target' & Ht' & Ty & Pl).
  exists target'. split; [exact Ht'|]. split; [now rewrite Pl|].
  unfold canUnitAttackTarget in *. now rewrite Ty.
Qed.
End UnitWrites.

Lemma canUnitAttackTarget_kind a a' t t' :
  Unit.canAttackAir a' = Unit.canAttackAir a ->
  Unit.canAttackGround a' = Unit.canAttackGround a ->
  Unit.type t' = Unit.type t ->
  canUnitAttackTarget a' t' = canUnitAttackTarget a t.
Proof. unfold canUnitAttackTarget. now intros -> -> ->. Qed.

(** A write to one unit that keeps its type and owner and leaves it in
    shape keeps every unit in shape. *)
Lemma unitOk_modifyUnit e e' k f :
  units e' = Obj.modify k f (units e) ->
  (forall pid, Obj.get pid (players e) <> None -> Obj.get pid (players e') <> None) ->
  (forall u, Obj.get k (units e) = Some u ->
             unitOk e k u ->
             Unit.type (f u) = Unit.type u /\ Unit.playerId (f u) = Unit.playerId u /\
             unitOk e k (f u)) ->
  (forall k u, Obj.get k (units e) = Some u -> unitOk e k u) ->
  forall k u, Obj.get k (units e') = Some u -> unitOk e' k u.
Proof.
  intros U Pk Hf W.
  assert (Kept : forall k0 u0, Obj.get k0 (units e) = Some u0 ->
            exists u', Obj.get k0 (units e') = Some u' /\
                       Unit.type u' = Unit.type u0 /\
                       Unit.playerId u' = Unit.playerId u0).
  { intros k0 u0 H0. rewrite U, ObjFacts.get_modify, H0.
    destruct (String.eqb_spec k k0) as [<-|N]; simpl.
    - destruct (Hf _ H0 (W _ _ H0)) as (Ty & Pl & _). eauto.
    - eauto. }
  intros k0 u0 H0. rewrite U in H0.
  apply get_modify_inv in H0. destruct H0 as [[-> (u & Hu & ->)] | [_ H0]].
  - apply unitOk_moved with e; auto. now apply Hf, W.
  - apply unitOk_moved with e; auto.
Qed.

Lemma wellFormed_modifyUnit e k f :
  (forall u, Obj.get k (units e) = Some u ->
             unitOk e k u ->
             Unit.type (f u) = Unit.type u /\ Unit.playerId (f u) = Unit.playerId u /\
             (Unit.isDead u = false -> Unit.isDead (f u) = false) /\
             unitOk e k (f u)) ->
  wellFormed e -> wellFormed (modifyUnit k f e).
Proof.
  intros Hf [Wu Wp Wr Ws Wn]. constructor.
  - apply unitOk_modifyUnit with e k f; auto.
    intros u Hu O. destruct (Hf u Hu O) as (? & ? & _ & ?). auto.
  - intros pid p Hp. rewrite players_modifyUnit in Hp.
    destruct (Wp _ _ Hp) as [I N R]. constructor; auto.
    intros unitId In_. destruct (R _ In_) as (unit & Hu & D & Pl).
    rewrite units_modifyUnit, ObjFacts.get_modify, Hu.
    destruct (String.eqb_spec k unitId) as [->|_]; simpl; [|eauto].
    destruct (Hf _ Hu (Wu _ _ Hu)) as (_ & Pl' & D' & _).
    eexists. split; [reflexivity|]. split; [auto|congruence].
  - intros k0 r Hr. rewrite resources_modifyUnit in Hr.
    destruct (Wr _ _ Hr). constructor; auto.
  - exact Ws.
  - rewrite resources_modifyUnit. exact Wn.
Qed.

Lemma get_modify_None {V} (k k' : string) (f : V -> V) (o : Obj.t V) :
  Obj.get k' o <> None -> Obj.get k' (Obj.modify k f o) <> None.
Proof.
  rewrite ObjFacts.get_modify. destruct (String.eqb k k'); [|auto].
  destruct (Obj.get k' o); [discriminate|auto].
Qed.

(** A write to one player that keeps its id. *)
Lemma wellFormed_modifyPlayer e k f :
  (forall p, Obj.get k (players e) = Some p ->
             playerOk e k p -> playerOk e k (f p)) ->
  wellFormed e -> wellFormed (modifyPlayer k f e).
Proof.
  intros Hf [Wu Wp Wr Ws Wn]. constructor.
  - intros k0 u Hu. rewrite units_modifyPlayer in Hu.
    apply unitOk_moved with e; auto.
    + intros k1 u1 H1. rewrite units_modifyPlayer. eauto.
    + intros k1. rewrite players_modifyPlayer. apply get_modify_None.
  - intros pid p Hp. rewrite players_modifyPlayer in Hp.
    assert (Same : forall q, playerOk e pid q -> playerOk (modifyPlayer k f e) pid q).
    { intros q [I N R]. constructor; auto. }
    apply get_modify_inv in Hp. destruct Hp as [[-> (p0 & Hp & ->)] | [_ Hp]];
      apply Same; auto.
  - intros k0 r Hr. rewrite resources_modifyPlayer in Hr.
    destruct (Wr _ _ Hr). constructor; auto.
  - exact Ws.
  - rewrite resources_modifyPlayer. exact Wn.
Qed.

Lemma wellFormed_modifyResource e k f :
  (forall r, Obj.get k (resources e) = Some r ->
             resourceOk e k r -> resourceOk e k (f r)) ->
  wellFormed e -> wellFormed (modifyResource k f e).
Proof.
  intros Hf [Wu Wp Wr Ws Wn]. constructor.
  - intros k0 u Hu. rewrite units_modifyResource in Hu.
    apply unitOk_moved with e; auto.
    intros k1 u1 H1. rewrite units_modifyResource. eauto.
  - intros pid p Hp. rewrite players_modifyResource in Hp.
    destruct (Wp _ _ Hp) as [I N R]. constructor; auto.
  - intros k0 r Hr. rewrite resources_modifyResource in Hr.
    assert (Same : forall q, resourceOk e k0 q -> resourceOk (modifyResource k f e) k0 q).
    { intros q [? ? ? ?]. constructor; auto. }
    apply get_modify_inv in Hr. destruct Hr as [[-> (r0 & Hr & ->)] | [_ Hr]];
      apply Same; auto.
  - exact Ws.
  - rewrite resources_modifyResource, ObjFacts.keys_modify. exact Wn.
Qed.

(** *** The writes of the commands and of a tick, on one unit *)

Lemma read_foreignName {V} e (o : Obj.t V) k :
  read e o k = Foreign \/ read e o k = Primitive -> foreignName k = true.
Proof.
  unfold read, inherited, foreignName.
  destruct (Obj.get k o); [intros [H | H]; discriminate H|].
  destruct (existsb _ _); [reflexivity|]. simpl.
  destruct (prototypePath e); [|intros [H | H]; discriminate H].
  destruct (String.eqb k "path"); [reflexivity|].
  destruct (String.eqb k "isMoving"); [reflexivity|].
  intros [H | H]; discriminate H.
Qed.

Lemma unitOk_engage e attackerId targetId attacker :
  engageable e attacker targetId ->
  unitOk e attackerId attacker -> unitOk e attackerId (engage targetId attacker).
Proof.
  intros En [? ? ? ? ? ? ? ? ? ? ? ? ?]. constructor; auto.
  - simpl. split; [discriminate|reflexivity].
  - simpl. intros t [= <-]. unfold engageable in En.
    destruct (read e (units e) targetId) as [target| | |] eqn:R.
    + apply read_Own in R. destruct En as (_ & Np & C).
      left. exists target. auto.
    + right. split; [exact En|]. apply (read_foreignName e (units e)). auto.
    + right. split; [exact En|]. apply (read_foreignName e (units e)). auto.
    + destruct En.
Qed.

Lemma unitOk_ordered e unitId targetPosition unit :
  unitOk e unitId unit -> unitOk e unitId (ordered targetPosition unit).
Proof.
  intros [? ? ? ? ? ? ? ? ? ? ? ? ?]. constructor; auto.
  - simpl. split; [discriminate|congruence].
  - simpl. discriminate.
  - simpl. split; [eauto|reflexivity].
  - simpl. right. right. eauto.
Qed.

Lemma unitOk_clearAttack e unitId unit :
  unitOk e unitId unit -> unitOk e unitId (clearAttack unit).
Proof.
  intros [? ? ? ? ? ? ? ? ? ? ? ? ?]. constructor; auto.
  - simpl. split; [discriminate|congruence].
  - simpl. discriminate.
Qed.

Lemma unitOk_advance e unitId deltaTime dx dy distance unit :
  unitOk e unitId unit -> unitOk e unitId (advance deltaTime dx dy distance unit).
Proof. intros [? ? ? ? ? ? ? ? ? ? ? ? ?]. constructor; auto. Qed.

Lemma unitOk_with_health e unitId health unit :
  unitOk e unitId unit -> unitOk e unitId (Unit.with_health health unit).
Proof. intros [? ? ? ? ? ? ? ? ? ? ? ? ?]. constructor; auto. Qed.

Lemma unitOk_die e unitId unit :
  unitOk e unitId unit -> unitOk e unitId (die unit).
Proof. intros [? ? ? ? ? ? ? ? ? ? ? ? ?]. constructor; auto. Qed.

Lemma unitOk_handleMovement e unitId deltaTime unit :
  unitOk e unitId unit -> unitOk e unitId (handleMovement deltaTime unit).
Proof.
  intros O. unfold handleMovement.
  destruct (Unit.path unit) as [[|targetPos rest]|] eqn:Pa; auto.
  destruct (Unit.isMoving unit) eqn:M; auto.
  destruct (_ <? 1); [|now apply unitOk_advance].
  assert (R : rest = []).
  { destruct (uo_path _ _ _ O) as [E | [E | (p & E)]]; congruence. }
  subst rest. destruct O as [? ? ? ? ? ? ? ? ? ? ? ? ?]. constructor; auto.
  simpl. split; [discriminate|]. intros (p & E). discriminate E.
Qed.

(** *** The death of a unit *)

Lemma wellFormed_kill e k u :
  Obj.get k (units e) = Some u ->
  wellFormed e ->
  wellFormed (modifyPlayer (Unit.playerId u) (strike (Unit.id u)) (modifyUnit k die e)).
Proof.
  intros Hu W. pose proof W as [Wu Wp Wr Ws Wn].
  pose proof (uo_id _ _ _ (Wu _ _ Hu)) as Id.
  set (e1 := modifyUnit k die e).
  assert (U1 : forall k0 u0, Obj.get k0 (units e1) = Some u0 -> unitOk e1 k0 u0).
  { apply unitOk_modifyUnit with e k die; auto.
    intros u0 _ O. split; [reflexivity|]. split; [reflexivity|].
    now apply unitOk_die. }
  constructor.
  - intros k0 u0 H0. rewrite units_modifyPlayer in H0.
    apply unitOk_moved with e1; auto.
    + intros k1 u1 H1. rewrite units_modifyPlayer. eauto.
    + intros k1. rewrite players_modifyPlayer. apply get_modify_None.
  - intros pid p Hp. rewrite players_modifyPlayer in Hp.
    unfold e1 in Hp. rewrite players_modifyUnit in Hp.
    assert (Rest : forall q unitId,
               playerOk e pid q -> In unitId (Player.units q) -> unitId <> k ->
               exists unit,
                 Obj.get unitId
                   (units (modifyPlayer (Unit.playerId u) (strike (Unit.id u)) e1))
                 = Some unit /\
                 Unit.isDead unit = false /\ Unit.playerId unit = pid).
    { intros q unitId [_ _ R] I N. destruct (R _ I) as (unit & H1 & D & Pl).
      exists unit. rewrite units_modifyPlayer. unfold e1.
      rewrite units_modifyUnit, ObjFacts.get_modify_other by congruence. auto. }
    apply get_modify_inv in Hp. destruct Hp as [[<- (p0 & Hp & ->)] | [Np Hp]].
    + pose proof (Wp _ _ Hp) as O. destruct O as [I N R]. constructor.
      * exact I.
      * simpl. apply NoDup_filter. exact N.
      * simpl. intros unitId In_. apply filter_In in In_. destruct In_ as [In_ Ne].
        apply Rest with p0; auto.
        rewrite Id in Ne. intros ->. now rewrite String.eqb_refl in Ne.
    + pose proof (Wp _ _ Hp) as O. destruct O as [I N R]. constructor; auto.
      intros unitId In_. apply Rest with p; auto.
      intros ->. destruct (R _ In_) as (unit & H1 & _ & Pl). congruence.
  - intros k0 r Hr. rewrite resources_modifyPlayer in Hr.
    unfold e1 in Hr. rewrite resources_modifyUnit in Hr.
    destruct (Wr _ _ Hr). constructor; auto.
  - exact Ws.
  - rewrite resources_modifyPlayer. unfold e1. rewrite resources_modifyUnit. exact Wn.
Qed.

Lemma wellFormed_dealDamage e unit targetId target :
  Obj.get targetId (units e) = Some target ->
  wellFormed e -> wellFormed (fst (dealDamage e unit targetId target)).
Proof.
  intros Ht W. rewrite dealDamage_state. cbv zeta. destruct (_ <=? 0).
  - exact (wellFormed_kill e targetId target Ht W).
  - apply wellFormed_modifyUnit; [|exact W].
    intros u _ O. do 2 (split; [reflexivity|]). split; [auto|].
    now apply unitOk_with_health.
Qed.

(** *** The resource passes *)

Lemma resourceOk_respawn e k deltaTime r :
  resourceOk e k r -> resourceOk e k (respawn deltaTime r).
Proof.
  intros [I A P R]. unfold respawn.
  destruct (Resource.isCollected r) eqn:C; [|constructor; auto].
  cbv zeta. destruct (_ <=? 0); constructor; auto; simpl; try reflexivity; congruence.
Qed.

Lemma wellFormed_updateResources deltaTime e :
  wellFormed e -> wellFormed (updateResources deltaTime e).
Proof.
  intros [Wu Wp Wr Ws Wn]. constructor.
  - intros k u Hu. change (units (updateResources deltaTime e)) with (units e) in Hu.
    apply unitOk_moved with e; auto. intros k1 u1 H1. eauto.
  - intros pid p Hp. destruct (Wp _ _ Hp) as [I N R]. constructor; auto.
  - intros k r Hr.
    change (resources (updateResources deltaTime e))
      with (map (fun kv => (fst kv, respawn deltaTime (snd kv))) (resources e)) in Hr.
    rewrite ObjFacts.get_map_values in Hr.
    destruct (Obj.get k (resources e)) as [r0|] eqn:H0; [|discriminate].
    injection Hr as <-.
    destruct (resourceOk_respawn e k deltaTime r0 (Wr _ _ H0)). constructor; auto.
  - exact Ws.
  - change (resources (updateResources deltaTime e))
      with (map (fun kv => (fst kv, respawn deltaTime (snd kv))) (resources e)).
    unfold Obj.keys in *. rewrite !length_map. rewrite length_map in Wn. exact Wn.
Qed.

Lemma wellFormed_collect e resourceId playerId amount :
  wellFormed e ->
  wellFormed
    (modifyResource resourceId (Resource.with_isCollected true)
       (modifyPlayer playerId
          (fun p => Player.with_resources (Player.resources p + amount) p) e)).
Proof.
  intros W. apply wellFormed_modifyResource.
  - intros r _ [? ? ? ?]. constructor; auto. simpl. discriminate.
  - apply wellFormed_modifyPlayer; [|exact W].
    intros p _ [? ? ?]. constructor; auto.
Qed.

Lemma wellFormed_advanceClock e currentTime :
  wellFormed e -> wellFormed (advanceClock e currentTime).
Proof.
  intros [Wu Wp Wr Ws Wn]. constructor; auto.
  - intros k u Hu. apply unitOk_moved with e; auto. intros k1 u1 H1. eauto.
  - intros pid p Hp. destruct (Wp _ _ Hp) as [I N R]. constructor; auto.
  - intros k r Hr. destruct (Wr _ _ Hr). constructor; auto.
Qed.

Lemma borrowing_idle deltaTime path u :
  Unit.isMoving u = false -> Unit.path u = None ->
  Unit.with_path None (borrowing deltaTime path u) = u.
Proof.
  intros M Pa. unfold borrowing, handleMovement. simpl.
  rewrite M. destruct u. simpl in *. subst.
  now destruct path.
Qed.

Lemma wellFormed_prototype e path :
  wellFormed e -> wellFormed (with_prototypePath path e).
Proof.
  intros [Wu Wp Wr Ws Wn]. constructor; auto.
  - intros k u Hu. apply unitOk_moved with e; auto. intros k1 u1 H1. eauto.
  - intros pid p Hp. destruct (Wp _ _ Hp) as [I N R]. constructor; auto.
  - intros k r Hr. destruct (Wr _ _ Hr). constructor; auto.
Qed.

Lemma borrowing_idle_path deltaTime path u :
  Unit.isMoving u = false -> Unit.path (borrowing deltaTime path u) = Some path.
Proof.
  intros M. unfold borrowing, handleMovement. simpl. rewrite M.
  now destruct path.
Qed.

(** Every write of the unit pass keeps the shape of the world; and in
    a world of that shape, where no unit moves without a path of its
    own, it leaves alone the path [Object.prototype] holds. *)
Section Shape.
Variables (deltaTime : float) (e0 : GameEngine).

Lemma shape_engage e attackerId targetId attacker :
  wellFormed e /\ prototypePath e = prototypePath e0 ->
  Obj.get attackerId (units e) = Some attacker ->
  Unit.isDead attacker = false ->
  engageable e attacker targetId ->
  wellFormed (modifyUnit attackerId (engage targetId) e) /\
  prototypePath (modifyUnit attackerId (engage targetId) e) = prototypePath e0.
Proof.
  intros (W0 & Pp0) Ha _ En. split; [|exact Pp0].
  apply wellFormed_modifyUnit; [|exact W0].
  intros u Hu O. assert (u = attacker) by congruence. subst u.
  do 2 (split; [reflexivity|]). split; [auto|].
  now apply unitOk_engage.
Qed.

Lemma shape_movement e unitId unit :
  wellFormed e /\ prototypePath e = prototypePath e0 ->
  Obj.get unitId (units e) = Some unit -> Unit.isDead unit = false ->
  wellFormed (modifyUnit unitId (handleMovement deltaTime) e) /\
  prototypePath (modifyUnit unitId (handleMovement deltaTime) e) = prototypePath e0.
Proof.
  intros (W0 & Pp0) Hu D. split; [|exact Pp0].
  apply wellFormed_modifyUnit; [|exact W0].
  intros u _ O.
  pose proof (unitKept_handleMovement deltaTime u) as K.
  split; [exact (uk_type _ _ K)|]. split; [exact (uk_playerId _ _ K)|]. split.
  - intros D0.
    exact (lc_alive' _ _ (livingChange_handleMovement _ u D0)).
  - now apply unitOk_handleMovement.
Qed.

Lemma shape_borrowed e unitId unit path :
  wellFormed e /\ prototypePath e = prototypePath e0 ->
  Obj.get unitId (units e) = Some unit -> Unit.isDead unit = false ->
  Unit.path unit = None -> prototypePath e = Some path ->
  wellFormed
    (with_prototypePath (Unit.path (borrowing deltaTime path unit))
       (modifyUnit unitId
          (fun u => Unit.with_path None (borrowing deltaTime path u)) e)) /\
  prototypePath
    (with_prototypePath (Unit.path (borrowing deltaTime path unit))
       (modifyUnit unitId
          (fun u => Unit.with_path None (borrowing deltaTime path u)) e))
    = prototypePath e0.
Proof.
  intros (W0 & Pp0) Hu D Pa Pp.
  assert (M : Unit.isMoving unit = false).
  { destruct (Unit.isMoving unit) eqn:M; [|reflexivity].
    apply (uo_moving _ _ _ (wf_units e W0 unitId unit Hu)) in M.
    destruct M as (p & E). congruence. }
  split.
  - apply wellFormed_prototype, wellFormed_modifyUnit; [|exact W0].
    intros u Hu' O. assert (u = unit) by congruence. subst u.
    rewrite (borrowing_idle _ _ _ M Pa). auto.
  - change (Unit.path (borrowing deltaTime path unit) = prototypePath e0).
    rewrite (borrowing_idle_path _ _ _ M). congruence.
Qed.

Lemma shape_lapse e unitId unit targetId :
  wellFormed e /\ prototypePath e = prototypePath e0 ->
  Obj.get unitId (units e) = Some unit -> Unit.isDead unit = false ->
  Unit.isAttacking unit = true -> Unit.targetId unit = Some targetId ->
  wellFormed (modifyUnit unitId clearAttack e) /\
  prototypePath (modifyUnit unitId clearAttack e) = prototypePath e0.
Proof.
  intros (W0 & Pp0) _ _ _ _. split; [|exact Pp0].
  apply wellFormed_modifyUnit; [|exact W0].
  intros u _ O. do 2 (split; [reflexivity|]). split; [auto|].
  now apply unitOk_clearAttack.
Qed.

Lemma shape_chase e unitId unit targetId target :
  wellFormed e /\ prototypePath e = prototypePath e0 ->
  Obj.get unitId (units e) = Some unit -> Unit.isDead unit = false ->
  Unit.isAttacking unit = true -> Unit.targetId unit = Some targetId ->
  Obj.get targetId (units e) = Some target -> Unit.isDead target = false ->
  let dx := x (Unit.position target) - x (Unit.position unit) in
  let dy := y (Unit.position target) - y (Unit.position unit) in
  (distanceOf dx dy <=? Unit.range unit * 20) = false ->
  wellFormed (modifyUnit unitId (advance deltaTime dx dy (distanceOf dx dy)) e) /\
  prototypePath (modifyUnit unitId (advance deltaTime dx dy (distanceOf dx dy)) e)
    = prototypePath e0.
Proof.
  intros (W0 & Pp0) _ _ _ _ _ _ dx dy _. split; [|exact Pp0].
  apply wellFormed_modifyUnit; [|exact W0].
  intros u _ O. do 2 (split; [reflexivity|]). split; [auto|].
  now apply unitOk_advance.
Qed.

Lemma shape_damage e unitId unit targetId target :
  wellFormed e /\ prototypePath e = prototypePath e0 ->
  Obj.get unitId (units e) = Some unit -> Unit.isDead unit = false ->
  Unit.isAttacking unit = true -> Unit.targetId unit = Some targetId ->
  Obj.get targetId (units e) = Some target -> Unit.isDead target = false ->
  canUnitAttackTarget unit target = true ->
  F64.gtb (F64.Math_floor (gameTime e))
          (F64.Math_floor (gameTime e - deltaTime)) = true ->
  wellFormed (fst (dealDamage e unit targetId target)) /\
  prototypePath (fst (dealDamage e unit targetId target)) = prototypePath e0.
Proof.
  intros (W0 & Pp0) _ _ _ _ Ht _ _ _.
  split; [now apply wellFormed_dealDamage|].
  rewrite dealDamage_state. cbv zeta. now destruct (_ <=? 0).
Qed.




Lemma shape_passes e :
  wellFormed e /\ prototypePath e = prototypePath e0 ->
  wellFormed (fst (passes deltaTime e)) /\
  prototypePath (fst (passes deltaTime e)) = prototypePath e0.
Proof.
  apply (tick_passes deltaTime
           (fun e' => wellFormed e' /\ prototypePath e' = prototypePath e0)).
  - exact shape_engage.
  - exact shape_movement.
  - exact shape_borrowed.
  - exact shape_lapse.
  - exact shape_chase.
  - exact shape_damage.
  - intros e1 (W0 & Pp0). split; [|exact Pp0].
    now apply wellFormed_updateResources.
  - intros e1 resourceId playerId resource player unit (W0 & Pp0) _ _ _.
    split; [|exact Pp0]. now apply wellFormed_collect.
Qed.
End Shape.

Lemma wellFormed_passes deltaTime e :
  wellFormed e ->
  wellFormed (fst (passes deltaTime e)) /\
  prototypePath (fst (passes deltaTime e)) = prototypePath e.
Proof. intros W. now apply shape_passes. Qed.

Lemma wellFormed_update e currentTime :
  wellFormed e -> wellFormed (update e currentTime).
Proof.
  intros W. rewrite update_passes. cbv zeta.
  now apply wellFormed_passes, wellFormed_advanceClock.
Qed.

(** *** The commands *)

Lemma wellFormed_enlist e playerId unitType position uuid f :
  Obj.get uuid (units e) = None ->
  Obj.get playerId (players e) <> None ->
  (forall p, Player.id (f p) = Player.id p /\
             Player.units (f p) = (Player.units p ++ [uuid])%list) ->
  wellFormed e ->
  wellFormed
    (modifyPlayer playerId f
       (with_units (Obj.set uuid (newUnit uuid unitType position playerId) (units e)) e)).
Proof.
  intros Fresh Owner Hf [Wu Wp Wr Ws Wn].
  set (unit := newUnit uuid unitType position playerId).
  set (e2 := with_units (Obj.set uuid unit (units e)) e).
  assert (U : units (modifyPlayer playerId f e2) = Obj.set uuid unit (units e))
    by reflexivity.
  assert (Pl : players (modifyPlayer playerId f e2) = Obj.modify playerId f (players e))
    by reflexivity.
  assert (Old : forall k u, Obj.get k (units e) = Some u ->
                            Obj.get k (units (modifyPlayer playerId f e2)) = Some u).
  { intros k u H. rewrite U, ObjFacts.get_set.
    destruct (String.eqb_spec uuid k) as [<-|]; [congruence|exact H]. }
  constructor.
  - intros k u H. rewrite U, ObjFacts.get_set in H.
    destruct (String.eqb_spec uuid k) as [<-|N].
    + injection H as <-. constructor; try reflexivity.
      * rewrite Pl. now apply get_modify_None.
      * simpl. split; [discriminate|congruence].
      * simpl. discriminate.
      * simpl. split; [discriminate|]. intros (p & E). discriminate E.
      * simpl. now left.
    + apply unitOk_moved with e; auto.
      * intros k0 u0 H0. exists u0. auto.
      * intros k0. rewrite Pl. apply get_modify_None.
  - intros pid p Hp. rewrite Pl in Hp.
    apply get_modify_inv in Hp. destruct Hp as [[<- (p0 & Hp & ->)] | [Np Hp]];
      destruct (Wp _ _ Hp) as [I N R].
    + destruct (Hf p0) as [Fi Fu]. constructor.
      * now rewrite Fi.
      * rewrite Fu. apply NoDup_app; [exact N|repeat constructor; intros []|].
        intros a Ia [<-|[]]. destruct (R _ Ia) as (u & Hu & _). congruence.
      * rewrite Fu. intros unitId In_. apply in_app_or in In_.
        destruct In_ as [In_ | [<- | []]].
        -- destruct (R _ In_) as (u & Hu & D & O). exists u. auto.
        -- exists unit. rewrite U, ObjFacts.get_set, String.eqb_refl. auto.
    + constructor; auto.
      intros unitId In_. destruct (R _ In_) as (u & Hu & D & O). exists u. auto.
  - intros k r Hr. destruct (Wr _ _ Hr). constructor; auto.
  - exact Ws.
  - exact Wn.
Qed.

Lemma wellFormed_createUnit e playerId unitType position uuid :
  Obj.get uuid (units e) = None ->
  wellFormed e -> wellFormed (fst (createUnit e playerId unitType position uuid)).
Proof.
  intros Fresh W.
  destruct (createUnit_cases e playerId unitType position uuid)
    as [[-> _] | (player & Hp & L)]; [exact W|].
  rewrite (createUnit_success_state e playerId unitType position uuid player Hp L).
  simpl fst.
  apply (wellFormed_enlist
           (modifyPlayer playerId
              (fun p => Player.with_resources
                          (Player.resources p -
                           unitCostOf unitType (List.length (Player.units player))) p)
              e)).
  - exact Fresh.
  - rewrite players_modifyPlayer. apply get_modify_None. congruence.
  - intros p. split; reflexivity.
  - apply wellFormed_modifyPlayer; [|exact W].
    intros p _ [? ? ?]. constructor; auto.
Qed.

Lemma wellFormed_admit e playerId player :
  Player.id player = playerId -> Player.units player = [] ->
  wellFormed e ->
  wellFormed (with_players (Obj.set playerId player (players e)) e).
Proof.
  intros I E [Wu Wp Wr Ws Wn]. constructor; auto.
  - intros k u Hu. apply unitOk_moved with e; auto.
    + intros k0 u0 H0. exists u0. auto.
    + intros k0 H0.
      change (Obj.get k0 (Obj.set playerId player (players e)) <> None).
      rewrite ObjFacts.get_set. now destruct (String.eqb playerId k0).
  - intros pid p Hp.
    change (Obj.get pid (Obj.set playerId player (players e)) = Some p) in Hp.
    rewrite ObjFacts.get_set in Hp.
    destruct (String.eqb_spec playerId pid) as [<-|N].
    + injection Hp as <-. constructor; auto.
      * rewrite E. constructor.
      * rewrite E. intros unitId [].
    + destruct (Wp _ _ Hp) as [? ? R]. constructor; auto.
  - intros k r Hr. destruct (Wr _ _ Hr). constructor; auto.
Qed.

Lemma wellFormed_addPlayer e name faction playerId rx ry u1 u2 u3 :
  Obj.get u1 (units e) = None ->
  Obj.get u2 (units e) = None ->
  Obj.get u3 (units e) = None ->
  u1 <> u2 -> u1 <> u3 -> u2 <> u3 ->
  wellFormed e ->
  wellFormed (fst (addPlayer e name faction playerId rx ry u1 u2 u3)).
Proof.
  intros F1 F2 F3 N12 N13 N23 W. unfold addPlayer.
  destruct (GameState.mapSize (state e)) as [width height]. cbv zeta. simpl fst.
  apply wellFormed_createUnit; [|apply wellFormed_createUnit; [|apply wellFormed_createUnit]].
  - do 2 (apply createUnit_keeps_fresh; [|congruence]). exact F3.
  - apply createUnit_keeps_fresh; [|congruence]. exact F2.
  - exact F1.
  - now apply wellFormed_admit.
Qed.

Lemma wellFormed_moveUnit e unitId targetPosition :
  wellFormed e -> wellFormed (fst (moveUnit e unitId targetPosition)).
Proof.
  intros W.
  destruct (moveUnit_cases e unitId targetPosition)
    as [-> | [(unit & _ & _ & ->) | (_ & _ & ->)]]; [exact W| |].
  - simpl. apply wellFormed_modifyUnit; [|exact W].
    intros u _ O. do 2 (split; [reflexivity|]). split; [auto|].
    now apply unitOk_ordered.
  - simpl. now apply wellFormed_prototype.
Qed.

Lemma wellFormed_attackUnit e attackerId targetId :
  wellFormed e -> wellFormed (fst (attackUnit e attackerId targetId)).
Proof.
  intros W.
  destruct (attackUnit_cases e attackerId targetId)
    as [-> | (attacker & Ha & _ & En & ->)]; [exact W|].
  simpl. apply wellFormed_modifyUnit; [|exact W].
  intros u Hu O. assert (u = attacker) by congruence. subst u.
  do 2 (split; [reflexivity|]). split; [auto|].
  now apply unitOk_engage.
Qed.

Lemma fold_set_length {V} (f : nat -> string) (g : nat -> V) l : forall acc,
  (List.length (fold_left (fun rs i => Obj.set (f i) (g i) rs) l acc)
   <= List.length acc + List.length l)%nat.
Proof.
  assert (S1 : forall k v (o : Obj.t V),
             (List.length (Obj.set k v o) <= S (List.length o))%nat).
  { intros k v o. induction o as [|[k0 v0] o IH]; simpl; [lia|].
    destruct (String.eqb k0 k); simpl; lia. }
  induction l as [|i l IH]; intros acc; simpl; [lia|].
  specialize (IH (Obj.set (f i) (g i) acc)). specialize (S1 (f i) (g i) acc). lia.
Qed.

Lemma wellFormed_newGameEngine mapWidth mapHeight now random uuidv4 :
  wellFormed (newGameEngine mapWidth mapHeight now random uuidv4).
Proof.
  constructor; try (intros k u H; discriminate H).
  - intros k r H.
    change (resources (newGameEngine mapWidth mapHeight now random uuidv4))
      with (spawnResources (generateResourceSpots mapWidth mapHeight random) uuidv4) in H.
    unfold spawnResources in H. cbv zeta in H.
    apply (fold_set_get uuidv4
             (fun i => {| Resource.id := uuidv4 i; Resource.type := MONEY;
                          Resource.position :=
                            nth i (generateResourceSpots mapWidth mapHeight random)
                                {| x := 0; y := 0 |};
                          Resource.amount := RESOURCE_CONFIG.resourceAmount MONEY;
                          Resource.respawnTime := RESOURCE_CONFIG.respawnTime;
                          Resource.isCollected := false |})) in H.
    destruct H as [H | (i & I & -> & ->)]; [discriminate|].
    apply in_seq in I. constructor; try reflexivity.
    change (In (nth i (generateResourceSpots mapWidth mapHeight random)
                    {| x := 0; y := 0 |})
               (generateResourceSpots mapWidth mapHeight random)).
    apply nth_In. unfold generateResourceSpots. cbv zeta.
    rewrite length_map, length_seq. simpl in I. exact (proj2 I).
  - reflexivity.
  - change (resources (newGameEngine mapWidth mapHeight now random uuidv4))
      with (spawnResources (generateResourceSpots mapWidth mapHeight random) uuidv4).
    unfold Obj.keys. rewrite length_map. unfold spawnResources. cbv zeta.
    etransitivity; [apply fold_set_length|]. simpl. lia.
Qed.

Lemma step_wellFormed e e' : step e e' -> wellFormed e -> wellFormed e'.
Proof.
  intros St W. destruct St.
  - now apply wellFormed_addPlayer.
  - now apply wellFormed_createUnit.
  - now apply wellFormed_moveUnit.
  - now apply wellFormed_attackUnit.
  - now apply wellFormed_update.
Qed.

Lemma steps_wellFormed e e' : steps e e' -> wellFormed e -> wellFormed e'.
Proof.
  induction 1; auto. intros W. eapply step_wellFormed; eauto.
Qed.

Lemma reachable_wellFormed e : reachable e -> wellFormed e.
Proof.
  intros (w & h & now & random & uuidv4 & St).
  eapply steps_wellFormed; [exact St|apply wellFormed_newGameEngine].
Qed.

(** ** The hit *)

Lemma handleCombat_hit deltaTime e unitId unit targetId target :
  Obj.get unitId (units e) = Some unit ->
  Unit.isAttacking unit = true ->
  Unit.targetId unit = Some targetId -> targetId <> "" ->
  Obj.get targetId (units e) = Some target ->
  Unit.isDead target = false ->
  canUnitAttackTarget unit target = true ->
  (distanceBetween unit target <=? Unit.range unit * 20) = true ->
  F64.gtb (F64.Math_floor (gameTime e))
          (F64.Math_floor (gameTime e - deltaTime)) = true ->
  handleCombat deltaTime e unitId = dealDamage e unit targetId target.
Proof.
  intros Hu A T N Ht Dt C R G. unfold handleCombat.
  rewrite Hu, T, A. apply String.eqb_neq in N. rewrite N. simpl.
  rewrite (read_own _ _ _ _ Ht), Dt, C. simpl.
  unfold distanceBetween in R. now rewrite R, G.
Qed.

Lemma dealDamage_returns e unit targetId target owner :
  Obj.get (Unit.playerId target) (players e) = Some owner ->
  snd (dealDamage e unit targetId target) = Returns tt.
Proof.
  intros Ho. unfold dealDamage. cbv zeta. destruct (_ <=? 0); [|reflexivity].
  rewrite (read_own _ _ _ owner); [reflexivity|]. exact Ho.
Qed.

(** C7: in every world [e'] that follows a world [e] the engine can be
    in, in particular after every call of [update()]: no unit's health
    is below zero, and a living unit's health is above it; every unit
    of [e] is still stored under its id; a unit dead in [e] has the
    very same record, so it dies once; and a unit that died in between
    has health 0 and is on no roster of its owner.  And the hit itself,
    in whatever world [w] the combat block runs, for an attacker and a
    target of any type: when the attacker's target is a living unit it
    can engage, in range, and the second boundary has been crossed, the
    block takes [max(1, attack - defense / 2)] off the target's health;
    if what is left is not above zero the target's health is set to 0
    and it is flagged dead, every other field as it was, it stays
    stored under its id, and its id is filtered off its owner's
    roster; otherwise only its health changes.  That the target is
    stored under its own id and that its owner is a player, which the
    removal from the roster depends on, holds of every unit of [e']. *)
Theorem health_and_death (e e' : GameEngine) :
  reachable e ->
  steps e e' ->
  (forall k u',
      Obj.get k (units e') = Some u' ->
      (Unit.health u' <? 0) = false /\
      (Unit.isDead u' = false -> (Unit.health u' <=? 0) = false) /\
      Unit.id u' = k /\
      exists owner, Obj.get (Unit.playerId u') (players e') = Some owner) /\
  (forall k u,
      Obj.get k (units e) = Some u ->
      exists u',
        Obj.get k (units e') = Some u' /\
        (Unit.isDead u = true -> u' = u) /\
        (Unit.isDead u = false -> Unit.isDead u' = true ->
         Unit.health u' = 0 /\
         forall p, Obj.get (Unit.playerId u') (players e') = Some p ->
                   ~ In k (Player.units p))) /\
  (forall (w : GameEngine) (deltaTime : float) (unitId targetId : string)
          (unit target : Unit.t) (owner : Player.t),
      Obj.get unitId (units w) = Some unit ->
      Unit.isAttacking unit = true ->
      Unit.targetId unit = Some targetId -> targetId <> "" ->
      Obj.get targetId (units w) = Some target ->
      Unit.id target = targetId ->
      Unit.isDead target = false ->
      canUnitAttackTarget unit target = true ->
      (distanceBetween unit target <=? Unit.range unit * 20) = true ->
      F64.gtb (F64.Math_floor (gameTime w))
              (F64.Math_floor (gameTime w - deltaTime)) = true ->
      Obj.get (Unit.playerId target) (players w) = Some owner ->
      let health :=
        Unit.health target
        - F64.Math_max 1 (Unit.attack unit - Unit.defense target / 2) in
      let w' := fst (handleCombat deltaTime w unitId) in
      snd (handleCombat deltaTime w unitId) = Returns tt /\
      Obj.keys (units w') = Obj.keys (units w) /\
      (forall k, k <> targetId -> Obj.get k (units w') = Obj.get k (units w)) /\
      (forall k, k <> Unit.playerId target ->
                 Obj.get k (players w') = Obj.get k (players w)) /\
      if health <=? 0 then
        Obj.get targetId (units w') =
          Some (Unit.with_isDead true (Unit.with_health 0 target)) /\
        Obj.get (Unit.playerId target) (players w') =
          Some (Player.with_units
                  (filter (fun k => negb (String.eqb k targetId)) (Player.units owner))
                  owner) /\
        (forall owner',
            Obj.get (Unit.playerId target) (players w') = Some owner' ->
            ~ In targetId (Player.units owner'))
      else
        Obj.get targetId (units w') = Some (Unit.with_health health target) /\
        Obj.get (Unit.playerId target) (players w') = Some owner).
Proof.
  intros R St.
  pose proof (reachable_sound e R) as S.
  pose proof (steps_sound e e' St S) as S'.
  split; [|split].
  - intros k u' H. split; [|split; [|split]].
    + now apply (sound_health e' S' k).
    + now apply (sound_living e' S' k).
    + now apply (sound_keyed e' S' k).
    + pose proof (reachable_wellFormed e' (steps_reachable e e' R St)) as W.
      pose proof (uo_owner _ _ _ (wf_units e' W k u' H)) as O.
      destruct (Obj.get (Unit.playerId u') (players e')) as [owner|];
        [now exists owner|congruence].
  - intros k u H.
    destruct (out_units e e' (steps_outlives e e' St S) k u H)
      as (u' & H' & P & F & K).
    exists u'. split; [exact H'|]. split; [exact F|].
    rewrite P. exact K.
  - intros w deltaTime unitId targetId unit target owner
           Hu A T N Ht Id Dt C Rg G Ho health w'.
    subst w'.
    rewrite (handleCombat_hit deltaTime w unitId unit targetId target
               Hu A T N Ht Dt C Rg G).
    split; [now apply dealDamage_returns with owner|].
    rewrite dealDamage_state. cbv zeta. fold health.
    destruct (health <=? 0).
    + rewrite units_modifyPlayer, units_modifyUnit, players_modifyPlayer,
        players_modifyUnit.
      split; [apply ObjFacts.keys_modify|].
      split; [intros k Nk; now apply ObjFacts.get_modify_other|].
      split; [intros k Nk; now apply ObjFacts.get_modify_other|].
      rewrite !ObjFacts.get_modify_same, Ht, Ho, Id. simpl.
      split; [reflexivity|]. split; [reflexivity|].
      intros owner' [= <-]. simpl. intros I.
      apply filter_In in I. destruct I as [_ I].
      now rewrite String.eqb_refl in I.
    + rewrite units_modifyUnit.
      change (players (modifyUnit targetId (Unit.with_health health) w))
        with (players w).
      split; [apply ObjFacts.keys_modify|].
      split; [intros k Nk; now apply ObjFacts.get_modify_other|].
      split; [reflexivity|].
      rewrite ObjFacts.get_modify_same, Ht. split; [reflexivity|exact Ho].
Qed.

(** In [worldAB] soldier [b1] is alive with health 100; fourteen
    one-second frames later it is dead, with health 0, still stored
    under ["b1"], and off the roster of player B.  The blow that kills
    it is the hit of [a2] in the fourteenth frame: [b1] has 2.5 left
    and the hit takes 7.5. *)
Lemma health_and_death_witness :
  (exists u',
      Obj.get "b1" (units worldFallen) = Some u' /\
      Unit.isDead u' = true /\
      Unit.health u' = 0 /\
      forall p, Obj.get "player-B" (players worldFallen) = Some p ->
                ~ In "b1" (Player.units p)) /\
  (let w' := fst (handleCombat 1 worldFinalBlow "a2") in
   healthOf "b1" worldFinalBlow = Some 2.5 /\
   option_map Player.units (Obj.get "player-B" (players worldFinalBlow))
     = Some ["b1"; "b2"] /\
   snd (handleCombat 1 worldFinalBlow "a2") = Returns tt /\
   healthOf "b1" w' = Some 0 /\
   option_map Unit.isDead (Obj.get "b1" (units w')) = Some true /\
   option_map Player.units (Obj.get "player-B" (players w')) = Some ["b2"]).
Proof.
  assert (H : exists u, Obj.get "b1" (units worldAB) = Some u /\
                        Unit.isDead u = false /\ Unit.playerId u = "player-B").
  { eexists. split; [vm_compute; reflexivity|]. split; reflexivity. }
  destruct H as (u & H & D & P).
  destruct (health_and_death worldAB worldFallen reachable_worldAB
              (steps_updatesAt worldAB _)) as (_ & Hu & Hit).
  split.
  - destruct (Hu "b1" u H) as (u' & H' & _ & K).
    assert (D' : Unit.isDead u' = true).
    { assert (E : option_map Unit.isDead (Obj.get "b1" (units worldFallen)) = Some true)
        by (vm_compute; reflexivity).
      rewrite H' in E. simpl in E. congruence. }
    assert (P' : Unit.playerId u' = "player-B").
    { assert (E : option_map Unit.playerId (Obj.get "b1" (units worldFallen))
                  = Some "player-B") by (vm_compute; reflexivity).
      rewrite H' in E. simpl in E. congruence. }
    exists u'. split; [exact H'|]. split; [exact D'|].
    destruct (K D D') as [Hh Hr]. split; [exact Hh|].
    rewrite P' in Hr. exact Hr.
  - assert (A : exists unit,
               Obj.get "a2" (units worldFinalBlow) = Some unit /\
               Unit.isAttacking unit = true /\ Unit.targetId unit = Some "b1" /\
               Unit.attack unit = 10 /\ Unit.canAttackGround unit = true /\
               Unit.position unit = {| x := 120; y := 80 |} /\ Unit.range unit = 3).
    { eexists. split; [vm_compute; reflexivity|]. repeat split. }
    destruct A as (unit & Ha & At & Tg & Atk & Gr & Pos & Rg).
    assert (B : exists target,
               Obj.get "b1" (units worldFinalBlow) = Some target /\
               Unit.id target = "b1" /\ Unit.isDead target = false /\
               Unit.type target = SOLDIER /\ Unit.playerId target = "player-B" /\
               Unit.health target = 2.5 /\ Unit.defense target = 5 /\
               Unit.position target = {| x := 167.5; y := 80 |}).
    { eexists. split; [vm_compute; reflexivity|]. repeat split. }
    destruct B as (target & Hb & Id & Dt & Ty & Pl & He & De & Pos').
    assert (O : exists owner,
               Obj.get "player-B" (players worldFinalBlow) = Some owner /\
               Player.units owner = ["b1"; "b2"]).
    { eexists. split; [vm_compute; reflexivity|]. reflexivity. }
    destruct O as (owner & Ho & Ro).
    assert (C : canUnitAttackTarget unit target = true).
    { unfold canUnitAttackTarget. now rewrite Ty. }
    assert (Rn : (distanceBetween unit target <=? Unit.range unit * 20) = true).
    { unfold distanceBetween. rewrite Pos, Pos', Rg. reflexivity. }
    assert (G : F64.gtb (F64.Math_floor (gameTime worldFinalBlow))
                        (F64.Math_floor (gameTime worldFinalBlow - 1)) = true)
      by (vm_compute; reflexivity).
    rewrite <- Pl in Ho.
    pose proof (Hit worldFinalBlow 1 "a2" "b1" unit target owner
                  Ha At Tg ltac:(discriminate) Hb Id Dt C Rn G Ho) as K.
    cbv zeta in K. rewrite He, Atk, De in K.
    destruct K as (Rt & _ & _ & _ & K).
    change (2.5 - F64.Math_max 1 (10 - 5 / 2) <=? 0) with true in K.
    destruct K as (Kt & Ko & _).
    cbv zeta. unfold healthOf. rewrite Hb, Kt. rewrite Pl in Ho, Ko.
    rewrite Ho, Ko.
    cbn [option_map Unit.health Unit.isDead Unit.with_isDead Unit.with_health
         Player.units Player.with_units].
    rewrite He, Ro.
    split; [reflexivity|]. split; [reflexivity|]. split; [exact Rt|].
    split; [reflexivity|]. split; reflexivity.
Defined.

(** X10: in every world the engine can be in, a unit is stored under
    its own id, has the maximum health, attack, defence, range, speed
    and attack capabilities that [UNIT_STATS] lists for its type, and
    belongs to a player of that world. *)
Theorem reachable_unit_has_stats_of_type
    (e : GameEngine) (unitId : string) (unit : Unit.t) :
  reachable e ->
  Obj.get unitId (units e) = Some unit ->
  let unitStats := UNIT_STATS (Unit.type unit) in
  Unit.id unit = unitId /\
  Unit.maxHealth unit = stat_maxHealth unitStats /\
  Unit.attack unit = stat_attack unitStats /\
  Unit.defense unit = stat_defense unitStats /\
  Unit.range unit = stat_range unitStats /\
  Unit.speed unit = stat_speed unitStats /\
  Unit.canAttackAir unit = stat_canAttackAir unitStats /\
  Unit.canAttackGround unit = stat_canAttackGround unitStats /\
  Obj.get (Unit.playerId unit) (players e) <> None.
Proof.
  intros R H.
  destruct (wf_units e (reachable_wellFormed e R) unitId unit H).
  cbv zeta. repeat split; assumption.
Qed.

Lemma reachable_unit_has_stats_of_type_witness :
  exists unit,
    Obj.get "a-tank" (units worldArmed) = Some unit /\
    Unit.type unit = TANK /\
    Unit.id unit = "a-tank" /\
    Unit.maxHealth unit = 300 /\
    Unit.attack unit = 30 /\
    Unit.defense unit = 20 /\
    Unit.range unit = 5 /\
    Unit.speed unit = 1.5 /\
    Unit.canAttackAir unit = false /\
    Unit.canAttackGround unit = true /\
    Obj.get (Unit.playerId unit) (players worldArmed) <> None.
Proof.
  eexists. split; [vm_compute; reflexivity|]. split; [reflexivity|].
  eapply (reachable_unit_has_stats_of_type worldArmed "a-tank").
  - exact reachable_worldArmed.
  - vm_compute. reflexivity.
Defined.

(** X11: in every world the engine can be in, a unit is flagged as
    attacking exactly when it has a target.  Its target is either
    another unit of the world, owned by another player, of a category
    the unit is able to attack, so that a tank never targets a
    helicopter; or it is one of the names that can read as an object
    that is no unit (a member of [Object.prototype], [path],
    [isMoving]), the unit being able to attack ground.  A unit is
    flagged as moving exactly when its path holds a waypoint, and a
    path never holds more than one. *)
Theorem reachable_unit_orders_are_consistent
    (e : GameEngine) (unitId : string) (unit : Unit.t) :
  reachable e ->
  Obj.get unitId (units e) = Some unit ->
  (Unit.isAttacking unit = true <-> Unit.targetId unit <> None) /\
  (forall targetId,
      Unit.targetId unit = Some targetId ->
      (targetId <> unitId /\
       exists target,
         Obj.get targetId (units e) = Some target /\
         Unit.playerId target <> Unit.playerId unit /\
         canUnitAttackTarget unit target = true /\
         (Unit.type unit = TANK -> Unit.type target <> HELICOPTER)) \/
      (Unit.canAttackGround unit = true /\ foreignName targetId = true)) /\
  (Unit.isMoving unit = true <-> exists p, Unit.path unit = Some [p]) /\
  (Unit.isMoving unit = false ->
   Unit.path unit = None \/ Unit.path unit = Some []).
Proof.
  intros R H.
  destruct (wf_units e (reachable_wellFormed e R) unitId unit H)
    as [_ _ _ _ _ _ Air _ _ A T M P].
  split; [exact A|]. split; [|split; [exact M|]].
  - intros targetId E. destruct (T _ E) as [(target & Ht & Np & C) | F];
      [left|now right].
    split; [intros ->; congruence|].
    exists target. repeat split; auto.
    intros Ty Th. unfold canUnitAttackTarget in C.
    rewrite Th in C. simpl in C. rewrite Air, Ty in C. discriminate C.
  - intros Mf. destruct P as [P | [P | P]]; auto.
    apply M in P. congruence.
Qed.

Lemma reachable_worldForeign : reachable worldForeign.
Proof.
  apply step_reachable with worldAB; [apply reachable_worldAB|].
  apply step_attackUnit.
Qed.

(** In [worldBoth] soldier [a1], sent to (300, 300) and then ordered
    to attack [b1], is both moving and attacking, its target being the
    soldier [b1] of player B.  In [worldForeign] soldier [a1] is
    attacking, and its target is no unit. *)
Lemma reachable_unit_orders_are_consistent_witness :
  (exists unit target,
      Obj.get "a1" (units worldBoth) = Some unit /\
      Unit.targetId unit = Some "b1" /\
      Unit.path unit = Some [{| x := 300; y := 300 |}] /\
      Unit.isAttacking unit = true /\ Unit.isMoving unit = true /\
      Obj.get "b1" (units worldBoth) = Some target /\
      Unit.playerId target <> Unit.playerId unit /\
      canUnitAttackTarget unit target = true) /\
  (exists unit,
      Obj.get "a1" (units worldForeign) = Some unit /\
      Unit.targetId unit = Some "constructor" /\
      Obj.get "constructor" (units worldForeign) = None /\
      Unit.isAttacking unit = true /\
      Unit.canAttackGround unit = true /\ foreignName "constructor" = true).
Proof.
  split.
  - assert (H : exists unit,
               Obj.get "a1" (units worldBoth) = Some unit /\
               Unit.targetId unit = Some "b1" /\
               Unit.path unit = Some [{| x := 300; y := 300 |}]).
    { eexists. split; [vm_compute; reflexivity|]. split; reflexivity. }
    destruct H as (unit & H & Tg & Pa).
    destruct (reachable_unit_orders_are_consistent worldBoth "a1" unit
                reachable_worldBoth H) as (A & T & M & _).
    assert (N : foreignName "b1" = false) by reflexivity.
    destruct (T "b1" Tg) as [(_ & target & Ht & Np & C & _) | (_ & F)];
      [|congruence].
    exists unit, target. split; [exact H|]. split; [exact Tg|].
    split; [exact Pa|]. split; [apply A; congruence|].
    split; [apply M; eauto|]. auto.
  - assert (H : exists unit,
               Obj.get "a1" (units worldForeign) = Some unit /\
               Unit.targetId unit = Some "constructor").
    { eexists. split; [vm_compute; reflexivity|]. reflexivity. }
    destruct H as (unit & H & Tg).
    destruct (reachable_unit_orders_are_consistent worldForeign "a1" unit
                reachable_worldForeign H) as (A & T & _ & _).
    assert (N : Obj.get "constructor" (units worldForeign) = None)
      by (vm_compute; reflexivity).
    destruct (T "constructor" Tg) as [(_ & target & Ht & _) | (G & F)];
      [congruence|].
    exists unit. split; [exact H|]. split; [exact Tg|]. split; [exact N|].
    split; [apply A; congruence|]. auto.
Defined.

(** X12: in every world the engine can be in, a player is stored under
    its own id, and its roster names no unit twice and names only
    units of the world that are alive, are stored under the id the
    roster gives, and are owned by that player. *)
Theorem reachable_roster_holds_living_own_units
    (e : GameEngine) (playerId : string) (player : Player.t) :
  reachable e ->
  Obj.get playerId (players e) = Some player ->
  Player.id player = playerId /\
  NoDup (Player.units player) /\
  forall unitId,
    In unitId (Player.units player) ->
    exists unit,
      Obj.get unitId (units e) = Some unit /\
      Unit.id unit = unitId /\
      Unit.isDead unit = false /\
      Unit.playerId unit = playerId.
Proof.
  intros R H. pose proof (reachable_wellFormed e R) as W.
  destruct (wf_players e W playerId player H) as [I N Ro].
  split; [exact I|]. split; [exact N|].
  intros unitId In_. destruct (Ro _ In_) as (unit & Hu & D & O).
  exists unit. repeat split; auto. exact (uo_id _ _ _ (wf_units e W _ _ Hu)).
Qed.

(** In [worldFallen] soldier [b1] has been killed: B's roster is down
    to [b2]. *)
Lemma reachable_roster_holds_living_own_units_witness :
  exists player,
    Obj.get "player-B" (players worldFallen) = Some player /\
    Player.units player = ["b2"] /\
    Player.id player = "player-B" /\
    NoDup (Player.units player) /\
    forall unitId,
      In unitId (Player.units player) ->
      exists unit,
        Obj.get unitId (units worldFallen) = Some unit /\
        Unit.id unit = unitId /\
        Unit.isDead unit = false /\
        Unit.playerId unit = "player-B".
Proof.
  eexists. split; [vm_compute; reflexivity|]. split; [reflexivity|].
  eapply (reachable_roster_holds_living_own_units worldFallen "player-B").
  - exact reachable_worldFallen.
  - vm_compute. reflexivity.
Defined.

(** X13: in every world the engine can be in there are fifteen spots
    and at most fifteen resource nodes; a node is stored under its own
    id, holds 150, sits on one of the spots, and, whenever it is not
    collected, has a respawn time of 30. *)
Theorem reachable_node_is_standard
    (e : GameEngine) (resourceId : string) (resource : Resource.t) :
  reachable e ->
  Obj.get resourceId (resources e) = Some resource ->
  List.length (resourceSpots e) = 15%nat /\
  (List.length (Obj.keys (resources e)) <= 15)%nat /\
  Resource.id resource = resourceId /\
  Resource.amount resource = 150 /\
  In (Resource.position resource) (resourceSpots e) /\
  (Resource.isCollected resource = false -> Resource.respawnTime resource = 30).
Proof.
  intros R H. pose proof (reachable_wellFormed e R) as W.
  destruct (wf_resources e W resourceId resource H).
  split; [exact (wf_spots e W)|]. split; [exact (wf_nodes e W)|].
  repeat split; assumption.
Qed.

(** The first node of [worldArmed], next to A's base, has been
    collected. *)
Lemma reachable_node_is_standard_witness :
  exists resource,
    Obj.get "resource-A" (resources worldArmed) = Some resource /\
    Resource.isCollected resource = true /\
    List.length (resourceSpots worldArmed) = 15%nat /\
    (List.length (Obj.keys (resources worldArmed)) <= 15)%nat /\
    Resource.id resource = "resource-A" /\
    Resource.amount resource = 150 /\
    In (Resource.position resource) (resourceSpots worldArmed) /\
    (Resource.isCollected resource = false -> Resource.respawnTime resource = 30).
Proof.
  eexists. split; [vm_compute; reflexivity|]. split; [reflexivity|].
  eapply (reachable_node_is_standard worldArmed "resource-A").
  - exact reachable_worldArmed.
  - vm_compute. reflexivity.
Defined.

(** ** A tick without a hit *)

Lemma get_modify_map {V W} (g : V -> W) (k k' : string) (f : V -> V) (o : Obj.t V) :
  (forall v, g (f v) = g v) ->
  option_map g (Obj.get k' (Obj.modify k f o)) = option_map g (Obj.get k' o).
Proof.
  intros H. rewrite ObjFacts.get_modify. destruct (String.eqb k k'); [|reflexivity].
  destruct (Obj.get k' o); simpl; [now rewrite H|reflexivity].
Qed.

(** X14: a call of [update()] during which the integer part of the
    game time does not grow deals no damage: every unit has the health
    and the [isDead] flag it had, and every roster is as it was. *)
Theorem update_without_second_boundary_deals_no_damage
    (e : GameEngine) (currentTime : float) :
  let deltaTime := (currentTime - lastUpdateTime e) / 1000 in
  F64.gtb (F64.Math_floor (gameTime e + deltaTime))
          (F64.Math_floor (gameTime e + deltaTime - deltaTime)) = false ->
  let e' := update e currentTime in
  (forall unitId,
      option_map (fun u => (Unit.health u, Unit.isDead u)) (Obj.get unitId (units e'))
      = option_map (fun u => (Unit.health u, Unit.isDead u)) (Obj.get unitId (units e))) /\
  (forall playerId,
      option_map Player.units (Obj.get playerId (players e'))
      = option_map Player.units (Obj.get playerId (players e))).
Proof.
  intros deltaTime Gate e'. unfold e'. rewrite update_passes. cbv zeta.
  fold deltaTime.
  set (vital := fun u => (Unit.health u, Unit.isDead u)).
  set (Q := fun e0 =>
              gameTime e0 = gameTime e + deltaTime /\
              (forall unitId, option_map vital (Obj.get unitId (units e0))
                              = option_map vital (Obj.get unitId (units e))) /\
              (forall playerId,
                  option_map Player.units (Obj.get playerId (players e0))
                  = option_map Player.units (Obj.get playerId (players e)))).
  assert (Unit_write : forall e0 k f,
             (forall u, vital (f u) = vital u) -> Q e0 -> Q (modifyUnit k f e0)).
  { intros e0 k f Hf (G & U & P). split; [exact G|]. split; [|exact P].
    intros unitId. rewrite units_modifyUnit, <- U. now apply get_modify_map. }
  assert (H : Q (fst (passes deltaTime (advanceClock e currentTime)))).
  { apply (tick_passes deltaTime Q).
    - intros e0 attackerId targetId attacker H _ _ _.
      now apply Unit_write.
    - intros e0 unitId unit H _ _. apply Unit_write; [|exact H].
      intros u. unfold vital. now destruct (handleMovement_vital deltaTime u) as [-> ->].
    - intros e0 unitId unit path H _ _ _ _.
      refine (Unit_write e0 unitId
                (fun u => Unit.with_path None (borrowing deltaTime path u)) _ H).
      intros u. unfold vital.
      now destruct (borrowing_vital deltaTime path u) as [-> ->].
    - intros e0 unitId unit targetId H _ _ _ _. now apply Unit_write.
    - intros e0 unitId unit targetId target H _ _ _ _ _ _ dx dy _.
      now apply Unit_write.
    - intros e0 unitId unit targetId target (G & _) _ _ _ _ _ _ _ Hit.
      rewrite G in Hit. congruence.
    - intros e0 H. exact H.
    - intros e0 resourceId playerId resource player unit (G & U & P) _ _ _.
      split; [exact G|]. split; [exact U|].
      intros pid. rewrite players_modifyResource, players_modifyPlayer, <- P.
      now apply get_modify_map.
    - split; [reflexivity|]. split; reflexivity. }
  destruct H as (_ & U & P). split; assumption.
Qed.

(** [worldDuel], 100 ms after its creation: [a2] has [b1] within range,
    but game time goes from 0 to 0.1. *)
Lemma update_without_second_boundary_deals_no_damage_witness :
  (forall unitId,
      option_map (fun u => (Unit.health u, Unit.isDead u))
                 (Obj.get unitId (units (update worldDuel (T0 + 100))))
      = option_map (fun u => (Unit.health u, Unit.isDead u))
                   (Obj.get unitId (units worldDuel))) /\
  (forall playerId,
      option_map Player.units (Obj.get playerId (players (update worldDuel (T0 + 100))))
      = option_map Player.units (Obj.get playerId (players worldDuel))).
Proof.
  apply (update_without_second_boundary_deals_no_damage worldDuel (T0 + 100)).
  vm_compute. reflexivity.
Defined.

(** ** Who is paid *)

Lemma nearbyUnit_Some e player resource unit :
  nearbyUnit e player resource = Some unit ->
  exists unitId,
    In unitId (Player.units player) /\
    Obj.get unitId (units e) = Some unit /\
    Unit.isDead unit = false /\ Unit.type unit = SOLDIER.
Proof.
  unfold nearbyUnit. intros H. apply find_some in H. destruct H as [I H].
  unfold rosterUnits in I. apply in_flat_map in I. destruct I as (unitId & I & J).
  exists unitId. split; [exact I|].
  destruct (Obj.get unitId (units e)) as [u|]; [|destruct J].
  destruct J as [<- | []]. split; [reflexivity|].
  destruct (Unit.isDead u); [discriminate|]. split; [reflexivity|].
  destruct (Unit.type u); simpl in H; try discriminate. reflexivity.
Qed.

Lemma tickKeeps_advanceClock e currentTime : tickKeeps e (advanceClock e currentTime).
Proof.
  constructor; auto.
  - intros k u H. exists u. split; [exact H|apply unitKept_refl].
  - intros k p H. exists p. split; [exact H|apply playerKept_refl].
  - intros k r H. exists r. split; [exact H|apply resourceKept_refl].
Qed.

(** X15: [update()] pays only players with a living soldier: a player
    whose roster names no unit that is alive and a soldier has the same
    balance after the call. *)
Theorem update_pays_only_players_with_a_living_soldier
    (e : GameEngine) (currentTime : float) (playerId : string) (player : Player.t) :
  Obj.get playerId (players e) = Some player ->
  (forall unitId unit,
      In unitId (Player.units player) ->
      Obj.get unitId (units e) = Some unit ->
      Unit.isDead unit = true \/ Unit.type unit <> SOLDIER) ->
  option_map Player.resources (Obj.get playerId (players (update e currentTime)))
  = Some (Player.resources player).
Proof.
  intros Hp NoSoldier. rewrite update_passes. cbv zeta.
  set (deltaTime := (currentTime - lastUpdateTime e) / 1000).
  set (Q := fun e0 =>
              tickKeeps e e0 /\
              option_map Player.resources (Obj.get playerId (players e0))
              = Some (Player.resources player)).
  assert (Unit_write : forall e0 k f,
             (forall u, unitKept u (f u)) -> Q e0 -> Q (modifyUnit k f e0)).
  { intros e0 k f Hf (K & B). split; [|exact B].
    apply tickKeeps_trans with e0; [exact K|now apply tickKeeps_modifyUnit]. }
  assert (H : Q (fst (passes deltaTime (advanceClock e currentTime)))).
  { apply (tick_passes deltaTime Q).
    - intros e0 attackerId targetId attacker H _ _ _.
      apply Unit_write; [apply unitKept_engage|exact H].
    - intros e0 unitId unit H _ _.
      apply Unit_write; [apply unitKept_handleMovement|exact H].
    - intros e0 unitId unit path (K & B) Hu _ Pa _. split; [|exact B].
      apply tickKeeps_trans with e0; [exact K|now apply tickKeeps_borrowed].
    - intros e0 unitId unit targetId H _ _ _ _.
      apply Unit_write; [apply unitKept_clearAttack|exact H].
    - intros e0 unitId unit targetId target H _ _ _ _ _ _ dx dy _.
      apply Unit_write; [intros u; apply unitKept_advance|exact H].
    - intros e0 unitId unit targetId target (K & B) _ _ _ _ _ _ _ _. split.
      + apply tickKeeps_trans with e0; [exact K|apply tickKeeps_dealDamage].
      + rewrite <- B. rewrite dealDamage_state. cbv zeta. destruct (_ <=? 0).
        * rewrite players_modifyPlayer, players_modifyUnit.
          now apply get_modify_map.
        * now rewrite players_modifyUnit.
    - intros e0 (K & B). split; [|exact B].
      apply tickKeeps_trans with e0; [exact K|apply tickKeeps_updateResources].
    - intros e0 resourceId pid resource payee unit (K & B) Hr Hpayee Near. split.
      + apply tickKeeps_trans with e0; [exact K|].
        match goal with
        | |- tickKeeps _ (modifyResource _ _ ?m) => apply tickKeeps_trans with m
        end.
        * apply tickKeeps_modifyPlayer. intros p. constructor; try reflexivity.
          exists (fun _ => true). apply filter_all.
        * apply tickKeeps_modifyResource. intros r. constructor; reflexivity.
      + rewrite players_modifyResource, players_modifyPlayer, ObjFacts.get_modify.
        destruct (String.eqb_spec pid playerId) as [->|N]; [|exact B].
        exfalso.
        destruct (tk_players _ _ K playerId player Hp) as (p' & Hp' & Kp).
        assert (payee = p') by congruence. subst payee.
        apply nearbyUnit_Some in Near.
        destruct Near as (unitId & I & Hu & D & Ty).
        destruct (pk_units _ _ Kp) as (keep & Ro). rewrite Ro in I.
        apply filter_In in I. destruct I as [I _].
        destruct (Obj.get unitId (units e)) as [u0|] eqn:H0.
        * destruct (tk_units _ _ K unitId u0 H0) as (u' & Hu' & Ku).
          assert (u' = unit) by congruence. subst u'.
          destruct (NoSoldier unitId u0 I H0) as [D0 | T0].
          -- apply (uk_dead _ _ Ku) in D0. congruence.
          -- apply T0. rewrite <- (uk_type _ _ Ku). exact Ty.
        * apply get_None_keys in H0. apply H0.
          rewrite <- (tk_unit_keys _ _ K).
          destruct (in_dec string_dec unitId (Obj.keys (units e0))) as [Y|Nn];
            [exact Y|].
          apply get_None_keys in Nn. congruence.
    - split; [apply tickKeeps_advanceClock|].
      change (players (advanceClock e currentTime)) with (players e).
      now rewrite Hp. }
  exact (proj2 H).
Qed.

Lemma reachable_worldBereft : reachable worldBereft.
Proof.
  apply steps_reachable with (fst (attackUnit worldRaid "b-heli" "a2"));
    [|apply steps_updatesAt].
  apply step_reachable with worldRaid; [|apply step_attackUnit].
  apply steps_reachable with (fst (attackUnit worldArmed "b-heli" "a1"));
    [|apply steps_updatesAt].
  apply step_reachable with worldArmed; [|apply step_attackUnit].
  exact reachable_worldArmed.
Qed.

(** In [worldBereft] the roster of player A holds the tank only.  The
    call of [update()] at 30.016 s respawns the nodes at (100, 100); the
    tank stands 20 away from them and is alive, and player A still
    holds 1145 after the call, while player B, whose soldiers stand by
    the seven nodes at (450, 300), is paid 1050. *)
Lemma update_pays_only_players_with_a_living_soldier_witness :
  reachable worldBereft /\
  option_map Player.units (Obj.get "player-A" (players worldBereft))
    = Some ["a-tank"] /\
  option_map (fun unit => (Unit.type unit, Unit.isDead unit, Unit.position unit))
    (Obj.get "a-tank" (units worldBereft))
    = Some (TANK, false, {| x := 100; y := 120 |}) /\
  balanceOf "player-A" worldBereft = Some 1145 /\
  balanceOf "player-B" worldBereft = Some 695 /\
  option_map (fun r => (Resource.isCollected r, Resource.position r))
    (Obj.get "resource-A" (resources worldBereft))
    = Some (true, {| x := 100; y := 100 |}) /\
  let e' := update worldBereft (T0 + 30016) in
  option_map (fun r => (Resource.isCollected r, Resource.position r))
    (Obj.get "resource-A" (resources e'))
    = Some (false, {| x := 100; y := 100 |}) /\
  balanceOf "player-A" e' = Some 1145 /\
  balanceOf "player-B" e' = Some (695 + 7 * 150).
Proof.
  split; [exact reachable_worldBereft|].
  do 5 (split; [vm_compute; reflexivity|]).
  cbv zeta. split; [vm_compute; reflexivity|]. split; [|vm_compute; reflexivity].
  assert (H : exists player,
             Obj.get "player-A" (players worldBereft) = Some player /\
             Player.units player = ["a-tank"] /\ Player.resources player = 1145).
  { eexists. split; [vm_compute; reflexivity|]. split; reflexivity. }
  destruct H as (player & H & Ro & <-).
  assert (T : exists tank,
             Obj.get "a-tank" (units worldBereft) = Some tank /\
             Unit.type tank = TANK).
  { eexists. split; [vm_compute; reflexivity|]. reflexivity. }
  destruct T as (tank & Ht & Ty).
  apply (update_pays_only_players_with_a_living_soldier
           worldBereft (T0 + 30016) "player-A" player H).
  intros unitId unit I Hu. rewrite Ro in I. destruct I as [<- | []].
  right. assert (unit = tank) by congruence. subst unit.
  rewrite Ty. discriminate.
Defined.

(** ** The price list *)

Lemma float_eqb_eq (a b : float) : (0 <? a) = true -> (a =? b) = true -> a = b.
Proof.
  rewrite FloatAxioms.ltb_spec, FloatAxioms.eqb_spec. intros P E.
  apply Prim2SF_inj. change (Prim2SF 0) with (S754_zero false) in P.
  unfold SFltb, SFeqb in *.
  destruct (Prim2SF a) as [sa|sa| |sa ma ea], (Prim2SF b) as [sb|sb| |sb mb eb];
    simpl in *; try discriminate;
    try (destruct sa; discriminate); destruct sa; try discriminate;
    destruct sb; try discriminate; try reflexivity.
  destruct (Z.compare_spec ea eb) as [->| |]; try discriminate.
  fold (Pos.compare ma mb) in E.
  destruct (Pos.compare_spec ma mb) as [->| |]; try discriminate. reflexivity.
Qed.

(** X16: the price list, for rosters of fewer than 1000 units.  The
    price of a unit grows strictly with the number of units the buyer
    has.  It is the exact scaled price [floor(base * (10 + N) / 10)] or
    one less, the product [base * (1 + N * 0.1)] being rounded to
    binary64 before the floor is taken; for a soldier it is always the
    exact one. *)
Theorem unitCostOf_follows_the_scaled_base_price
    (unitType : UnitType) (unitCount : nat) :
  (unitCount < 1000)%nat ->
  (unitCostOf unitType unitCount <? unitCostOf unitType (S unitCount)) = true /\
  (unitCostOf unitType unitCount = F64.of_Z (exactCostOf unitType unitCount) \/
   unitCostOf unitType unitCount = F64.of_Z (exactCostOf unitType unitCount - 1)) /\
  (unitType = SOLDIER ->
   unitCostOf unitType unitCount = F64.of_Z (exactCostOf unitType unitCount)).
Proof.
  intros Hn.
  set (ok := fun ty n =>
               (0 <? unitCostOf ty n) &&
               (unitCostOf ty n <? unitCostOf ty (S n)) &&
               ((unitCostOf ty n =? F64.of_Z (exactCostOf ty n)) ||
                (unitCostOf ty n =? F64.of_Z (exactCostOf ty n - 1))) &&
               (negb (UnitType_eqb ty SOLDIER) ||
                (unitCostOf ty n =? F64.of_Z (exactCostOf ty n)))).
  assert (All : forallb (fun ty => forallb (ok ty) (seq 0 1000))
                        [SOLDIER; TANK; HELICOPTER] = true)
    by (vm_compute; reflexivity).
  rewrite forallb_forall in All.
  assert (T : In unitType [SOLDIER; TANK; HELICOPTER])
    by (destruct unitType; simpl; auto).
  specialize (All _ T). rewrite forallb_forall in All.
  assert (I : In unitCount (seq 0 1000)) by (apply in_seq; lia).
  specialize (All _ I). unfold ok in All.
  apply andb_prop in All. destruct All as [All S0].
  apply andb_prop in All. destruct All as [All E].
  apply andb_prop in All. destruct All as [Pos Inc].
  split; [exact Inc|]. split.
  - apply orb_prop in E. destruct E as [E|E]; [left|right];
      now apply float_eqb_eq.
  - intros ->. simpl in S0. now apply float_eqb_eq.
Qed.

(** With four units on the roster a helicopter is priced 979, one less
    than [floor(700 * 14 / 10) = 980]. *)
Lemma unitCostOf_follows_the_scaled_base_price_witness :
  unitCostOf HELICOPTER 4 = 979 /\
  exactCostOf HELICOPTER 4 = 980%Z /\
  (unitCostOf HELICOPTER 4 <? unitCostOf HELICOPTER 5) = true /\
  (unitCostOf HELICOPTER 4 = F64.of_Z (exactCostOf HELICOPTER 4) \/
   unitCostOf HELICOPTER 4 = F64.of_Z (exactCostOf HELICOPTER 4 - 1)) /\
  (HELICOPTER = SOLDIER ->
   unitCostOf HELICOPTER 4 = F64.of_Z (exactCostOf HELICOPTER 4)).
Proof.
  split; [vm_compute; reflexivity|]. split; [reflexivity|].
  apply (unitCostOf_follows_the_scaled_base_price HELICOPTER 4). lia.
Defined.

(** ** The auto-target scan *)

Lemma SFltb_trans x y z : SFltb x y = true -> SFltb y z = true -> SFltb x z = true.
Proof.
  unfold SFltb.
  destruct x as [sx|sx| |sx mx ex], y as [sy|sy| |sy my ey], z as [sz|sz| |sz mz ez];
    simpl; try discriminate; try reflexivity;
    try (destruct sx; try discriminate; try reflexivity);
    try (destruct sy; try discriminate; try reflexivity);
    try (destruct sz; try discriminate; try reflexivity);
    fold (Pos.compare mx my); fold (Pos.compare my mz); fold (Pos.compare mx mz);
    destruct (Z.compare_spec ex ey); destruct (Z.compare_spec ey ez);
    destruct (Z.compare_spec ex ez); subst;
    try discriminate; try reflexivity; try lia;
    destruct (Pos.compare_spec mx my); destruct (Pos.compare_spec my mz);
    destruct (Pos.compare_spec mx mz); subst; simpl;
    try discriminate; try reflexivity; try lia.
Qed.

Lemma ltb_trans (a b c : float) :
  (a <? b) = true -> (b <? c) = true -> (a <? c) = true.
Proof. rewrite !FloatAxioms.ltb_spec. apply SFltb_trans. Qed.

Lemma ltb_irrefl (a : float) : (a <? a) = false.
Proof.
  rewrite FloatAxioms.ltb_spec. unfold SFltb.
  destruct (Prim2SF a) as [s|s| |s m e]; simpl; try reflexivity.
  - now destruct s.
  - rewrite Z.compare_refl. fold (Pos.compare m m). rewrite Pos.compare_refl.
    now destruct s.
Qed.

Section Scan.
Variable unit : Unit.t.

Let scan (acc : option Unit.t * float) (otherUnit : Unit.t) :=
  let '(nearest, nearestDistance) := acc in
  if Unit.isDead otherUnit
     || String.eqb (Unit.playerId otherUnit) (Unit.playerId unit)
  then acc
  else if negb (canUnitAttackTarget unit otherUnit) then acc
  else
    let dx := x (Unit.position otherUnit) - x (Unit.position unit) in
    let dy := y (Unit.position otherUnit) - y (Unit.position unit) in
    let distance := distanceOf dx dy in
    let detectionRange := Unit.range unit * 25 in
    if (distance <=? detectionRange) && (distance <? nearestDistance)
    then (Some otherUnit, distance)
    else acc.

(** What the scan has found once it has been through [seen]. *)
Let found (seen : list Unit.t) (acc : option Unit.t * float) : Prop :=
  (forall other, In other seen -> detectable unit other = true ->
                 (distanceBetween unit other <? snd acc) = false) /\
  match fst acc with
  | Some nearest =>
      In nearest seen /\ detectable unit nearest = true /\
      snd acc = distanceBetween unit nearest
  | None => snd acc = infinity
  end.

Lemma scan_found seen acc otherUnit :
  found seen acc -> found (seen ++ [otherUnit]) (scan acc otherUnit).
Proof.
  destruct acc as [nearest nearestDistance]. intros [Far Near]. simpl in *.
  assert (Skip : detectable unit otherUnit = false \/
                 (distanceBetween unit otherUnit <? nearestDistance) = false ->
                 found (seen ++ [otherUnit]) (nearest, nearestDistance)).
  { intros Why. split; simpl.
    - intros other I D. apply in_app_or in I. destruct I as [I | [<- | []]].
      + now apply Far.
      + destruct Why as [Why | Why]; [congruence|exact Why].
    - destruct nearest as [n|]; [|exact Near].
      destruct Near as (I & D & E). split; [apply in_or_app; now left|]. now split. }
  unfold detectable, distanceBetween in *.
  destruct (Unit.isDead otherUnit || _) eqn:Hostile; [apply Skip; now left|].
  destruct (canUnitAttackTarget unit otherUnit) eqn:Can; [|apply Skip; now left].
  cbv zeta. simpl negb. cbv iota.
  destruct (_ <=? _) eqn:InRange; [|apply Skip; now left].
  destruct (_ <? nearestDistance) eqn:Nearer; [|apply Skip; now right].
  simpl. split; simpl.
  - intros other I D. apply in_app_or in I. destruct I as [I | [<- | []]].
    + specialize (Far other I D).
      destruct (_ <? _) eqn:L in |- *; [|reflexivity].
      rewrite (ltb_trans _ _ _ L Nearer) in Far. discriminate.
    + apply ltb_irrefl.
  - split; [apply in_or_app; right; now left|]. split; [|reflexivity].
    now rewrite Hostile, Can, InRange.
Qed.

Lemma scan_all (l : list Unit.t) : forall seen acc,
  found seen acc -> found (seen ++ l) (fold_left scan l acc).
Proof.
  induction l as [|otherUnit l IH]; intros seen acc F; simpl.
  - now rewrite app_nil_r.
  - replace (seen ++ otherUnit :: l)%list with ((seen ++ [otherUnit]) ++ l)%list
      by now rewrite <- app_assoc.
    apply IH. now apply scan_found.
Qed.

Lemma nearestEnemy_found e :
  found (Obj.values (units e)) (nearestEnemy e unit, snd (fold_left scan (Obj.values (units e)) (None, infinity))).
Proof.
  pose proof (scan_all (Obj.values (units e)) [] (None, infinity)) as H.
  simpl app in H.
  replace (nearestEnemy e unit, snd (fold_left scan (Obj.values (units e)) (None, infinity)))
    with (fold_left scan (Obj.values (units e)) (None, infinity)).
  - apply H. split; simpl; [intros other []|reflexivity].
  - unfold nearestEnemy. fold scan.
    now destruct (fold_left scan (Obj.values (units e)) (None, infinity)).
Qed.
End Scan.

(** X17: the auto-target scan.  The unit it returns is a unit of the
    world that is alive, belongs to another player, is of a category
    the scanning unit can attack and is within 25 times its range, and
    no such unit is strictly nearer.  When it returns none, no such
    unit is at a distance below infinity. *)
Theorem nearestEnemy_is_a_nearest_detectable_enemy (e : GameEngine) (unit : Unit.t) :
  match nearestEnemy e unit with
  | Some enemy =>
      In enemy (Obj.values (units e)) /\
      Unit.isDead enemy = false /\
      Unit.playerId enemy <> Unit.playerId unit /\
      canUnitAttackTarget unit enemy = true /\
      (distanceBetween unit enemy <=? Unit.range unit * 25) = true /\
      forall other,
        In other (Obj.values (units e)) -> detectable unit other = true ->
        (distanceBetween unit other <? distanceBetween unit enemy) = false
  | None =>
      forall other,
        In other (Obj.values (units e)) -> detectable unit other = true ->
        (distanceBetween unit other <? infinity) = false
  end.
Proof.
  destruct (nearestEnemy_found unit e) as [Far Near]. simpl in Far, Near.
  destruct (nearestEnemy e unit) as [enemy|].
  - destruct Near as (I & D & E). rewrite E in Far.
    split; [exact I|]. unfold detectable in D.
    apply andb_prop in D. destruct D as [D R].
    apply andb_prop in D. destruct D as [D C].
    apply negb_true_iff, orb_false_elim in D. destruct D as [Dead Own].
    apply String.eqb_neq in Own. repeat split; auto.
  - rewrite Near in Far. exact Far.
Qed.

(** ** Keys *)

Lemma NoDup_keys_set {V} (k : string) (v : V) (o : Obj.t V) :
  NoDup (Obj.keys o) -> NoDup (Obj.keys (Obj.set k v o)).
Proof.
  intros N. rewrite keys_set. destruct (Obj.get k o) eqn:G; [exact N|].
  apply get_None_keys in G. apply NoDup_app; [exact N|repeat constructor; intros []|].
  intros a I [<-|[]]. auto.
Qed.

Lemma get_In {V} (k : string) (v : V) (o : Obj.t V) :
  NoDup (Obj.keys o) -> In (k, v) o -> Obj.get k o = Some v.
Proof.
  induction o as [|[k0 v0] o IH]; simpl; intros N I; [destruct I|].
  inversion N as [|? ? Nk No]; subst.
  destruct I as [[= -> ->] | I]; [now rewrite String.eqb_refl|].
  destruct (String.eqb_spec k0 k) as [->|_]; [|now apply IH].
  exfalso. apply Nk. change k with (fst (k, v)). now apply in_map.
Qed.

Lemma distinctKeys_same e e' :
  Obj.keys (units e') = Obj.keys (units e) ->
  Obj.keys (players e') = Obj.keys (players e) ->
  Obj.keys (resources e') = Obj.keys (resources e) ->
  distinctKeys e -> distinctKeys e'.
Proof. intros U P R [? ? ?]. constructor; congruence. Qed.

Lemma distinctKeys_createUnit e playerId unitType position uuid :
  distinctKeys e -> distinctKeys (fst (createUnit e playerId unitType position uuid)).
Proof.
  intros D.
  destruct (createUnit_cases e playerId unitType position uuid)
    as [[-> _] | (player & Hp & L)]; [exact D|].
  rewrite (createUnit_success_state e playerId unitType position uuid player Hp L).
  simpl fst. destruct D as [Du Dp Dr]. constructor.
  - match goal with
    | |- context [units ?w] =>
        change (units w)
          with (Obj.set uuid (newUnit uuid unitType position playerId) (units e))
    end.
    now apply NoDup_keys_set.
  - rewrite players_modifyPlayer, ObjFacts.keys_modify.
    match goal with
    | |- context [players ?w] =>
        change (players w)
          with (Obj.modify playerId
                  (fun p => Player.with_resources
                              (Player.resources p -
                               unitCostOf unitType (List.length (Player.units player))) p)
                  (players e))
    end.
    now rewrite ObjFacts.keys_modify.
  - exact Dr.
Qed.

Lemma distinctKeys_newGameEngine mapWidth mapHeight now random uuidv4 :
  distinctKeys (newGameEngine mapWidth mapHeight now random uuidv4).
Proof.
  constructor; try constructor.
  change (resources (newGameEngine mapWidth mapHeight now random uuidv4))
    with (spawnResources (generateResourceSpots mapWidth mapHeight random) uuidv4).
  unfold spawnResources. cbv zeta.
  generalize (seq 0 (RESOURCE_CONFIG.mapResourceCount MONEY)).
  assert (N : NoDup (Obj.keys (@nil (string * Resource.t)))) by constructor.
  revert N. generalize (@nil (string * Resource.t)).
  intros acc N l. revert acc N.
  induction l as [|i l IH]; intros acc N; simpl; [exact N|].
  apply IH. now apply NoDup_keys_set.
Qed.

Lemma step_distinctKeys e e' : step e e' -> distinctKeys e -> distinctKeys e'.
Proof.
  intros St D. destruct St.
  - unfold addPlayer. destruct (GameState.mapSize (state e)) as [width height].
    cbv zeta. simpl fst. do 3 apply distinctKeys_createUnit.
    destruct D as [Du Dp Dr]. constructor; auto.
    match goal with
    | |- context [Obj.set playerId ?p (players e)] =>
        change (NoDup (Obj.keys (Obj.set playerId p (players e))))
    end.
    now apply NoDup_keys_set.
  - now apply distinctKeys_createUnit.
  - destruct (moveUnit_cases e unitId targetPosition)
      as [-> | [(unit & _ & _ & ->) | (_ & _ & ->)]]; [exact D| |].
    + simpl. apply distinctKeys_same with e; auto.
      rewrite units_modifyUnit. apply ObjFacts.keys_modify.
    + simpl. now apply distinctKeys_same with e.
  - destruct (attackUnit_cases e attackerId targetId)
      as [-> | (attacker & _ & _ & _ & ->)]; [exact D|].
    simpl. apply distinctKeys_same with e; auto.
    rewrite units_modifyUnit. apply ObjFacts.keys_modify.
  - destruct (tickKeeps_update e currentTime) as [K1 K2 K3 _ _ _ _ _].
    now apply distinctKeys_same with e.
Qed.

Lemma reachable_distinctKeys e : reachable e -> distinctKeys e.
Proof.
  intros (w & h & now & random & uuidv4 & St).
  assert (D := distinctKeys_newGameEngine w h now random uuidv4).
  revert D. induction St; auto. intros D. eapply step_distinctKeys; eauto.
Qed.

Lemma values_get e unit :
  distinctKeys e -> wellFormed e ->
  In unit (Obj.values (units e)) -> Obj.get (Unit.id unit) (units e) = Some unit.
Proof.
  intros D W I. unfold Obj.values in I. apply in_map_iff in I.
  destruct I as ([k u] & E & I). simpl in E. subst u.
  pose proof (get_In k unit (units e) (dk_units e D) I) as G.
  now rewrite (uo_id _ _ _ (wf_units e W k unit G)).
Qed.

(** X18: in every world the engine can be in, the attack order that
    the auto-target scan gives for a living unit is never refused: a
    unit that is neither attacking nor moving, and for which the scan
    finds an enemy, ends with that enemy as its target and flagged as
    attacking; otherwise nothing changes. *)
Theorem checkForAutoTarget_engages_the_enemy_found
    (e : GameEngine) (unitId : string) (unit : Unit.t) :
  reachable e ->
  Obj.get unitId (units e) = Some unit ->
  Unit.isDead unit = false ->
  checkForAutoTarget e unit =
  if Unit.isAttacking unit || Unit.isMoving unit then e
  else match nearestEnemy e unit with
       | Some enemy => modifyUnit unitId (engage (Unit.id enemy)) e
       | None => e
       end.
Proof.
  intros R H Alive. pose proof (reachable_wellFormed e R) as W.
  pose proof (reachable_distinctKeys e R) as D.
  unfold checkForAutoTarget.
  destruct (Unit.isAttacking unit || Unit.isMoving unit); [reflexivity|].
  destruct (nearestEnemy_found unit e) as [_ Near]. simpl in Near.
  destruct (nearestEnemy e unit) as [enemy|]; [|reflexivity].
  destruct Near as (I & Det & _).
  unfold detectable in Det.
  apply andb_prop in Det. destruct Det as [Det _].
  apply andb_prop in Det. destruct Det as [Det C].
  apply negb_true_iff, orb_false_elim in Det. destruct Det as [Dead Own].
  rewrite String.eqb_sym in Own.
  pose proof (values_get e enemy D W I) as He.
  rewrite (uo_id _ _ _ (wf_units e W unitId unit H)).
  unfold attackUnit.
  rewrite (read_own _ _ _ _ H), (read_own _ _ _ _ He), Alive, Dead, Own, C.
  reflexivity.
Qed.

(** In [worldAB], soldier [a2] stands 47.5 from [b1], within its
    detection range of 75. *)
Lemma checkForAutoTarget_engages_the_enemy_found_witness :
  exists unit,
    Obj.get "a2" (units worldAB) = Some unit /\
    option_map Unit.id (nearestEnemy worldAB unit) = Some "b1" /\
    checkForAutoTarget worldAB unit = modifyUnit "a2" (engage "b1") worldAB.
Proof.
  eexists. split; [vm_compute; reflexivity|]. split; [vm_compute; reflexivity|].
  etransitivity.
  - apply (checkForAutoTarget_engages_the_enemy_found worldAB "a2").
    + exact reachable_worldAB.
    + vm_compute. reflexivity.
    + reflexivity.
  - vm_compute. reflexivity.
Defined.

(** ** The collection pass *)

Lemma nearbyUnit_ext e e' p p' r r' :
  units e' = units e -> Player.units p' = Player.units p ->
  Resource.position r' = Resource.position r ->
  nearbyUnit e' p' r' = nearbyUnit e p r.
Proof. unfold nearbyUnit, rosterUnits. now intros -> -> ->. Qed.

Lemma inReach_ext e e' p p' r r' :
  units e' = units e -> Player.units p' = Player.units p ->
  Resource.position r' = Resource.position r ->
  inReach e' p' r' = inReach e p r.
Proof. intros U P R. unfold inReach. now rewrite (nearbyUnit_ext e e' p p' r r'). Qed.

Lemma get_Some_keys {V} (k : string) (v : V) (o : Obj.t V) :
  Obj.get k o = Some v -> In k (Obj.keys o).
Proof.
  intros H. destruct (in_dec string_dec k (Obj.keys o)) as [I|N]; [exact I|].
  apply get_None_keys in N. congruence.
Qed.

Lemma existsb_eqb_In (k : string) (l : list string) :
  In k l -> existsb (String.eqb k) l = true.
Proof.
  intros I. apply existsb_exists. exists k. split; [exact I|apply String.eqb_refl].
Qed.

Lemma existsb_eqb_notIn (k : string) (l : list string) :
  ~ In k l -> existsb (String.eqb k) l = false.
Proof.
  intros N. destruct (existsb (String.eqb k) l) eqn:E; [|reflexivity].
  apply existsb_exists in E. destruct E as (k' & I & E).
  apply String.eqb_eq in E. now subst k'.
Qed.

Lemma existsb_same {A} (f g : A -> bool) (l : list A) :
  (forall a, f a = g a) -> existsb f l = existsb g l.
Proof. intros H. induction l as [|a l IH]; simpl; [reflexivity|]. now rewrite H, IH. Qed.

Lemma NoDup_snoc {A} (l : list A) (a : A) : NoDup (l ++ [a]) -> NoDup l /\ ~ In a l.
Proof.
  intros N. split.
  - now apply NoDup_app_remove_r in N.
  - apply NoDup_remove_2 in N. rewrite app_nil_r in N. exact N.
Qed.

Section CollectFor.
Variables (e1 : GameEngine) (resourceId : string) (resource : Resource.t).
Hypothesis stored : Obj.get resourceId (resources e1) = Some resource.

Let collected := Resource.with_isCollected true resource.

Lemma collectFor_fold (playerIds : list string) :
  NoDup playerIds ->
  let e2 := fold_left (collectFor resourceId) playerIds e1 in
  units e2 = units e1 /\
  Obj.keys (players e2) = Obj.keys (players e1) /\
  (forall playerId,
      Obj.get playerId (players e2) =
      option_map
        (fun p => if existsb (String.eqb playerId) playerIds && inReach e1 p resource
                  then Player.with_resources
                         (Player.resources p + Resource.amount resource) p
                  else p)
        (Obj.get playerId (players e1))) /\
  Obj.get resourceId (resources e2) =
    Some (if existsb (fun playerId =>
                        match Obj.get playerId (players e1) with
                        | Some p => inReach e1 p resource
                        | None => false
                        end) playerIds
          then collected else resource) /\
  (forall k, k <> resourceId -> Obj.get k (resources e2) = Obj.get k (resources e1)).
Proof.
  induction playerIds as [|q qs IH] using rev_ind; intros N; cbv zeta.
  - simpl. split; [reflexivity|]. split; [reflexivity|]. split.
    + intros playerId. now destruct (Obj.get playerId (players e1)).
    + split; [exact stored|reflexivity].
  - apply NoDup_snoc in N. destruct N as [N Nq].
    specialize (IH N). cbv zeta in IH. rewrite fold_left_app. simpl.
    set (e2 := fold_left (collectFor resourceId) qs e1) in *.
    destruct IH as (U & K & P & R & Ro).
    assert (Pq : Obj.get q (players e2) = Obj.get q (players e1)).
    { rewrite P, (existsb_eqb_notIn q qs Nq). simpl.
      now destruct (Obj.get q (players e1)). }
    set (r2 := if existsb _ qs then collected else resource) in R.
    assert (Pos2 : Resource.position r2 = Resource.position resource)
      by (unfold r2; now destruct (existsb _ qs)).
    assert (Am2 : Resource.amount r2 = Resource.amount resource)
      by (unfold r2; now destruct (existsb _ qs)).
    assert (Col2 : Resource.with_isCollected true r2 = collected)
      by (unfold r2; now destruct (existsb _ qs)).
    assert (Last : forall playerId p,
               Obj.get playerId (players e1) = Some p ->
               existsb (String.eqb playerId) (qs ++ [q]) =
               existsb (String.eqb playerId) qs || String.eqb playerId q).
    { intros playerId p _. rewrite existsb_app. simpl. now rewrite orb_false_r. }
    unfold collectFor. rewrite R, Pq.
    destruct (Obj.get q (players e1)) as [p|] eqn:Hq.
    + rewrite (nearbyUnit_ext e1 e2 p p resource r2 U eq_refl Pos2).
      destruct (nearbyUnit e1 p resource) as [unit|] eqn:Near.
      * split; [exact U|]. split.
        { rewrite players_modifyResource, players_modifyPlayer, ObjFacts.keys_modify.
          exact K. }
        split.
        { intros playerId.
          rewrite players_modifyResource, players_modifyPlayer, ObjFacts.get_modify.
          destruct (String.eqb_spec q playerId) as [<-|Ne].
          - rewrite Pq, Hq. simpl. rewrite (Last q p Hq), String.eqb_refl, orb_true_r.
            unfold inReach. rewrite Near. simpl. now rewrite Am2.
          - rewrite P. destruct (Obj.get playerId (players e1)) as [p0|] eqn:H0;
              [|reflexivity].
            simpl. rewrite (Last playerId p0 H0).
            assert (String.eqb playerId q = false) as -> by (apply String.eqb_neq; congruence).
            now rewrite orb_false_r. }
        split.
        { rewrite resources_modifyResource, ObjFacts.get_modify_same.
          rewrite resources_modifyPlayer, R. simpl. rewrite Col2.
          rewrite existsb_app. simpl. rewrite Hq. unfold inReach at 2. rewrite Near.
          now rewrite orb_true_r. }
        { intros k Nk. rewrite resources_modifyResource,
            ObjFacts.get_modify_other by congruence.
          rewrite resources_modifyPlayer. now apply Ro. }
      * split; [exact U|]. split; [exact K|]. split.
        { intros playerId. rewrite P.
          destruct (Obj.get playerId (players e1)) as [p0|] eqn:H0; [|reflexivity].
          simpl. rewrite (Last playerId p0 H0).
          destruct (String.eqb_spec playerId q) as [->|Ne].
          - assert (p0 = p) by congruence. subst p0.
            unfold inReach. rewrite Near. now rewrite !andb_false_r.
          - now rewrite orb_false_r. }
        split; [|exact Ro].
        rewrite R. rewrite existsb_app. simpl. rewrite Hq. unfold inReach at 2.
        rewrite Near. now rewrite !orb_false_r.
    + split; [exact U|]. split; [exact K|]. split.
      * intros playerId. rewrite P.
        destruct (Obj.get playerId (players e1)) as [p0|] eqn:H0; [|reflexivity].
        simpl. rewrite (Last playerId p0 H0).
        assert (String.eqb playerId q = false) as ->
            by (apply String.eqb_neq; congruence).
        now rewrite orb_false_r.
      * split; [|exact Ro].
        rewrite R. rewrite existsb_app. simpl. rewrite Hq. now rewrite !orb_false_r.
Qed.
End CollectFor.

Lemma existsb_keys_values {V} (f : V -> bool) (o : Obj.t V) :
  NoDup (Obj.keys o) ->
  existsb (fun k => match Obj.get k o with Some v => f v | None => false end)
          (Obj.keys o)
  = existsb f (Obj.values o).
Proof.
  induction o as [|[k0 v0] o IH]; intros N; [reflexivity|].
  inversion N as [|? ? Nk No]; subst. simpl. rewrite String.eqb_refl. f_equal.
  rewrite <- (IH No). clear IH.
  assert (Sub : forall l, (forall k, In k l -> k <> k0) ->
            existsb (fun k => match (if String.eqb k0 k then Some v0 else Obj.get k o) with
                              | Some v => f v | None => false end) l
            = existsb (fun k => match Obj.get k o with
                                | Some v => f v | None => false end) l).
  { induction l as [|k l IHl]; intros H; simpl; [reflexivity|].
    rewrite IHl by (intros k' I; apply H; now right).
    assert (String.eqb k0 k = false) as ->; [|reflexivity].
    apply String.eqb_neq. intros ->. now apply (H k); [left|]. }
  apply Sub. intros k I ->. exact (Nk I).
Qed.

Lemma stored_values {V} (o : Obj.t V) :
  NoDup (Obj.keys o) ->
  flat_map (fun k => match Obj.get k o with Some v => [v] | None => [] end) (Obj.keys o)
  = Obj.values o.
Proof.
  induction o as [|[k0 v0] o IH]; intros N; [reflexivity|].
  inversion N as [|? ? Nk No]; subst. simpl. rewrite String.eqb_refl. simpl. f_equal.
  rewrite <- (IH No). clear IH.
  assert (Sub : forall l, (forall k, In k l -> k <> k0) ->
            flat_map (fun k => match (if String.eqb k0 k then Some v0 else Obj.get k o) with
                               | Some v => [v] | None => [] end) l
            = flat_map (fun k => match Obj.get k o with
                                 | Some v => [v] | None => [] end) l).
  { induction l as [|k l IHl]; intros H; simpl; [reflexivity|].
    rewrite IHl by (intros k' I; apply H; now right).
    assert (String.eqb k0 k = false) as ->; [|reflexivity].
    apply String.eqb_neq. intros ->. now apply (H k); [left|]. }
  apply Sub. intros k I ->. exact (Nk I).
Qed.

Section CollectResources.
Variable e : GameEngine.
Hypothesis distinct_players : NoDup (Obj.keys (players e)).

Let stored (resourceIds : list string) : list Resource.t :=
  flat_map (fun k => match Obj.get k (resources e) with
                     | Some r => [r]
                     | None => []
                     end) resourceIds.

Let wanted (resource : Resource.t) : bool :=
  existsb (fun playerId =>
             match Obj.get playerId (players e) with
             | Some p => inReach e p resource
             | None => false
             end) (Obj.keys (players e)).

Lemma collectResource_fold (resourceIds : list string) :
  NoDup resourceIds ->
  let e1 := fold_left collectResource resourceIds e in
  units e1 = units e /\
  Obj.keys (players e1) = Obj.keys (players e) /\
  (forall playerId,
      Obj.get playerId (players e1) =
      option_map
        (fun p => Player.with_resources
                    (fold_left (gain e p) (stored resourceIds) (Player.resources p)) p)
        (Obj.get playerId (players e))) /\
  (forall resourceId,
      Obj.get resourceId (resources e1) =
      option_map
        (fun r => if existsb (String.eqb resourceId) resourceIds
                     && negb (Resource.isCollected r) && wanted r
                  then Resource.with_isCollected true r else r)
        (Obj.get resourceId (resources e))).
Proof.
  induction resourceIds as [|k ks IH] using rev_ind; intros N; cbv zeta.
  - simpl. split; [reflexivity|]. split; [reflexivity|]. split.
    + intros playerId. destruct (Obj.get playerId (players e)) as [[]|]; reflexivity.
    + intros resourceId. now destruct (Obj.get resourceId (resources e)).
  - apply NoDup_snoc in N. destruct N as [N Nk].
    specialize (IH N). cbv zeta in IH. rewrite fold_left_app. simpl.
    set (e1 := fold_left collectResource ks e) in *.
    destruct IH as (U & K & P & R).
    assert (Rk : Obj.get k (resources e1) = Obj.get k (resources e)).
    { rewrite R, (existsb_eqb_notIn k ks Nk). simpl.
      now destruct (Obj.get k (resources e)). }
    assert (Last : forall resourceId,
               existsb (String.eqb resourceId) (ks ++ [k]) =
               existsb (String.eqb resourceId) ks || String.eqb resourceId k).
    { intros resourceId. rewrite existsb_app. simpl. now rewrite orb_false_r. }
    assert (St : stored (ks ++ [k]) =
                 (stored ks ++ match Obj.get k (resources e) with
                               | Some r => [r] | None => [] end)%list).
    { unfold stored. rewrite flat_map_app. simpl. now rewrite app_nil_r. }
    unfold collectResource. rewrite Rk.
    destruct (Obj.get k (resources e)) as [r|] eqn:Hk.
    + destruct (Resource.isCollected r) eqn:C.
      * split; [exact U|]. split; [exact K|]. split.
        { intros playerId. rewrite P, St.
          destruct (Obj.get playerId (players e)) as [p|]; [|reflexivity].
          simpl. rewrite fold_left_app. simpl. unfold gain. now rewrite C. }
        { intros resourceId. rewrite R, Last.
          destruct (Obj.get resourceId (resources e)) as [r0|] eqn:H0; [|reflexivity].
          simpl. destruct (String.eqb_spec resourceId k) as [->|Ne].
          - assert (r0 = r) by congruence. subst r0. rewrite C.
            now rewrite !andb_false_r.
          - now rewrite orb_false_r. }
      * rewrite K.
        destruct (collectFor_fold e1 k r Rk (Obj.keys (players e)) distinct_players)
          as (U2 & K2 & P2 & R2 & Ro2).
        set (e2 := fold_left (collectFor k) (Obj.keys (players e)) e1) in *.
        split; [congruence|]. split; [congruence|]. split.
        { intros playerId. rewrite P2, P, St.
          destruct (Obj.get playerId (players e)) as [p|] eqn:Hp; [|reflexivity].
          simpl. rewrite fold_left_app. simpl.
          rewrite (existsb_eqb_In playerId _ (get_Some_keys _ _ _ Hp)). simpl.
          assert (IR : forall b, inReach e1 (Player.with_resources b p) r
                                 = inReach e p r)
            by (intros b; now apply inReach_ext).
          rewrite IR.
          unfold gain. rewrite C. simpl.
          now destruct (inReach e p r). }
        { intros resourceId. rewrite Last.
          destruct (String.eqb_spec resourceId k) as [->|Ne].
          - rewrite R2, Hk. simpl. rewrite C, orb_true_r. simpl.
            unfold wanted. f_equal.
            rewrite (existsb_same _
                       (fun playerId => match Obj.get playerId (players e) with
                                        | Some p => inReach e p r
                                        | None => false
                                        end)); [reflexivity|].
            intros playerId. rewrite P.
            destruct (Obj.get playerId (players e)) as [p|]; [|reflexivity].
            simpl. now apply inReach_ext.
          - rewrite (Ro2 _ Ne), R, orb_false_r. reflexivity. }
    + split; [exact U|]. split; [exact K|]. split.
      * intros playerId. rewrite P, St. now rewrite app_nil_r.
      * intros resourceId. rewrite R, Last.
        destruct (Obj.get resourceId (resources e)) as [r0|] eqn:H0; [|reflexivity].
        simpl. assert (String.eqb resourceId k = false) as ->
            by (apply String.eqb_neq; congruence).
        now rewrite orb_false_r.
Qed.
End CollectResources.

(** X19: the collection pass, in a world whose maps have no key twice.
    Every node that is not collected pays its amount to every player
    who has a living soldier within 30 of it, not to one of them only,
    and is then collected; a node that is collected already, or within
    nobody's reach, stays as it is.  A player's balance afterwards is
    the balance before with the amounts of those nodes added one after
    the other, in the order of the resource map.  No unit changes. *)
Theorem collectResources_pays_every_player_in_reach (e : GameEngine) :
  distinctKeys e ->
  let e' := collectResources e in
  units e' = units e /\
  (forall playerId player,
      Obj.get playerId (players e) = Some player ->
      Obj.get playerId (players e') =
      Some (Player.with_resources (incomeOf e player) player)) /\
  (forall resourceId resource,
      Obj.get resourceId (resources e) = Some resource ->
      Obj.get resourceId (resources e') =
      Some (if negb (Resource.isCollected resource)
               && existsb (fun player => inReach e player resource)
                          (Obj.values (players e))
            then Resource.with_isCollected true resource
            else resource)).
Proof.
  intros [Du Dp Dr] e'.
  destruct (collectResource_fold e Dp (Obj.keys (resources e)) Dr) as (U & _ & P & R).
  fold (collectResources e) in U, P, R. fold e' in U, P, R.
  split; [exact U|]. split.
  - intros playerId player H. rewrite P, H. simpl. unfold incomeOf.
    now rewrite (stored_values (resources e) Dr).
  - intros resourceId resource H. rewrite R, H. simpl.
    rewrite (existsb_eqb_In resourceId _ (get_Some_keys _ _ _ H)). simpl.
    now rewrite (existsb_keys_values (fun p => inReach e p resource) (players e) Dp).
Qed.

Lemma reachable_worldShared : reachable worldShared.
Proof.
  unfold worldShared. cbv zeta.
  eapply step_reachable; [|apply step_addPlayer; newIds].
  eapply step_reachable; [|apply step_addPlayer; newIds].
  apply reachable_new.
Qed.

(** In [worldShared] the first node is within reach of a soldier of A
    and of a soldier of B: it pays 150 to each. *)
Lemma collectResources_pays_every_player_in_reach_witness :
  let e' := collectResources worldShared in
  option_map Player.resources (Obj.get "player-A" (players e')) = Some (485 + 150) /\
  option_map Player.resources (Obj.get "player-B" (players e')) = Some (485 + 150) /\
  option_map Resource.isCollected (Obj.get "resource-A" (resources e')) = Some true /\
  option_map Resource.isCollected (Obj.get "resource-B" (resources e')) = Some false.
Proof.
  destruct (collectResources_pays_every_player_in_reach worldShared
              (reachable_distinctKeys worldShared reachable_worldShared))
    as (_ & P & R).
  assert (HA : exists p, Obj.get "player-A" (players worldShared) = Some p /\
                         incomeOf worldShared p = 485 + 150)
    by (eexists; split; [vm_compute; reflexivity|]; vm_compute; reflexivity).
  assert (HB : exists p, Obj.get "player-B" (players worldShared) = Some p /\
                         incomeOf worldShared p = 485 + 150)
    by (eexists; split; [vm_compute; reflexivity|]; vm_compute; reflexivity).
  assert (RA : exists r, Obj.get "resource-A" (resources worldShared) = Some r /\
                         negb (Resource.isCollected r)
                         && existsb (fun p => inReach worldShared p r)
                                    (Obj.values (players worldShared)) = true)
    by (eexists; split; [vm_compute; reflexivity|]; vm_compute; reflexivity).
  assert (RB : exists r, Obj.get "resource-B" (resources worldShared) = Some r /\
                         Resource.isCollected r = false /\
                         negb (Resource.isCollected r)
                         && existsb (fun p => inReach worldShared p r)
                                    (Obj.values (players worldShared)) = false)
    by (eexists; split; [vm_compute; reflexivity|]; split; vm_compute; reflexivity).
  destruct HA as (pA & HA & IA), HB as (pB & HB & IB),
           RA as (rA & RA & CA), RB as (rB & RB & FB & CB).
  cbv zeta. rewrite (P _ _ HA), (P _ _ HB), (R _ _ RA), (R _ _ RB), CA, CB.
  cbn [option_map Player.resources Player.with_resources
       Resource.isCollected Resource.with_isCollected].
  rewrite IA, IB, FB. repeat split.
Defined.

(** ** A tick that throws *)

Lemma unitPass_keeps_clock_and_money deltaTime e :
  let e' := fst (updateUnits deltaTime e) in
  gameTime e' = gameTime e /\ lastUpdateTime e' = lastUpdateTime e /\
  resources e' = resources e /\
  forall playerId, balanceOf playerId e' = balanceOf playerId e.
Proof.
  apply (tick_updateUnits deltaTime
           (fun e' =>
              gameTime e' = gameTime e /\ lastUpdateTime e' = lastUpdateTime e /\
              resources e' = resources e /\
              forall playerId, balanceOf playerId e' = balanceOf playerId e));
    try (intros; assumption); [|repeat split].
  intros e0 unitId unit targetId target (G & L & R & B) _ _ _ _ _ _ _ _.
  rewrite dealDamage_state. cbv zeta. destruct (_ <=? 0).
  - split; [exact G|]. split; [exact L|]. split; [exact R|].
    intros playerId. rewrite <- B. unfold balanceOf.
    rewrite players_modifyPlayer, players_modifyUnit.
    now apply get_modify_map.
  - repeat split; assumption.
Qed.




(** X20: a call of [update()] that throws.  The combat block throws
    when the target of an attacking unit that can attack ground names
    no unit but reads as an object or as [true]: such a target is not
    dead and not a helicopter, and has no position.  An attacker that
    cannot attack ground drops such a target instead, as it drops a
    target that reads as nothing.  The block throws as well at a lethal
    hit on a unit whose owner id reads as an object or as [true], the
    unit being dead by then with health 0; when that id reads as
    nothing, the hit only skips the roster.  A call that throws has
    advanced the clock and has run the unit pass up to the unit it
    throws at; the respawn pass and the collection pass are not run, so
    no node and no balance changes.  In [worldForeign], where [a1], the
    first unit of the map, has been ordered to attack ["constructor"],
    the call throws in the turn of [a1]: [a2], which would have engaged
    [b1], has no target after the call. *)
Theorem update_throws_at_a_target_that_is_no_unit :
  (forall deltaTime e unitId unit targetId,
      Obj.get unitId (units e) = Some unit ->
      Unit.isAttacking unit = true ->
      Unit.targetId unit = Some targetId -> targetId <> "" ->
      read e (units e) targetId = Foreign \/ read e (units e) targetId = Primitive ->
      handleCombat deltaTime e unitId =
        if Unit.canAttackGround unit then (e, Throws)
        else (modifyUnit unitId clearAttack e, Returns tt)) /\
  (forall deltaTime e unitId unit targetId target,
      Obj.get unitId (units e) = Some unit ->
      Unit.isAttacking unit = true ->
      Unit.targetId unit = Some targetId -> targetId <> "" ->
      Obj.get targetId (units e) = Some target ->
      Unit.isDead target = false ->
      canUnitAttackTarget unit target = true ->
      (distanceBetween unit target <=? Unit.range unit * 20) = true ->
      F64.gtb (F64.Math_floor (gameTime e))
              (F64.Math_floor (gameTime e - deltaTime)) = true ->
      (Unit.health target
       - F64.Math_max 1 (Unit.attack unit - Unit.defense target / 2) <=? 0) = true ->
      let e' :=
        modifyUnit targetId
          (fun t => Unit.with_isDead true (Unit.with_health 0 t)) e in
      (read e (players e) (Unit.playerId target) = Falsy ->
       handleCombat deltaTime e unitId = (e', Returns tt)) /\
      (read e (players e) (Unit.playerId target) = Foreign \/
       read e (players e) (Unit.playerId target) = Primitive ->
       handleCombat deltaTime e unitId = (e', Throws))) /\
  (forall e currentTime,
      snd (updateCall e currentTime) = Throws ->
      let e' := update e currentTime in
      gameTime e' = gameTime e + (currentTime - lastUpdateTime e) / 1000 /\
      lastUpdateTime e' = currentTime /\
      resources e' = resources e /\
      forall playerId, balanceOf playerId e' = balanceOf playerId e) /\
  reachable worldForeign /\
  option_map Unit.targetId (Obj.get "a1" (units worldForeign))
    = Some (Some "constructor") /\
  read worldForeign (units worldForeign) "constructor" = Foreign /\
  snd (updateCall worldForeign (T0 + 16)) = Throws /\
  gameTime (update worldForeign (T0 + 16)) = 0.016 /\
  option_map Unit.targetId (Obj.get "a2" (units (update worldForeign (T0 + 16))))
    = Some None /\
  snd (updateCall worldAB (T0 + 16)) = Returns tt /\
  option_map Unit.targetId (Obj.get "a2" (units (update worldAB (T0 + 16))))
    = Some (Some "b1").
Proof.
  split; [|split; [|split]].
  - intros deltaTime e unitId unit targetId Hu A T N R.
    unfold handleCombat. rewrite Hu, T, A.
    apply String.eqb_neq in N. rewrite N. simpl.
    destruct R as [R | R]; rewrite R; now destruct (Unit.canAttackGround unit).
  - intros deltaTime e unitId unit targetId target Hu A T N Ht Dt C Rg G L e'.
    rewrite (handleCombat_hit deltaTime e unitId unit targetId target
               Hu A T N Ht Dt C Rg G).
    unfold dealDamage. cbv zeta. rewrite L. fold e'.
    change (read e' (players e') (Unit.playerId target))
      with (read e (players e) (Unit.playerId target)).
    split; [intros R; now rewrite R|].
    intros [R | R]; now rewrite R.
  - intros e currentTime Th e'. subst e'. revert Th.
    unfold update, updateCall, passes. cbv zeta.
    pose proof (unitPass_keeps_clock_and_money
                  ((currentTime - lastUpdateTime e) / 1000)
                  (advanceClock e currentTime)) as K.
    cbv zeta in K.
    destruct (updateUnits _ _) as [e1 [r|]]; simpl in *; [discriminate|].
    intros _. destruct K as (G & L & R & B).
    rewrite G, L, R. repeat split. exact B.
  - split; [exact reachable_worldForeign|].
    vm_compute. repeat split.
Qed.

Lemma reachable_worldProto : reachable worldProto.
Proof.
  apply step_reachable with worldAB; [apply reachable_worldAB|].
  apply step_moveUnit.
Qed.

Lemma reachable_worldProtoRaid : reachable worldProtoRaid.
Proof.
  apply step_reachable with worldProto; [apply reachable_worldProto|].
  apply step_attackUnit.
Qed.

(** X21: what a move order to ["__proto__"] leaves behind.  The order
    returns [true] and writes [path], [isMoving], [isAttacking] and
    [targetId] on [Object.prototype].  No unit, player, node or clock
    changes.  But from then on, in both dictionaries, the name ["path"]
    reads as an object and ["isMoving"] as [true], where they read as
    nothing before: a move order to ["isMoving"] throws, one to
    ["path"] returns [true], and a purchase for either of them throws,
    where all four returned [false] or [null]; ["isAttacking"] and
    ["targetId"] still read as nothing.  A unit has no path of its own
    until it is given a move order, so [unit.path] reads the array of
    [Object.prototype]; but in a world the engine can be in a unit
    without a path of its own is not moving, and [update()] leaves the
    array as it is.  In [worldProto], which is [worldAB] after such an
    order, a tick moves and engages the units as it does in [worldAB];
    an attack order at ["path"], refused in [worldAB], is accepted, and
    the next tick throws. *)
Theorem moveUnit_to_the_prototype :
  (forall e targetPosition,
      Obj.get "__proto__" (units e) = None ->
      moveUnit e "__proto__" targetPosition
        = (with_prototypePath (Some [targetPosition]) e, Returns true)) /\
  (forall e path position unitType uuid,
      prototypePath e = Some path ->
      (Obj.get "isMoving" (units e) = None ->
       moveUnit e "isMoving" position = (e, Throws)) /\
      (Obj.get "path" (units e) = None ->
       moveUnit e "path" position = (e, Returns true)) /\
      (Obj.get "isAttacking" (units e) = None ->
       moveUnit e "isAttacking" position = (e, Returns false)) /\
      (Obj.get "targetId" (units e) = None ->
       moveUnit e "targetId" position = (e, Returns false)) /\
      (Obj.get "isMoving" (players e) = None ->
       createUnit e "isMoving" unitType position uuid = (e, Throws)) /\
      (Obj.get "path" (players e) = None ->
       createUnit e "path" unitType position uuid = (e, Throws)) /\
      (Obj.get "isAttacking" (players e) = None ->
       createUnit e "isAttacking" unitType position uuid = (e, Returns None))) /\
  (forall e position unitType uuid,
      prototypePath e = None ->
      (Obj.get "isMoving" (units e) = None ->
       moveUnit e "isMoving" position = (e, Returns false)) /\
      (Obj.get "path" (units e) = None ->
       moveUnit e "path" position = (e, Returns false)) /\
      (Obj.get "isMoving" (players e) = None ->
       createUnit e "isMoving" unitType position uuid = (e, Returns None)) /\
      (Obj.get "path" (players e) = None ->
       createUnit e "path" unitType position uuid = (e, Returns None))) /\
  (forall e currentTime,
      reachable e -> prototypePath (update e currentTime) = prototypePath e) /\
  reachable worldProtoRaid /\
  prototypePath worldAB = None /\
  moveUnit worldAB "__proto__" {| x := 300; y := 300 |} = (worldProto, Returns true) /\
  state worldProto = state worldAB /\
  prototypePath worldProto = Some [{| x := 300; y := 300 |}] /\
  moveUnit worldAB "isMoving" {| x := 0; y := 0 |} = (worldAB, Returns false) /\
  moveUnit worldProto "isMoving" {| x := 0; y := 0 |} = (worldProto, Throws) /\
  snd (updateCall worldProto (T0 + 16)) = Returns tt /\
  state (update worldProto (T0 + 16)) = state (update worldAB (T0 + 16)) /\
  prototypePath (update worldProto (T0 + 16)) = Some [{| x := 300; y := 300 |}] /\
  attackUnit worldAB "a1" "path" = (worldAB, false) /\
  snd (attackUnit worldProto "a1" "path") = true /\
  option_map Unit.targetId (Obj.get "a1" (units worldProtoRaid)) = Some (Some "path") /\
  snd (updateCall worldProtoRaid (T0 + 16)) = Throws.
Proof.
  split; [|split; [|split; [|split]]].
  - intros e targetPosition H. unfold moveUnit, read. now rewrite H.
  - intros e path position unitType uuid Pp.
    repeat split; intros H;
      unfold moveUnit, createUnit, read, inherited; rewrite H, Pp; reflexivity.
  - intros e position unitType uuid Pp.
    repeat split; intros H;
      unfold moveUnit, createUnit, read, inherited; rewrite H, Pp; reflexivity.
  - intros e currentTime R. rewrite update_passes. cbv zeta.
    apply (wellFormed_passes _ (advanceClock e currentTime)).
    now apply wellFormed_advanceClock, reachable_wellFormed.
  - split; [exact reachable_worldProtoRaid|].
    vm_compute. repeat split.
Qed.


